(** * audio_recorder.py: capture, level metering, WAV output and playback

    A shallow embedding of the [AudioRecorder] and [MainWindow] classes of
    [audio_recorder.py].  The recorder's thread functions are written in a
    small state-and-exception monad over a [world] that holds the recorder's
    fields, the files on disk and the chronological log of everything the
    thread does to its surroundings (device calls, Qt signals, file writes).
    The device, the file system's refusals and the foreground thread's calls
    of [stop_recording] are supplied by an [environment]. *)

From Stdlib Require Import ZArith QArith Qround Reals Qreals.
From Stdlib Require Floats.PrimFloat Floats.SpecFloat Floats.FloatOps.
From Stdlib Require Floats.FloatAxioms Uint63.
From Stdlib Require Import Ascii String DecimalString Bool Lia Lra Psatz List.
From Stdlib Require Import Sorted.
From Stdlib Require DecimalZ.
From coqutil Require Import Byte Word.LittleEndianList.
From Equations Require Import Equations.
Import ListNotations.
Local Open Scope Z_scope.

(** * Part I: the program

    The definitions of this part follow the source function by function. *)

(** ** Python numerics *)

Module Py.

(** [int(x)] on a number: truncation toward zero. *)
Definition int (q : Q) : Z := Z.quot (Qnum q) (Zpos (Qden q)).

(** [a / b] on two ints: true division. *)
Definition truediv (a b : Z) : Q := (inject_Z a / inject_Z b)%Q.

(** The number of iterations of [for _ in range(n)]: none when [n <= 0]. *)
Definition range (n : Z) : nat := Z.to_nat n.

End Py.

(** ** The recorder's audio parameters ([AudioRecorder.__init__]) *)

Definition CHUNK : Z := 1024.
Definition CHANNELS : Z := 1.
Definition RATE : Z := 48000.
Definition SAMPLE_WIDTH : Z := 2.

(** [chunks_needed = int(self.RATE / self.CHUNK * duration)].

    [duration] is an int at both call sites ([duration_spin.value()] and the
    literal 3).  [RATE / CHUNK] is 46.875, a dyadic rational, so the binary64
    quotient and its product with an int are exact and the rational
    arithmetic below is what the interpreter computes. *)
Definition chunks_needed (duration : Z) : Z :=
  Py.int (Py.truediv RATE CHUNK * inject_Z duration)%Q.

(** ** Binary64

    numpy and the interpreter compute on IEEE double precision numbers.
    They are Rocq's primitive floats here, whose operations are the
    processor's. *)

Module Float64.

(** An int as a float, [np.float64(z)], for the ints the program converts:
    below 2^63 in absolute value. *)
Definition of_Z (z : Z) : PrimFloat.float :=
  match z with
  | Z0 => PrimFloat.zero
  | Zpos _ => PrimFloat.of_uint63 (Uint63.of_Z z)
  | Zneg p => PrimFloat.opp (PrimFloat.of_uint63 (Uint63.of_Z (Zpos p)))
  end.

(** [int(x)] on a float: truncation toward zero; [inl] is the message of the
    [OverflowError] or [ValueError] raised on an infinity or a NaN. *)
Definition int (x : PrimFloat.float) : string + Z :=
  match FloatOps.Prim2SF x with
  | SpecFloat.S754_zero _ => inr 0
  | SpecFloat.S754_finite negative m e =>
      let magnitude :=
        match e with
        | Z0 => Zpos m
        | Zpos _ => Z.shiftl (Zpos m) e
        | Zneg k => Z.shiftr (Zpos m) (Zpos k)
        end in
      inr (if negative then - magnitude else magnitude)
  | SpecFloat.S754_infinity _ => inl "cannot convert float infinity to integer"%string
  | SpecFloat.S754_nan => inl "cannot convert float NaN to integer"%string
  end.

(** [int(self.RATE / self.CHUNK * duration)], as the interpreter computes
    it. *)
Definition chunks_needed (duration : Z) : string + Z :=
  int (PrimFloat.mul (PrimFloat.div (of_Z RATE) (of_Z CHUNK)) (of_Z duration)).

End Float64.

(** ** Level meter

    The block that both recording threads run on every chunk:
    [np.frombuffer], mean square, [np.sqrt], scaling, [int] and the
    [min(100, _)] at the [emit], in binary64 as numpy computes them. *)

(** One little-endian signed 16-bit sample. *)
Definition int16 (lo hi : byte) : Z :=
  let u := le_combine [lo; hi] in
  if u <? 32768 then u else u - 65536.

(** [np.frombuffer(data, dtype=np.int16)].  [None] is the [ValueError]
    numpy raises when the buffer is not a whole number of samples. *)
Fixpoint frombuffer (data : list byte) : option (list Z) :=
  match data with
  | [] => Some []
  | [_] => None
  | lo :: hi :: rest => option_map (cons (int16 lo hi)) (frombuffer rest)
  end.

(** The sum that [np.mean] accumulates over
    [audio_data.astype(np.float64) ** 2].  The squares are integers up to
    2^30, so every partial sum of fewer than 2^23 of them is an integer below
    2^53 and binary64 holds it exactly, in whatever order numpy adds. *)
Definition sum_squares (audio_data : list Z) : Z :=
  fold_right (fun x acc => x * x + acc) 0 audio_data.

(** [np.mean(audio_data.astype(np.float64) ** 2)]: the sum divided by the
    number of samples, the one operation of the mean that rounds. *)
Definition mean_square (audio_data : list Z) : PrimFloat.float :=
  PrimFloat.div (Float64.of_Z (sum_squares audio_data))
                (Float64.of_Z (Z.of_nat (length audio_data))).

(** [rms = np.sqrt(mean_square)] and [int((rms / 32768.0) * 100)]. *)
Definition rms_percent (mean_square : PrimFloat.float) : string + Z :=
  let rms := PrimFloat.sqrt mean_square in
  Float64.int (PrimFloat.mul (PrimFloat.div rms (Float64.of_Z 32768))
                             (Float64.of_Z 100)).

(** The value handed to [level_update.emit], or the exception [int] raises
    before the [emit]. *)
Definition compute_level (audio_data : list Z) : string + Z :=
  if 0 <? Z.of_nat (length audio_data) then
    let mean_square := mean_square audio_data in
    if PrimFloat.leb PrimFloat.zero mean_square then
      match rms_percent mean_square with
      | inr level => inr (Z.min 100 level)
      | inl e => inl e
      end
    else inr 0
  else inr 0.

(** ** The [wave] module

    [wave] is CPython's standard library, used by [_save_wav] (writer) and by
    [_play_test_thread] (reader).  Both sides are modelled on the bytes of the
    file: the writer lays out the canonical 44-byte PCM header and the data,
    the reader walks the RIFF chunks as [Wave_read.initfp] does, for the PCM
    format tag. *)

Module Wave.

Definition WAVE_FORMAT_PCM : Z := 1.

Definition tag (s : string) : list byte := list_byte_of_string s.

Fixpoint bytes_eqb (a b : list byte) : bool :=
  match a, b with
  | [], [] => true
  | x :: a', y :: b' => Byte.eqb x y && bytes_eqb a' b'
  | _, _ => false
  end.

(** The fields [struct.pack] accepts for ['<L'] and ['<H']. *)
Definition fits_L (n : Z) : bool := (0 <=? n) && (n <? 2 ^ 32).
Definition fits_H (n : Z) : bool := (0 <=? n) && (n <? 2 ^ 16).

(** The body of the fmt chunk: the six fields ['HHLLHH'] of the header's
    [struct.pack]. *)
Definition fmt_body (nchannels sampwidth framerate : Z) : list byte :=
  le_split 2 WAVE_FORMAT_PCM ++ le_split 2 nchannels ++ le_split 4 framerate ++
  le_split 4 (nchannels * framerate * sampwidth) ++
  le_split 2 (nchannels * sampwidth) ++ le_split 2 (sampwidth * 8).

(** [Wave_write._write_header] followed by the data-length field, with the
    length that [close] leaves in place ([_patchheader]). *)
Definition header (nchannels sampwidth framerate datalength : Z) : list byte :=
  tag "RIFF" ++ le_split 4 (36 + datalength) ++ tag "WAVE" ++
  tag "fmt " ++ le_split 4 16 ++ fmt_body nchannels sampwidth framerate ++
  tag "data" ++ le_split 4 datalength.

(** What ends up in the file after [setnchannels], [setsampwidth],
    [setframerate], [writeframes(data)] and [close]; [inl] is the message of
    the exception raised on the way ([wave.Error] from a setter,
    [struct.error] from a header field that does not fit). *)
Definition write (nchannels sampwidth framerate : Z) (data : list byte)
  : string + list byte :=
  let datalength := Z.of_nat (length data) in
  if nchannels <? 1 then inl "bad # of channels"%string
  else if (sampwidth <? 1) || (4 <? sampwidth) then inl "bad sample width"%string
  else if framerate <=? 0 then inl "bad frame rate"%string
  else if fits_L (36 + datalength) && fits_H nchannels && fits_L framerate &&
          fits_L (nchannels * framerate * sampwidth) &&
          fits_H (nchannels * sampwidth) && fits_H (sampwidth * 8)
  then inr (header nchannels sampwidth framerate datalength ++ data)
  else inl "'L' format requires 0 <= number <= 4294967295"%string.

(** What is in the file when the writer is dropped after the exception and
    closed by its [__del__].  A setter that raised has written nothing, and
    [close] finds a parameter missing before it writes.  When a header field
    did not fit, [_write_header] had written the 4 bytes ['RIFF'] before
    [struct.pack] raised; [close] calls it again, with the same outcome, and
    then closes the file. *)
Definition abandoned (nchannels sampwidth framerate : Z) : list byte :=
  if (nchannels <? 1) || (sampwidth <? 1) || (4 <? sampwidth) || (framerate <=? 0)
  then []
  else tag "RIFF" ++ tag "RIFF".

(** The state of a [Wave_read] object: the parameters of the fmt chunk and
    the part of the data chunk not yet consumed by [readframes]. *)
Record Wave_read := {
  getnchannels : Z;
  getsampwidth : Z;
  getframerate : Z;
  getnframes : Z;
  data_chunk : list byte
}.

Record fmt_chunk := {
  fmt_nchannels : Z;
  fmt_framerate : Z;
  fmt_sampwidth : Z
}.

(** [Wave_read._read_fmt_chunk] on the bytes of the chunk; a short chunk is
    an [EOFError], whose [str] is empty. *)
Definition _read_fmt_chunk (body : list byte) : string + fmt_chunk :=
  if (length body <? 14)%nat then inl ""%string
  else
    let wFormatTag := le_combine (firstn 2 body) in
    let nchannels := le_combine (firstn 2 (skipn 2 body)) in
    let framerate := le_combine (firstn 4 (skipn 4 body)) in
    if wFormatTag =? WAVE_FORMAT_PCM then
      if (length body <? 16)%nat then inl ""%string
      else
        let sampwidth := (le_combine (firstn 2 (skipn 14 body)) + 7) / 8 in
        if sampwidth =? 0 then inl "bad sample width"%string
        else if nchannels =? 0 then inl "bad # of channels"%string
        else inr {| fmt_nchannels := nchannels;
                    fmt_framerate := framerate;
                    fmt_sampwidth := sampwidth |}
    else inl ("unknown format: " ++
              DecimalString.NilEmpty.string_of_int (Z.to_int wFormatTag))%string.

(** [chunk.skip()]: past the body and its pad byte. *)
Definition skip_chunk (size : Z) (rest : list byte) : list byte :=
  skipn (Z.to_nat (size + size mod 2)) rest.

(** [_Chunk(file, bigendian = 0)]: a 4-byte name and a 4-byte little-endian
    size, then the body. *)
Definition chunkname (bs : list byte) : list byte := firstn 4 bs.
Definition chunksize (bs : list byte) : Z := le_combine (firstn 4 (skipn 4 bs)).
Definition after_header (bs : list byte) : list byte := skipn 8 bs.

(** The [while 1] loop of [initfp]: read chunk headers until the data chunk.
    Running out of bytes is the [EOFError] that breaks out of the loop with
    no data chunk seen. *)
Equations? chunk_loop (bs : list byte) (fmt : option fmt_chunk)
  : string + Wave_read by wf (length bs) lt :=
  chunk_loop bs fmt with le_lt_dec 8 (length bs) := {
    | right _ => inl "fmt chunk and/or data chunk missing"%string
    | left _ =>
        if bytes_eqb (chunkname bs) (tag "fmt ") then
          match _read_fmt_chunk (firstn (Z.to_nat (chunksize bs)) (after_header bs)) with
          | inl e => inl e
          | inr f => chunk_loop (skip_chunk (chunksize bs) (after_header bs)) (Some f)
          end
        else if bytes_eqb (chunkname bs) (tag "data") then
          match fmt with
          | None => inl "data chunk before fmt chunk"%string
          | Some f =>
              inr {| getnchannels := fmt_nchannels f;
                     getsampwidth := fmt_sampwidth f;
                     getframerate := fmt_framerate f;
                     getnframes := chunksize bs / (fmt_nchannels f * fmt_sampwidth f);
                     data_chunk := firstn (Z.to_nat (chunksize bs)) (after_header bs) |}
          end
        else chunk_loop (skip_chunk (chunksize bs) (after_header bs)) fmt }.
Proof.
  all: unfold skip_chunk, after_header; rewrite !length_skipn; lia.
Qed.

(** [wave.open(f, 'rb')] on the content of the file: the RIFF chunk, the
    form type, then the chunks inside it.  A file too short for the first
    chunk header is an [EOFError]. *)
Definition initfp (content : list byte) : string + Wave_read :=
  if (length content <? 8)%nat then inl ""%string
  else if negb (bytes_eqb (chunkname content) (tag "RIFF"))
  then inl "file does not start with RIFF id"%string
  else
    let riff := firstn (Z.to_nat (chunksize content)) (after_header content) in
    if negb (bytes_eqb (firstn 4 riff) (tag "WAVE"))
    then inl "not a WAVE file"%string
    else chunk_loop (skipn 4 riff) None.

(** [wf.readframes(nframes)]: the bytes returned and the reader afterwards. *)
Definition readframes (nframes : Z) (wf : Wave_read) : list byte * Wave_read :=
  let n := Z.to_nat (nframes * (getnchannels wf * getsampwidth wf)) in
  (firstn n (data_chunk wf),
   {| getnchannels := getnchannels wf;
      getsampwidth := getsampwidth wf;
      getframerate := getframerate wf;
      getnframes := getnframes wf;
      data_chunk := skipn n (data_chunk wf) |}).

End Wave.

(** ** The world of a recorder thread *)

(** What a thread does to its surroundings, in the order it does it. *)
Inductive event :=
| DeviceOpen (input : bool) (device_index : option Z)  (* [self.p.open(...)] is called *)
| StreamRead (num_frames : Z)                          (* [stream.read(CHUNK, ...)] *)
| StreamWrite (data : list byte)                       (* [stream.write(data)] *)
| StreamStop                                           (* [stream.stop_stream()] *)
| StreamClose                                          (* [stream.close()] *)
| WaveOpen (filename : string) (mode : string)         (* [wave.open(filename, mode)] *)
| LevelUpdate (level : Z)                              (* [level_update.emit] *)
| RecordingComplete (success : bool) (message : string)
| TestComplete (success : bool) (message : string).

(** What the thread cannot decide: the device, the file system's refusals
    and the foreground thread.  An error is the [str] of the exception. *)
Record environment := {
  (** [p.open] raises (busy, removed or invalid device) *)
  open_error : bool -> option Z -> option string;
  (** the outcome of the n-th [stream.read] since the world began *)
  read_result : nat -> string + list byte;
  (** the n-th [stream.write] raises *)
  write_error : nat -> option string;
  stop_error : option string;
  close_error : option string;
  (** [wave.open(filename, 'wb')] raises (missing directory, permissions) *)
  wave_open_error : string -> option string;
  (** the foreground thread has run [stop_recording()] by the time the
      recording loop tests the flag in its n-th iteration *)
  stop_requested : nat -> bool
}.

(** The recorder's fields, the files on disk, the device streams that are
    open, the counts of device reads and writes so far, and the log. *)
Record world := {
  is_recording : bool;
  is_testing : bool;
  frames : list (list byte);
  test_file_path : option string;
  files : string -> option (list byte);
  open_streams : nat;
  reads : nat;
  writes : nat;
  log : list event
}.

Definition set_is_recording (b : bool) (w : world) : world :=
  {| is_recording := b; is_testing := is_testing w; frames := frames w;
     test_file_path := test_file_path w; files := files w;
     open_streams := open_streams w; reads := reads w; writes := writes w;
     log := log w |}.

Definition set_is_testing (b : bool) (w : world) : world :=
  {| is_recording := is_recording w; is_testing := b; frames := frames w;
     test_file_path := test_file_path w; files := files w;
     open_streams := open_streams w; reads := reads w; writes := writes w;
     log := log w |}.

Definition set_frames (fs : list (list byte)) (w : world) : world :=
  {| is_recording := is_recording w; is_testing := is_testing w; frames := fs;
     test_file_path := test_file_path w; files := files w;
     open_streams := open_streams w; reads := reads w; writes := writes w;
     log := log w |}.

Definition set_test_file_path (p : option string) (w : world) : world :=
  {| is_recording := is_recording w; is_testing := is_testing w; frames := frames w;
     test_file_path := p; files := files w;
     open_streams := open_streams w; reads := reads w; writes := writes w;
     log := log w |}.

Definition set_file (filename : string) (content : list byte) (w : world) : world :=
  {| is_recording := is_recording w; is_testing := is_testing w; frames := frames w;
     test_file_path := test_file_path w;
     files := fun f => if String.eqb f filename then Some content else files w f;
     open_streams := open_streams w; reads := reads w; writes := writes w;
     log := log w |}.

Definition set_open_streams (n : nat) (w : world) : world :=
  {| is_recording := is_recording w; is_testing := is_testing w; frames := frames w;
     test_file_path := test_file_path w; files := files w;
     open_streams := n; reads := reads w; writes := writes w;
     log := log w |}.

Definition set_reads (n : nat) (w : world) : world :=
  {| is_recording := is_recording w; is_testing := is_testing w; frames := frames w;
     test_file_path := test_file_path w; files := files w;
     open_streams := open_streams w; reads := n; writes := writes w;
     log := log w |}.

Definition set_writes (n : nat) (w : world) : world :=
  {| is_recording := is_recording w; is_testing := is_testing w; frames := frames w;
     test_file_path := test_file_path w; files := files w;
     open_streams := open_streams w; reads := reads w; writes := n;
     log := log w |}.

Definition set_log (l : list event) (w : world) : world :=
  {| is_recording := is_recording w; is_testing := is_testing w; frames := frames w;
     test_file_path := test_file_path w; files := files w;
     open_streams := open_streams w; reads := reads w; writes := writes w;
     log := l |}.

(** ** State and exceptions *)

Inductive result (A : Type) :=
| Return (a : A)
| Raise (message : string).
Arguments Return {A} a.
Arguments Raise {A} message.

Definition M (A : Type) : Type := world -> result A * world.

Definition ret {A} (a : A) : M A := fun w => (Return a, w).

Definition bind {A B} (c : M A) (k : A -> M B) : M B :=
  fun w =>
    match c w with
    | (Return a, w') => k a w'
    | (Raise e, w') => (Raise e, w')
    end.

Definition raise {A} (e : string) : M A := fun w => (Raise e, w).

(** [try: body  except Exception as e: handler] *)
Definition try_except {A} (body : M A) (handler : string -> M A) : M A :=
  fun w =>
    match body w with
    | (Return a, w') => (Return a, w')
    | (Raise e, w') => handler e w'
    end.

(** A computation without effects that may raise. *)
Definition lift {A} (r : string + A) : M A :=
  match r with
  | inl e => raise e
  | inr a => ret a
  end.

Definition gets {A} (f : world -> A) : M A := fun w => (Return (f w), w).
Definition modify (f : world -> world) : M unit := fun w => (Return tt, f w).

Declare Scope thread_scope.
Delimit Scope thread_scope with thread.
Notation "x <- c1 ;; c2" := (bind c1 (fun x => c2))
  (at level 61, c1 at next level, right associativity) : thread_scope.
Notation "c1 ;; c2" := (bind c1 (fun _ => c2))
  (at level 61, right associativity) : thread_scope.
Local Open Scope thread_scope.

(** The world a computation leaves behind and how it ended. *)
Definition exec {A} (c : M A) (w : world) : world := snd (c w).
Definition outcome {A} (c : M A) (w : world) : result A := fst (c w).

(** ** Device, signals and files *)

Definition emit (e : event) : M unit :=
  modify (fun w => set_log (log w ++ [e]) w).

(** [self.p.open(format=..., channels=..., rate=..., input/output=True, ...)] *)
Definition p_open (env : environment) (input : bool) (device_index : option Z)
  : M unit :=
  emit (DeviceOpen input device_index) ;;
  match open_error env input device_index with
  | Some e => raise e
  | None => modify (fun w => set_open_streams (S (open_streams w)) w)
  end.

(** [stream.read(CHUNK, exception_on_overflow=False)] *)
Definition stream_read (env : environment) (num_frames : Z) : M (list byte) :=
  emit (StreamRead num_frames) ;;
  i <- gets reads ;;
  modify (set_reads (S i)) ;;
  match read_result env i with
  | inl e => raise e
  | inr data => ret data
  end.

(** [stream.write(data)] *)
Definition stream_write (env : environment) (data : list byte) : M unit :=
  emit (StreamWrite data) ;;
  i <- gets writes ;;
  modify (set_writes (S i)) ;;
  match write_error env i with
  | Some e => raise e
  | None => ret tt
  end.

Definition stop_stream (env : environment) : M unit :=
  emit StreamStop ;;
  match stop_error env with
  | Some e => raise e
  | None => ret tt
  end.

Definition close (env : environment) : M unit :=
  emit StreamClose ;;
  match close_error env with
  | Some e => raise e
  | None => modify (fun w => set_open_streams (pred (open_streams w)) w)
  end.

(** [np.frombuffer] inside a thread. *)
Definition np_frombuffer (data : list byte) : M (list Z) :=
  match frombuffer data with
  | Some audio_data => ret audio_data
  | None => raise "buffer size must be a multiple of element size"
  end.

(** [AudioRecorder._save_wav]: [wave.open] truncates the file, the setters
    and [writeframes(b''.join(self.frames))] followed by [close] fill it.
    When [writeframes] raises, [wf.close()] is not reached and the writer is
    closed when it is collected, which leaves [Wave.abandoned] in the file. *)
Definition _save_wav (env : environment) (filename : string) : M unit :=
  emit (WaveOpen filename "wb") ;;
  match wave_open_error env filename with
  | Some e => raise e
  | None =>
      modify (set_file filename []) ;;
      frames <- gets frames ;;
      match Wave.write CHANNELS SAMPLE_WIDTH RATE (concat frames) with
      | inl e =>
          modify (set_file filename (Wave.abandoned CHANNELS SAMPLE_WIDTH RATE)) ;;
          raise e
      | inr content => modify (set_file filename content)
      end
  end.

(** [AudioRecorder.stop_recording], run by the foreground thread. *)
Definition stop_recording (w : world) : world := set_is_recording false w.

(** The foreground thread's part in iteration [i] of the recording loop. *)
Definition foreground (env : environment) (i : nat) : M unit :=
  if stop_requested env i then modify stop_recording else ret tt.

(** ** [AudioRecorder._record_thread] *)

(** The [for _ in range(chunks_needed)] loop; [n] iterations are left and
    [i] have been started. *)
Fixpoint record_loop (env : environment) (n i : nat) : M unit :=
  match n with
  | O => ret tt
  | S n' =>
      foreground env i ;;
      recording <- gets is_recording ;;
      if negb recording then ret tt            (* break *)
      else
        data <- stream_read env CHUNK ;;
        modify (fun w => set_frames (frames w ++ [data]) w) ;;
        audio_data <- np_frombuffer data ;;
        level <- lift (compute_level audio_data) ;;
        emit (LevelUpdate level) ;;
        record_loop env n' (S i)
  end.

(** The body of the [try]. *)
Definition record_body (env : environment) (device_index duration : Z)
    (output_path : string) : M unit :=
  modify (set_is_recording true) ;;
  modify (set_frames []) ;;
  p_open env true (Some device_index) ;;
  let chunks_needed := chunks_needed duration in
  record_loop env (Py.range chunks_needed) 0 ;;
  stop_stream env ;;
  close env ;;
  _save_wav env output_path ;;
  modify (set_is_recording false) ;;
  emit (RecordingComplete true ("Saved to " ++ output_path)).

Definition _record_thread (env : environment) (device_index duration : Z)
    (output_path : string) : M unit :=
  try_except (record_body env device_index duration output_path)
    (fun e =>
       modify (set_is_recording false) ;;
       emit (RecordingComplete false ("Error: " ++ e))).

(** ** [AudioRecorder._test_record_thread]

    The same loop on the [is_testing] flag, which nothing but the thread
    itself writes. *)

Fixpoint test_record_loop (env : environment) (n : nat) : M unit :=
  match n with
  | O => ret tt
  | S n' =>
      testing <- gets is_testing ;;
      if negb testing then ret tt
      else
        data <- stream_read env CHUNK ;;
        modify (fun w => set_frames (frames w ++ [data]) w) ;;
        audio_data <- np_frombuffer data ;;
        level <- lift (compute_level audio_data) ;;
        emit (LevelUpdate level) ;;
        test_record_loop env n'
  end.

Definition _test_record_thread (env : environment) (device_index duration : Z)
    (output_path : string) : M unit :=
  try_except
    (modify (set_is_testing true) ;;
     modify (set_frames []) ;;
     p_open env true (Some device_index) ;;
     let chunks_needed := chunks_needed duration in
     test_record_loop env (Py.range chunks_needed) ;;
     stop_stream env ;;
     close env ;;
     _save_wav env output_path ;;
     modify (set_is_testing false) ;;
     emit (TestComplete true "Test recording complete"))
    (fun e =>
       modify (set_is_testing false) ;;
       emit (TestComplete false ("Test failed: " ++ e))).

(** ** Playback: [AudioRecorder.play_test] and [_play_test_thread] *)

(** [wave.open(self.test_file_path, 'rb')]; a missing file is the
    [FileNotFoundError] of the builtin [open]. *)
Definition wave_open_rb (path : option string) : M Wave.Wave_read :=
  match path with
  | None => raise "expected str, bytes or os.PathLike object, not NoneType"
  | Some filename =>
      emit (WaveOpen filename "rb") ;;
      fs <- gets files ;;
      match fs filename with
      | None => raise ("[Errno 2] No such file or directory: '" ++ filename ++ "'")
      | Some content =>
          match Wave.initfp content with
          | inl e => raise e
          | inr wf => ret wf
          end
      end
  end.

(** The [while data:] loop, entered with the block just read. *)
Equations? play_loop (env : environment) (wf : Wave.Wave_read) (data : list byte)
  : M unit by wf (length data + length (Wave.data_chunk wf))%nat lt :=
  play_loop env wf [] := ret tt;
  play_loop env wf (b :: data') :=
    stream_write env (b :: data') ;;
    play_loop env (snd (Wave.readframes CHUNK wf)) (fst (Wave.readframes CHUNK wf)).
Proof.
  unfold Wave.readframes. cbn [fst snd Wave.data_chunk length].
  rewrite length_firstn, length_skipn. lia.
Qed.

Definition _play_test_thread (env : environment) : M unit :=
  try_except
    (path <- gets test_file_path ;;
     wf <- wave_open_rb path ;;
     p_open env false None ;;
     play_loop env (snd (Wave.readframes CHUNK wf)) (fst (Wave.readframes CHUNK wf)) ;;
     stop_stream env ;;
     close env)
    (fun _ => ret tt).

(** [Path(self.test_file_path).exists()] *)
Definition path_exists (w : world) (p : string) : bool :=
  match files w p with Some _ => true | None => false end.

(** [play_test]: the value returned and, when the thread is started, the
    thread run to its end. *)
Definition play_test (env : environment) : M bool :=
  path <- gets test_file_path ;;
  w <- gets (fun w => w) ;;
  match path with
  | None => ret false
  | Some p =>
      if negb (path_exists w p) then ret false
      else _play_test_thread env ;; ret true
  end.

(** [AudioRecorder.record_test] with its thread run to the end. *)
Definition record_test (env : environment) (device_index duration : Z) : M unit :=
  let path := ".test/test_recording.wav"%string in
  modify (set_test_file_path (Some path)) ;;
  _test_record_thread env device_index duration path.

(** ** [pathlib.Path]

    The part of [pathlib] the window uses to name its output files, on a
    POSIX system: a path is a root and a list of components. *)

Module Path.

(** [s.split('/')] *)
Fixpoint split (s : string) : list string :=
  match s with
  | EmptyString => [EmptyString]
  | String c s' =>
      if Ascii.eqb c "/"%char then EmptyString :: split s'
      else
        match split s' with
        | p :: ps => String c p :: ps
        | [] => [String c EmptyString]
        end
  end.

Record PurePath := {
  root : string;
  parts : list string
}.

(** The root of a path string: ['/'] for one leading slash and for three or
    more, ['//'] for exactly two, none for a relative path. *)
Definition root_of (s : string) : string :=
  match s with
  | String c1 (String c2 (String c3 _)) =>
      if Ascii.eqb c1 "/"%char then
        if Ascii.eqb c2 "/"%char then if Ascii.eqb c3 "/"%char then "/" else "//"
        else "/"
      else ""
  | String c1 (String c2 EmptyString) =>
      if Ascii.eqb c1 "/"%char then if Ascii.eqb c2 "/"%char then "//" else "/" else ""
  | String c1 EmptyString => if Ascii.eqb c1 "/"%char then "/" else ""
  | EmptyString => ""
  end.

(** [Path(s)]: empty components and ['.'] components are dropped. *)
Definition of_string (s : string) : PurePath :=
  {| root := root_of s;
     parts := filter (fun p => negb (String.eqb p "") && negb (String.eqb p "."))
                     (split s) |}.

(** [self / other]: an absolute [other] replaces [self]. *)
Definition truediv (self : PurePath) (other : string) : PurePath :=
  let o := of_string other in
  if String.eqb (root o) "" then {| root := root self; parts := parts self ++ parts o |}
  else o.

(** [str(self)] *)
Definition str (self : PurePath) : string :=
  match parts self with
  | [] => if String.eqb (root self) "" then "." else root self
  | _ => root self ++ String.concat "/" (parts self)
  end.

End Path.

(** ** The window: [MainWindow]

    The handlers that start and end capture sessions and playback, on the
    part of the window's state they read and write.  A handler returns the
    window afterwards and the recorder threads or the timers it started. *)

Module MainWindow.

(** A thread started on the recorder, with the arguments it was given. *)
Inductive thread :=
| TestRecordThread (device_index duration : Z) (output_path : string)
| RecordThread (device_index duration : Z) (output_path : string).

(** What a [QTimer.singleShot] started by [play_test] does when it fires. *)
Inductive timer :=
| EnablePlayTest          (* [self.test_play_button.setEnabled(True)] *)
| ShowPlaybackComplete.   (* [self.status_bar.showMessage("Playback complete", 3000)] *)

Record window := {
  is_testing : bool;
  is_recording : bool;
  current_index : Z;
  device_combo_data : option Z;          (* [device_combo.currentData()] *)
  duration_spin_value : Z;
  prefix_input_text : string;
  device_combo_enabled : bool;
  test_record_button_enabled : bool;
  test_play_button_enabled : bool;
  duration_spin_enabled : bool;
  prefix_input_enabled : bool;
  index_spin_enabled : bool;
  record_ok_button_enabled : bool;
  record_ng_button_enabled : bool;
  status_bar : string
}.

Definition showMessage (message : string) (win : window) : window :=
  {| is_testing := is_testing win; is_recording := is_recording win;
     current_index := current_index win;
     device_combo_data := device_combo_data win;
     duration_spin_value := duration_spin_value win;
     prefix_input_text := prefix_input_text win;
     device_combo_enabled := device_combo_enabled win;
     test_record_button_enabled := test_record_button_enabled win;
     test_play_button_enabled := test_play_button_enabled win;
     duration_spin_enabled := duration_spin_enabled win;
     prefix_input_enabled := prefix_input_enabled win;
     index_spin_enabled := index_spin_enabled win;
     record_ok_button_enabled := record_ok_button_enabled win;
     record_ng_button_enabled := record_ng_button_enabled win;
     status_bar := message |}.

(** [set_ui_enabled(enabled)] *)
Definition set_ui_enabled (enabled : bool) (win : window) : window :=
  {| is_testing := is_testing win; is_recording := is_recording win;
     current_index := current_index win;
     device_combo_data := device_combo_data win;
     duration_spin_value := duration_spin_value win;
     prefix_input_text := prefix_input_text win;
     device_combo_enabled := enabled;
     test_record_button_enabled := enabled;
     test_play_button_enabled := test_play_button_enabled win;
     duration_spin_enabled := enabled;
     prefix_input_enabled := enabled;
     index_spin_enabled := enabled;
     record_ok_button_enabled := enabled;
     record_ng_button_enabled := enabled;
     status_bar := status_bar win |}.

(** [self.test_play_button.setEnabled(enabled)] *)
Definition set_test_play_button_enabled (enabled : bool) (win : window) : window :=
  {| is_testing := is_testing win; is_recording := is_recording win;
     current_index := current_index win;
     device_combo_data := device_combo_data win;
     duration_spin_value := duration_spin_value win;
     prefix_input_text := prefix_input_text win;
     device_combo_enabled := device_combo_enabled win;
     test_record_button_enabled := test_record_button_enabled win;
     test_play_button_enabled := enabled;
     duration_spin_enabled := duration_spin_enabled win;
     prefix_input_enabled := prefix_input_enabled win;
     index_spin_enabled := index_spin_enabled win;
     record_ok_button_enabled := record_ok_button_enabled win;
     record_ng_button_enabled := record_ng_button_enabled win;
     status_bar := status_bar win |}.

(** [f"{prefix}_{self.current_index}.wav"] with [prefix = text or "sample"] *)
Definition filename (win : window) : string :=
  let prefix := if String.eqb (prefix_input_text win) "" then "sample"%string
                else prefix_input_text win in
  (prefix ++ "_" ++ NilEmpty.string_of_int (Z.to_int (current_index win)) ++ ".wav")%string.

(** [MainWindow.record_test] *)
Definition record_test (win : window) : window * list thread :=
  if is_testing win || is_recording win then (win, [])
  else
    match device_combo_data win with
    | None => (showMessage "No device selected!" win, [])
    | Some device_index =>
        (showMessage "Recording test sample..."
           {| is_testing := true; is_recording := is_recording win;
              current_index := current_index win;
              device_combo_data := device_combo_data win;
              duration_spin_value := duration_spin_value win;
              prefix_input_text := prefix_input_text win;
              device_combo_enabled := false;
              test_record_button_enabled := false;
              test_play_button_enabled := false;
              duration_spin_enabled := duration_spin_enabled win;
              prefix_input_enabled := prefix_input_enabled win;
              index_spin_enabled := index_spin_enabled win;
              record_ok_button_enabled := record_ok_button_enabled win;
              record_ng_button_enabled := record_ng_button_enabled win;
              status_bar := status_bar win |},
         [TestRecordThread device_index 3 ".test/test_recording.wav"])
    end.

(** [MainWindow.play_test].  [available] is what [self.recorder.play_test()]
    returns: whether the recorder found its test file and started the
    playback thread.  The timers are the two [QTimer.singleShot(3000, ...)]. *)
Definition play_test (available : bool) (win : window) : window * list timer :=
  if is_testing win || is_recording win then (win, [])
  else if available then
    (showMessage "Playing test recording..." (set_test_play_button_enabled false win),
     [EnablePlayTest; ShowPlaybackComplete])
  else (showMessage "No test recording available!" win, []).

(** A single-shot timer fires. *)
Definition timeout (t : timer) (win : window) : window :=
  match t with
  | EnablePlayTest => set_test_play_button_enabled true win
  | ShowPlaybackComplete => showMessage "Playback complete" win
  end.

(** [MainWindow.start_recording(category)].  [mkdir_error] is the exception
    [output_dir.mkdir(parents=True, exist_ok=True)] raises on a directory, if
    any; it leaves the slot ([inl]) before the window is touched and before
    the recorder is called. *)
Definition start_recording (mkdir_error : string -> option string) (category : string)
    (win : window) : string + window * list thread :=
  if is_recording win then inr (win, [])
  else
    match device_combo_data win with
    | None => inr (showMessage "No device selected!" win, [])
    | Some device_index =>
        let duration := duration_spin_value win in
        let output_dir := Path.truediv (Path.of_string "output") category in
        match mkdir_error (Path.str output_dir) with
        | Some e => inl e
        | None =>
            let output_path := Path.str (Path.truediv output_dir (filename win)) in
            inr (showMessage ("Recording " ++ category ++ ": " ++ filename win)
                   (set_ui_enabled false
                      {| is_testing := is_testing win; is_recording := true;
                         current_index := current_index win;
                         device_combo_data := device_combo_data win;
                         duration_spin_value := duration_spin_value win;
                         prefix_input_text := prefix_input_text win;
                         device_combo_enabled := device_combo_enabled win;
                         test_record_button_enabled := test_record_button_enabled win;
                         test_play_button_enabled := test_play_button_enabled win;
                         duration_spin_enabled := duration_spin_enabled win;
                         prefix_input_enabled := prefix_input_enabled win;
                         index_spin_enabled := index_spin_enabled win;
                         record_ok_button_enabled := record_ok_button_enabled win;
                         record_ng_button_enabled := record_ng_button_enabled win;
                         status_bar := status_bar win |}),
                 [RecordThread device_index duration output_path])
        end
    end.

(** [MainWindow.on_test_complete(success, message)] *)
Definition on_test_complete (success : bool) (message : string) (win : window)
  : window :=
  showMessage (if success then "Test recorded! Click 'Play Test' to listen." else message)
    {| is_testing := false; is_recording := is_recording win;
       current_index := current_index win;
       device_combo_data := device_combo_data win;
       duration_spin_value := duration_spin_value win;
       prefix_input_text := prefix_input_text win;
       device_combo_enabled := true;
       test_record_button_enabled := true;
       test_play_button_enabled :=
         if success then true else test_play_button_enabled win;
       duration_spin_enabled := duration_spin_enabled win;
       prefix_input_enabled := prefix_input_enabled win;
       index_spin_enabled := index_spin_enabled win;
       record_ok_button_enabled := record_ok_button_enabled win;
       record_ng_button_enabled := record_ng_button_enabled win;
       status_bar := status_bar win |}.

(** [MainWindow.on_recording_complete(success, message)] *)
Definition on_recording_complete (success : bool) (message : string) (win : window)
  : window :=
  let win1 := set_ui_enabled true win in
  showMessage (if success then message else "Recording failed: " ++ message)
    {| is_testing := is_testing win1; is_recording := false;
       current_index := if success then current_index win1 + 1 else current_index win1;
       device_combo_data := device_combo_data win1;
       duration_spin_value := duration_spin_value win1;
       prefix_input_text := prefix_input_text win1;
       device_combo_enabled := device_combo_enabled win1;
       test_record_button_enabled := test_record_button_enabled win1;
       test_play_button_enabled := test_play_button_enabled win1;
       duration_spin_enabled := duration_spin_enabled win1;
       prefix_input_enabled := prefix_input_enabled win1;
       index_spin_enabled := index_spin_enabled win1;
       record_ok_button_enabled := record_ok_button_enabled win1;
       record_ng_button_enabled := record_ng_button_enabled win1;
       status_bar := status_bar win1 |}.

(** The window, the capture threads that were started and have not yet
    delivered their completion signal, and the single-shot timers that have
    not yet fired.  The timers all run for 3000 ms, so they fire in the order
    they were started. *)
Record system := {
  win : window;
  running : list thread;
  timers : list timer
}.

(** What can happen to the window: a click on a button (delivered only while
    the button is enabled), the completion signal of a running thread, or
    the timer that is due.  [ClickRecord] is a click on Record OK or Record
    NG with a file system on which [mkdir] goes through, [ClickRecordNoDir]
    one on which [mkdir] raises. *)
Inductive happening :=
| ClickRecordTest
| ClickPlayTest (available : bool)
| ClickRecord (category : string)
| ClickRecordNoDir (category : string) (error : string)
| TestComplete (success : bool) (message : string)
| RecordingComplete (success : bool) (message : string)
| Timeout.

Definition is_test_thread (t : thread) : bool :=
  match t with TestRecordThread _ _ _ => true | RecordThread _ _ _ => false end.

Definition is_record_thread (t : thread) : bool :=
  match t with RecordThread _ _ _ => true | TestRecordThread _ _ _ => false end.

(** Remove the first thread of the given kind. *)
Fixpoint finish_thread (kind : thread -> bool) (l : list thread) : option (list thread) :=
  match l with
  | [] => None
  | t :: l' =>
      if kind t then Some l'
      else option_map (cons t) (finish_thread kind l')
  end.

Definition click_enabled (category : string) (w : window) : bool :=
  if String.eqb category "OK" then record_ok_button_enabled w
  else record_ng_button_enabled w.

(** One happening; [None] when it cannot occur in this state, and when an
    exception leaves the slot: PyQt then aborts the application. *)
Definition step (h : happening) (s : system) : option system :=
  match h with
  | ClickRecordTest =>
      if test_record_button_enabled (win s) then
        let (w', started) := record_test (win s) in
        Some {| win := w'; running := running s ++ started; timers := timers s |}
      else None
  | ClickPlayTest available =>
      if test_play_button_enabled (win s) then
        let (w', started) := play_test available (win s) in
        Some {| win := w'; running := running s; timers := timers s ++ started |}
      else None
  | ClickRecord category =>
      if click_enabled category (win s) then
        match start_recording (fun _ => None) category (win s) with
        | inr (w', started) =>
            Some {| win := w'; running := running s ++ started; timers := timers s |}
        | inl _ => None
        end
      else None
  | ClickRecordNoDir category error =>
      if click_enabled category (win s) then
        match start_recording (fun _ => Some error) category (win s) with
        | inr (w', started) =>
            Some {| win := w'; running := running s ++ started; timers := timers s |}
        | inl _ => None
        end
      else None
  | TestComplete success message =>
      match finish_thread is_test_thread (running s) with
      | Some l =>
          Some {| win := on_test_complete success message (win s); running := l;
                  timers := timers s |}
      | None => None
      end
  | RecordingComplete success message =>
      match finish_thread is_record_thread (running s) with
      | Some l =>
          Some {| win := on_recording_complete success message (win s); running := l;
                  timers := timers s |}
      | None => None
      end
  | Timeout =>
      match timers s with
      | t :: rest =>
          Some {| win := timeout t (win s); running := running s; timers := rest |}
      | [] => None
      end
  end.

Fixpoint run (hs : list happening) (s : system) : option system :=
  match hs with
  | [] => Some s
  | h :: hs' =>
      match step h s with
      | Some s' => run hs' s'
      | None => None
      end
  end.

(** The window after [__init__] with the device of index [device_index]
    selected in the combo box. *)
Definition started (device_index : Z) : system :=
  {| win := {| is_testing := false; is_recording := false;
               current_index := 1;
               device_combo_data := Some device_index;
               duration_spin_value := 5;
               prefix_input_text := "sample";
               device_combo_enabled := true;
               test_record_button_enabled := true;
               test_play_button_enabled := false;
               duration_spin_enabled := true;
               prefix_input_enabled := true;
               index_spin_enabled := true;
               record_ok_button_enabled := true;
               record_ng_button_enabled := true;
               status_bar := "Ready" |};
     running := [];
     timers := [] |}.

(** The number of running threads of a kind. *)
Definition count (kind : thread -> bool) (l : list thread) : nat :=
  length (filter kind l).

(** Each flag of the window tells whether a thread of its kind is running. *)
Definition flags_match (s : system) : Prop :=
  count is_test_thread (running s) = (if is_testing (win s) then 1 else 0)%nat /\
  count is_record_thread (running s) = (if is_recording (win s) then 1 else 0)%nat.

End MainWindow.

(** ** Device enumeration: [get_device_list] and [MainWindow.load_devices] *)

Module Devices.

(** [p.get_device_info_by_index(i)], on the keys the program reads. *)
Record device_info := {
  info_name : string;
  maxInputChannels : Z
}.

(** An entry of the list [get_device_list] returns: the dict with the keys
    ['index'], ['name'] and ['channels']. *)
Record device := {
  index : Z;
  name : string;
  channels : Z
}.

(** [AudioRecorder.get_device_list].  [host] is the host's device table:
    [p.get_device_count()] is its length and [p.get_device_info_by_index(i)]
    its [i]-th entry. *)
Definition get_device_list (host : list device_info) : list device :=
  fold_left
    (fun devices i =>
       match nth_error host i with
       | Some info =>
           if 0 <? maxInputChannels info then
             devices ++ [{| index := Z.of_nat i;
                            name := info_name info;
                            channels := maxInputChannels info |}]
           else devices
       | None => devices
       end)
    (seq 0 (length host)) [].

(** The entries [load_devices] adds to the combo box: the text
    [f"{device['name']} ({device['channels']} ch)"] and the user data. *)
Definition combo_items (devices : list device) : list (string * Z) :=
  map (fun device =>
         ((name device ++ " (" ++
           NilEmpty.string_of_int (Z.to_int (channels device)) ++ " ch)")%string,
          index device))
      devices.

Definition set_device_combo_data (data : option Z) (win : MainWindow.window)
  : MainWindow.window :=
  {| MainWindow.is_testing := MainWindow.is_testing win;
     MainWindow.is_recording := MainWindow.is_recording win;
     MainWindow.current_index := MainWindow.current_index win;
     MainWindow.device_combo_data := data;
     MainWindow.duration_spin_value := MainWindow.duration_spin_value win;
     MainWindow.prefix_input_text := MainWindow.prefix_input_text win;
     MainWindow.device_combo_enabled := MainWindow.device_combo_enabled win;
     MainWindow.test_record_button_enabled := MainWindow.test_record_button_enabled win;
     MainWindow.test_play_button_enabled := MainWindow.test_play_button_enabled win;
     MainWindow.duration_spin_enabled := MainWindow.duration_spin_enabled win;
     MainWindow.prefix_input_enabled := MainWindow.prefix_input_enabled win;
     MainWindow.index_spin_enabled := MainWindow.index_spin_enabled win;
     MainWindow.record_ok_button_enabled := MainWindow.record_ok_button_enabled win;
     MainWindow.record_ng_button_enabled := MainWindow.record_ng_button_enabled win;
     MainWindow.status_bar := MainWindow.status_bar win |}.

(** [MainWindow.load_devices]: the window afterwards and the items of the
    combo box.  [clear()] leaves the box without a current item; the first
    item added to an empty box becomes the current one, so [currentData()]
    is the user data of the first item, or [None] when there is none. *)
Definition load_devices (host : list device_info) (win : MainWindow.window)
  : MainWindow.window * list (string * Z) :=
  let devices := get_device_list host in
  let items := combo_items devices in
  let win1 := set_device_combo_data (option_map snd (hd_error items)) win in
  (match devices with
   | [] => MainWindow.showMessage "No input devices found!" win1
   | _ :: _ => win1
   end,
   items).

End Devices.

(** ** [test_app.py], Test 6: the WAV format check *)

Module TestApp.

(** [np.zeros(chunk_size, dtype=np.int16).tobytes()] *)
Definition silent_chunk (chunk_size : Z) : list byte :=
  repeat Byte.x00 (Z.to_nat chunk_size * 2).

(** The list [frames] the test fills:
    [num_chunks = int(sample_rate / chunk_size * duration)] silent chunks. *)
Definition frames (sample_rate chunk_size duration : Z) : list (list byte) :=
  let num_chunks := Py.int (Py.truediv sample_rate chunk_size * inject_Z duration)%Q in
  repeat (silent_chunk chunk_size) (Py.range num_chunks).

(** The test from the writing of the file to its check: [inr true] is
    PASSED, [inr false] is FAILED and [inl] the exception that ends the
    script.  The script sets [duration = 1]. *)
Definition wav_format_test (duration : Z) : string + bool :=
  let sample_rate := 48000 in
  let chunk_size := 1024 in
  match Wave.write 1 2 48000 (concat (frames sample_rate chunk_size duration)) with
  | inl e => inl e
  | inr content =>
      match Wave.initfp content with
      | inl e => inl e
      | inr wf =>
          let channels := Wave.getnchannels wf in
          let width := Wave.getsampwidth wf in
          let rate := Wave.getframerate wf in
          inr ((channels =? 1) && (width =? 2) && (rate =? 48000))
      end
  end.

End TestApp.

(** * Part II: notions used in the statements *)

(** ** Concrete surroundings *)

(** A recorder fresh from [__init__], no files on disk. *)
Definition initial : world :=
  {| is_recording := false; is_testing := false; frames := [];
     test_file_path := None; files := fun _ => None;
     open_streams := 0; reads := 0; writes := 0; log := [] |}.

(** A healthy device in a silent room, nobody cancelling. *)
Definition silent : environment :=
  {| open_error := fun _ _ => None;
     read_result := fun _ => inr (repeat Byte.x00 2048);
     write_error := fun _ => None;
     stop_error := None;
     close_error := None;
     wave_open_error := fun _ => None;
     stop_requested := fun _ => false |}.

(** The silent room with [stop_recording()] called once [k] chunks are in. *)
Definition stopped_after (k : nat) : environment :=
  {| open_error := fun _ _ => None;
     read_result := fun _ => inr (repeat Byte.x00 2048);
     write_error := fun _ => None;
     stop_error := None;
     close_error := None;
     wave_open_error := fun _ => None;
     stop_requested := fun i => (k <=? i)%nat |}.

(** An unplugged microphone: the device opens, the first two reads succeed,
    every later read raises. *)
Definition unplugged : environment :=
  {| open_error := fun _ _ => None;
     read_result := fun j => if (j <? 2)%nat then inr (repeat Byte.x00 2048)
                             else inl "[Errno -9988] Stream closed"%string;
     write_error := fun _ => None;
     stop_error := None;
     close_error := None;
     wave_open_error := fun _ => None;
     stop_requested := fun _ => false |}.

(** The scratch file of the self-test loop. *)
Definition test_recording : string := ".test/test_recording.wav".

(** A recorder whose test file was recorded in an earlier session and has
    since been deleted. *)
Definition test_file_deleted : world :=
  set_test_file_path (Some test_recording) initial.

Definition eight_bit_samples : list byte := [Byte.x80; Byte.x90; Byte.x70; Byte.x80].

(** A recorder whose test file was replaced by an 8-bit, 8000 Hz WAV file
    of four samples. *)
Definition test_file_eight_bit : world :=
  set_file test_recording (Wave.header 1 1 8000 4 ++ eight_bit_samples)
    test_file_deleted.

(** ** Reading the log *)

(** The number of device reads in a log: one per iteration of a recording
    loop that gets past its flag test. *)
Definition count_reads (l : list event) : nat :=
  length (filter (fun e => match e with StreamRead _ => true | _ => false end) l).

Definition is_completion (e : event) : bool :=
  match e with
  | RecordingComplete _ _ | TestComplete _ _ => true
  | _ => false
  end.

Definition is_release (e : event) : bool :=
  match e with
  | StreamStop | StreamClose => true
  | _ => false
  end.

(** Everything but the log is as before. *)
Definition only_logged (w w' : world) (evs : list event) : Prop :=
  log w' = log w ++ evs /\
  is_recording w' = is_recording w /\
  is_testing w' = is_testing w /\
  frames w' = frames w /\
  test_file_path w' = test_file_path w /\
  files w' = files w /\
  open_streams w' = open_streams w /\
  reads w' = reads w /\
  writes w' = writes w.

(** A computation that only ever appends to the log. *)
Definition appends {A} (c : M A) : Prop :=
  forall w, exists evs, log (snd (c w)) = log w ++ evs.

(** ** The recording loop on a healthy device *)

Section LoopNotions.

Variable env : environment.

(** The bytes of the [j]-th read. *)
Definition chunk (j : nat) : list byte :=
  match read_result env j with
  | inr data => data
  | inl _ => []
  end.

(** The level the loop emits for a chunk of bytes (0 stands in where
    [np.frombuffer] or [int] raises and nothing is emitted). *)
Definition level_of (data : list byte) : Z :=
  match frombuffer data with
  | Some audio_data =>
      match compute_level audio_data with
      | inr level => level
      | inl _ => 0
      end
  | None => 0
  end.

(** The [j]-th read returns a full chunk: [CHUNK] frames of [CHANNELS]
    samples of [SAMPLE_WIDTH] bytes, as a blocking read does. *)
Definition healthy_read (j : nat) : Prop :=
  exists data, read_result env j = inr data /\
               Z.of_nat (length data) = CHUNK * SAMPLE_WIDTH * CHANNELS.

(** The world after one full iteration of the loop. *)
Definition chunk_step (w : world) : world :=
  let data := chunk (reads w) in
  set_log (log (set_log (log w ++ [StreamRead CHUNK]) w) ++ [LevelUpdate (level_of data)])
    (set_frames (frames w ++ [data])
       (set_reads (S (reads w)) (set_log (log w ++ [StreamRead CHUNK]) w))).

(** ... and after [k] of them. *)
Fixpoint after_chunks (k : nat) (w : world) : world :=
  match k with
  | O => w
  | S k' => after_chunks k' (chunk_step w)
  end.

(** What [k] iterations log, starting with read number [first]. *)
Definition loop_events (first k : nat) : list event :=
  flat_map (fun j => [StreamRead CHUNK; LevelUpdate (level_of (chunk j))]) (seq first k).

End LoopNotions.

(** ** The stages of a recording run *)

Section RunNotions.

Variable env : environment.
Variable device_index duration : Z.
Variable output_path : string.

(** After the flag and the frame list are reset and the stream is open. *)
Definition opened (w : world) : world :=
  let w1 := set_frames [] (set_is_recording true w) in
  let w2 := set_log (log w1 ++ [DeviceOpen true (Some device_index)]) w1 in
  set_open_streams (S (open_streams w2)) w2.

(** After [stop_stream()] and [close()] went through. *)
Definition released (w : world) : world :=
  let w1 := set_log (log w ++ [StreamStop]) w in
  let w2 := set_log (log w1 ++ [StreamClose]) w1 in
  set_open_streams (pred (open_streams w2)) w2.

(** After [wave.open(output_path, 'wb')] went through. *)
Definition wave_opened (w : world) : world :=
  set_file output_path [] (set_log (log w ++ [WaveOpen output_path "wb"]) w).

(** After the flag is cleared and success is signalled. *)
Definition completed (w : world) : world :=
  let w1 := set_is_recording false w in
  set_log (log w1 ++ [RecordingComplete true ("Saved to " ++ output_path)]) w1.

(** The number of chunks read before the loop ends: the first iteration, if
    any, that finds [stop_recording()] called. *)
Fixpoint chunks_captured (n i : nat) : nat :=
  match n with
  | O => O
  | S n' => if stop_requested env i then O else S (chunks_captured n' (S i))
  end.

(** The world when the loop is over: [k] chunks read, and the flag cleared by
    the foreground thread if that is what ended the loop. *)
Definition looped (w : world) : world :=
  let n := Py.range (chunks_needed duration) in
  let k := chunks_captured n 0 in
  let w1 := after_chunks env k (opened w) in
  if (k <? n)%nat then stop_recording w1 else w1.

(** ... and when the stream has been released. *)
Definition captured (w : world) : world := released (looped w).

(** The part of the body after the loop. *)
Definition finish : M unit :=
  stop_stream env ;;
  close env ;;
  _save_wav env output_path ;;
  modify (set_is_recording false) ;;
  emit (RecordingComplete true ("Saved to " ++ output_path)).

End RunNotions.

(** ** The specification's own words *)

(** The iteration count in the specification's words:
    ceil(duration_seconds * sample_rate / chunk_frame_count). *)
Definition spec_iterations (duration : Z) : Z :=
  Qceiling (inject_Z duration * inject_Z RATE / inject_Z CHUNK)%Q.

(** The chunk's RMS amplitude, a real number: the square root of the mean of
    the squares (0 for the empty chunk). *)
Definition rms (audio_data : list Z) : R :=
  sqrt (IZR (sum_squares audio_data) / IZR (Z.of_nat (length audio_data))).

(** [wf.readframes(wf.getnframes())] *)
Definition read_all (wf : Wave.Wave_read) : list byte :=
  fst (Wave.readframes (Wave.getnframes wf) wf).

(** A chunk of PCM data in the recorder's format: whole frames. *)
Definition whole_frames (data : list byte) : Prop :=
  Z.of_nat (length data) mod (CHANNELS * SAMPLE_WIDTH) = 0.

(** ** What a run may do to its surroundings *)

(** [c] takes every world to one that [R] relates to it, however it ends. *)
Definition preserves {A} (R : world -> world -> Prop) (c : M A) : Prop :=
  forall w, R w (snd (c w)).

(** The log grows, by events that all pass [allowed]. *)
Definition logs (allowed : event -> bool) (w w' : world) : Prop :=
  exists evs, log w' = log w ++ evs /\ forallb allowed evs = true.

(** The file at [p] is as it was. *)
Definition keeps_file (p : string) (w w' : world) : Prop :=
  files w' p = files w p.

(** The recorder's fields, the files and the input side of the device are
    as they were. *)
Definition same_recorder (w w' : world) : Prop :=
  is_recording w' = is_recording w /\
  is_testing w' = is_testing w /\
  frames w' = frames w /\
  test_file_path w' = test_file_path w /\
  files w' = files w /\
  reads w' = reads w.

Definition level_in_range (level : Z) : bool := (0 <=? level) && (level <=? 100).

(** What a capture run does before it signals its completion: calls on the
    input stream of [device_index], level updates within the meter's range
    and [wave.open(output_path, 'wb')]. *)
Definition capture_event (device_index : Z) (output_path : string) (e : event) : bool :=
  match e with
  | DeviceOpen input (Some d) => input && (d =? device_index)
  | DeviceOpen _ None => false
  | StreamRead num_frames => num_frames =? CHUNK
  | LevelUpdate level => level_in_range level
  | StreamStop | StreamClose => true
  | WaveOpen filename mode => String.eqb filename output_path && String.eqb mode "wb"
  | StreamWrite _ | RecordingComplete _ _ | TestComplete _ _ => false
  end.

(** The events of a dataset recording run. *)
Definition record_event (device_index : Z) (output_path : string) (e : event) : bool :=
  match e with
  | RecordingComplete _ _ => true
  | _ => capture_event device_index output_path e
  end.

(** The events of a playback run. *)
Definition playback_event (e : event) : bool :=
  match e with
  | WaveOpen _ mode => String.eqb mode "rb"
  | DeviceOpen false None => true
  | StreamWrite _ | StreamStop | StreamClose => true
  | _ => false
  end.

(** A computation that logs [allowed] events and, when it returns, has
    logged [final] last and left a world in [Q]. *)
Definition finishes (allowed : event -> bool) (final : event) (Q : world -> Prop)
    (c : M unit) : Prop :=
  forall w,
    match c w with
    | (Return _, w') =>
        (exists evs, log w' = log w ++ evs ++ [final] /\ forallb allowed evs = true) /\
        Q w'
    | (Raise _, w') => logs allowed w w'
    end.

(** The body of the [try] of [_test_record_thread]. *)
Definition test_record_body (env : environment) (device_index duration : Z)
    (output_path : string) : M unit :=
  modify (set_is_testing true) ;;
  modify (set_frames []) ;;
  p_open env true (Some device_index) ;;
  let chunks_needed := chunks_needed duration in
  test_record_loop env (Py.range chunks_needed) ;;
  stop_stream env ;;
  close env ;;
  _save_wav env output_path ;;
  modify (set_is_testing false) ;;
  emit (TestComplete true "Test recording complete").

(** The world after a test recording on a healthy device got [k] chunks. *)
Definition test_captured (env : environment) (device_index : Z) (k : nat)
    (w : world) : world :=
  let w1 := set_frames [] (set_is_testing true w) in
  let w2 := set_log (log w1 ++ [DeviceOpen true (Some device_index)]) w1 in
  released (after_chunks env k (set_open_streams (S (open_streams w2)) w2)).

(** The values of an [np.int16]. *)
Definition in_int16 (x : Z) : Prop := -32768 <= x <= 32767.

(** ** Device enumeration *)

(** What the loop of [get_device_list] appends for the device of index [i]:
    its entry when it has input channels, nothing otherwise. *)
Definition device_entry (host : list Devices.device_info) (i : nat)
  : list Devices.device :=
  match nth_error host i with
  | Some info =>
      if 0 <? Devices.maxInputChannels info then
        [{| Devices.index := Z.of_nat i;
            Devices.name := Devices.info_name info;
            Devices.channels := Devices.maxInputChannels info |}]
      else []
  | None => []
  end.

(** ** The window's controls *)

(** The controls that only [set_ui_enabled] switches are enabled exactly
    while no dataset recording runs. *)
Definition controls_follow_flags (win : MainWindow.window) : Prop :=
  MainWindow.record_ok_button_enabled win = negb (MainWindow.is_recording win) /\
  MainWindow.record_ng_button_enabled win = negb (MainWindow.is_recording win) /\
  MainWindow.duration_spin_enabled win = negb (MainWindow.is_recording win) /\
  MainWindow.prefix_input_enabled win = negb (MainWindow.is_recording win) /\
  MainWindow.index_spin_enabled win = negb (MainWindow.is_recording win).

(** A path component that [pathlib] keeps as it is: not empty, not ['.'],
    no slash in it. *)
Fixpoint no_slash (s : string) : bool :=
  match s with
  | EmptyString => true
  | String c s' => negb (Ascii.eqb c "/"%char) && no_slash s'
  end.

Definition plain (s : string) : Prop :=
  s <> ""%string /\ s <> "."%string /\ no_slash s = true.

(** ** Binary64 numbers as real numbers

    What the statements about the level need of IEEE arithmetic, over
    [SpecFloat], the specification of the primitive operations. *)

Module Binary64.

Import SpecFloat.

Abbreviation prec := FloatOps.prec.
Abbreviation emax := FloatOps.emax.

Definition pow2 (e : Z) : R := powerRZ 2 e.

(** The number of binary digits of a mantissa. *)
Definition digits (m : Z) : Z := SpecFloat.Zdigits2 m.

(** The real number [x] lies where the location [l] says, between the
    integers [m] and [m + 1]. *)
Definition inb (m : Z) (l : location) (x : R) : Prop :=
  match l with
  | loc_Exact => x = IZR m
  | loc_Inexact Lt => (IZR m < x < IZR m + / 2)%R
  | loc_Inexact Eq => x = (IZR m + / 2)%R
  | loc_Inexact Gt => (IZR m + / 2 < x < IZR m + 1)%R
  end.

(** The value of a finite number. *)
Definition B2R (f : spec_float) : R :=
  match f with
  | S754_finite s m e => ((if s then -1 else 1) * IZR (Z.pos m) * pow2 e)%R
  | _ => 0%R
  end.

(** [f] is the positive real [xi] rounded to nearest, ties to even, and is a
    normal number: [xi] lies at [l'] above [m' * 2^E] with 53 digits in
    [m'], and [f] is [m'] or its successor on that grid. *)
Definition rounded (xi : R) (f : spec_float) : Prop :=
  exists E m' l' M E',
    f = S754_finite false M E' /\
    digits (Z.pos M) = 53 /\
    -1074 <= E <= 970 /\
    (E' = E \/ E' = E + 1) /\
    2 ^ 52 <= m' < 2 ^ 53 /\
    inb m' l' (xi / pow2 E) /\
    (IZR (Z.pos M) * pow2 E' = IZR (round_nearest_even m' l') * pow2 E)%R.

(** Normal positive numbers. *)
Definition normal (f : spec_float) : Prop :=
  exists M e, f = S754_finite false M e /\ digits (Z.pos M) = 53.

(** ... between [2^J] and [2^K]. *)
Definition normal_in (J K : Z) (f : spec_float) : Prop :=
  exists M e, f = S754_finite false M e /\ digits (Z.pos M) = 53 /\
              (pow2 J <= B2R f <= pow2 K)%R.

(** A number that is not below zero: a zero of either sign, a positive
    number, the positive infinity or NaN. *)
Definition not_negative (f : spec_float) : bool :=
  match f with
  | S754_finite true _ _ | S754_infinity true => false
  | _ => true
  end.

(** ... and one whose sign bit is clear, or NaN. *)
Definition sign_clear (f : spec_float) : bool :=
  match f with
  | S754_zero s | S754_infinity s | S754_finite s _ _ => negb s
  | S754_nan => true
  end.

(** The number handed to [int] in the level block, from the sum of squares
    and the number of samples. *)
Definition percent (sq n : Z) : PrimFloat.float :=
  PrimFloat.mul
    (PrimFloat.div (PrimFloat.sqrt (PrimFloat.div (Float64.of_Z sq) (Float64.of_Z n)))
                   (Float64.of_Z 32768))
    (Float64.of_Z 100).

End Binary64.

(** * Part III: supporting lemmas *)

(** ** Chunk count *)

Lemma chunks_needed_quot (duration : Z) :
  chunks_needed duration = Z.quot (RATE * duration) CHUNK.
Proof.
  unfold chunks_needed, Py.truediv, Py.int, Qdiv, Qinv, Qmult, inject_Z.
  cbn [Qnum Qden]. unfold RATE, CHUNK. cbn [Pos.mul Z.mul].
  f_equal; lia.
Qed.

Lemma chunks_needed_floor (duration : Z) :
  0 <= duration -> chunks_needed duration = RATE * duration / CHUNK.
Proof.
  intros H. rewrite chunks_needed_quot.
  apply Z.quot_div_nonneg; unfold RATE, CHUNK; lia.
Qed.

Lemma chunks_needed_nonpos (duration : Z) :
  duration <= 0 -> Py.range (chunks_needed duration) = 0%nat.
Proof.
  intros H. rewrite chunks_needed_quot. unfold Py.range.
  assert (Hq : Z.quot (RATE * duration) CHUNK <= 0).
  { apply Z.quot_le_upper_bound; unfold RATE, CHUNK; lia. }
  lia.
Qed.

Lemma spec_iterations_ceiling (duration : Z) :
  spec_iterations duration = - ((- (duration * RATE)) / CHUNK).
Proof.
  unfold spec_iterations, Qceiling, Qfloor, Qopp, Qdiv, Qinv, Qmult, inject_Z.
  cbn [Qnum Qden]. unfold CHUNK. cbn [Qnum Qden Pos.mul].
  rewrite !Z.mul_1_r. reflexivity.
Qed.

(** ** Level meter *)

Section LevelFacts.

Lemma sum_squares_nonneg (l : list Z) : 0 <= sum_squares l.
Proof. induction l as [|x l IH]; simpl; nia. Qed.

Lemma sum_squares_zeros (n : nat) : sum_squares (repeat 0 n) = 0.
Proof. induction n as [|n IH]; simpl; lia. Qed.

Lemma frombuffer_silence (n : nat) :
  frombuffer (repeat Byte.x00 (2 * n)) = Some (repeat 0 n).
Proof.
  induction n as [|n IH]; [reflexivity|].
  replace (2 * S n)%nat with (S (S (2 * n))) by lia.
  cbn [repeat]. cbn [frombuffer]. rewrite IH. reflexivity.
Qed.

Lemma frombuffer_even (data : list byte) (k : nat) :
  length data = (2 * k)%nat -> exists audio_data, frombuffer data = Some audio_data.
Proof.
  revert data. induction k as [|k IH]; intros data H.
  - destruct data; [eexists; reflexivity | discriminate].
  - destruct data as [|lo [|hi rest]]; simpl in H; try lia.
    destruct (IH rest) as [a Ha]; [lia|].
    exists (int16 lo hi :: a). cbn [frombuffer]. rewrite Ha. reflexivity.
Qed.

End LevelFacts.

(** ** Samples *)

Lemma list_pairs_ind {A} (P : list A -> Prop) :
  P [] -> (forall x, P [x]) -> (forall x y l, P l -> P (x :: y :: l)) ->
  forall l, P l.
Proof.
  intros H0 H1 H2 l.
  assert (G : P l /\ forall x, P (x :: l)).
  { induction l as [|a l [IH1 IH2]].
    - split; [exact H0 | exact H1].
    - split; [apply IH2 | intros x; apply H2, IH1]. }
  apply G.
Qed.

Lemma int16_range (lo hi : byte) : in_int16 (int16 lo hi).
Proof.
  unfold int16, in_int16. cbv zeta.
  pose proof (le_combine_bound [lo; hi]) as B. cbn [length] in B.
  change (2 ^ (8 * Z.of_nat 2)) with 65536 in B.
  destruct (le_combine [lo; hi] <? 32768) eqn:E;
    [apply Z.ltb_lt in E | apply Z.ltb_ge in E]; lia.
Qed.

Lemma frombuffer_samples (data : list byte) : forall samples,
  frombuffer data = Some samples ->
  length data = (2 * length samples)%nat /\ Forall in_int16 samples.
Proof.
  induction data as [|x|lo hi rest IH] using list_pairs_ind; intros samples.
  - intros [= <-]. split; [reflexivity | constructor].
  - discriminate.
  - cbn [frombuffer]. destruct (frombuffer rest) as [s|]; [|discriminate].
    intros [= <-]. destruct (IH s eq_refl) as [L F]. split.
    + cbn [length]. lia.
    + constructor; [apply int16_range | exact F].
Qed.

Lemma frombuffer_odd (data : list byte) :
  frombuffer data = None <-> Nat.odd (length data) = true.
Proof.
  induction data as [|x|lo hi rest IH] using list_pairs_ind.
  - split; discriminate.
  - split; reflexivity.
  - cbn [frombuffer length]. change (Nat.odd (S (S (length rest)))) with (Nat.odd (length rest)).
    rewrite <- IH. destruct (frombuffer rest); split; cbn; congruence.
Qed.

Lemma sum_squares_int16 (l : list Z) :
  Forall in_int16 l ->
  sum_squares l <= 2 ^ 30 * Z.of_nat (length l) /\
  (sum_squares l = 2 ^ 30 * Z.of_nat (length l) -> Forall (eq (-32768)) l).
Proof.
  induction 1 as [|x l Hx _ [IH1 IH2]].
  - split; [cbn; lia | constructor].
  - cbn [sum_squares fold_right length]. fold (sum_squares l).
    rewrite Nat2Z.inj_succ. unfold in_int16 in Hx.
    assert (Hsq : x * x <= 2 ^ 30) by nia.
    split; [lia|]. intros E.
    assert (Ex : x * x = 2 ^ 30) by lia.
    constructor.
    + destruct (Z.eq_dec x (-32768)) as [->|N]; [reflexivity|].
      exfalso. assert (x * x <= 32767 * 32767) by nia. lia.
    + apply IH2. lia.
Qed.

Lemma sum_squares_full_scale (l : list Z) :
  Forall (eq (-32768)) l -> sum_squares l = 2 ^ 30 * Z.of_nat (length l).
Proof.
  induction 1 as [|x l <- _ IH]; [reflexivity|].
  cbn [sum_squares fold_right length]. fold (sum_squares l).
  rewrite Nat2Z.inj_succ, IH. lia.
Qed.

(** A sample other than -32768 has a square of 32767^2 at most. *)
Lemma sum_squares_below_full_scale (l : list Z) :
  Forall in_int16 l -> ~ Forall (eq (-32768)) l ->
  sum_squares l <= 2 ^ 30 * Z.of_nat (length l) - 65535.
Proof.
  induction 1 as [|x l Hx Hl IH]; intros N.
  - exfalso. apply N. constructor.
  - cbn [sum_squares fold_right length]. fold (sum_squares l).
    rewrite Nat2Z.inj_succ. unfold in_int16 in Hx.
    destruct (Z.eq_dec x (-32768)) as [->|Ne].
    + assert (sum_squares l <= 2 ^ 30 * Z.of_nat (length l) - 65535).
      { apply IH. intros F. apply N. constructor; [reflexivity | exact F]. }
      lia.
    + pose proof (proj1 (sum_squares_int16 l Hl)).
      assert (x * x <= 32767 * 32767) by nia. lia.
Qed.

(** ** Binary64 arithmetic

    Rounding to nearest on normal numbers, from the definitions of
    [SpecFloat]: it is monotone, exact on the numbers binary64 holds, and it
    is what division, square root and multiplication do. *)

Module Binary64Facts.

Import SpecFloat.
Import Binary64.

Lemma pow2_pos (e : Z) : (0 < pow2 e)%R.
Proof. apply powerRZ_lt. lra. Qed.

Lemma pow2_add (a b : Z) : pow2 (a + b) = (pow2 a * pow2 b)%R.
Proof. apply powerRZ_add. lra. Qed.

Lemma pow2_0 : pow2 0 = 1%R.
Proof. reflexivity. Qed.

Lemma pow2_1 : pow2 1 = 2%R.
Proof. exact (powerRZ_1 2). Qed.

Lemma pow2_opp (a : Z) : pow2 (- a) = (/ pow2 a)%R.
Proof. apply powerRZ_neg'. Qed.

Lemma pow2_succ (a : Z) : pow2 (a + 1) = (2 * pow2 a)%R.
Proof. rewrite pow2_add, pow2_1. lra. Qed.

Lemma pow2_IZR (z : Z) : 0 <= z -> pow2 z = IZR (2 ^ z).
Proof.
  intros H. pattern z. apply natlike_ind; [reflexivity | | exact H].
  intros x Hx IH. unfold Z.succ. rewrite pow2_succ, IH.
  rewrite Z.pow_add_r, mult_IZR by lia. change (2 ^ 1) with 2. lra.
Qed.

Lemma pow2_ge_1 (z : Z) : 0 <= z -> (1 <= pow2 z)%R.
Proof.
  intros H. rewrite pow2_IZR by exact H. apply IZR_le.
  pose proof (Z.pow_pos_nonneg 2 z ltac:(lia) H). lia.
Qed.

Lemma pow2_le (a b : Z) : a <= b -> (pow2 a <= pow2 b)%R.
Proof.
  intros H. replace b with (a + (b - a)) by lia. rewrite pow2_add.
  pose proof (pow2_pos a). pose proof (pow2_ge_1 (b - a) ltac:(lia)). nra.
Qed.

Lemma pow2_lt (a b : Z) : a < b -> (pow2 a < pow2 b)%R.
Proof.
  intros H. replace b with (a + 1 + (b - a - 1)) by lia.
  rewrite pow2_add, pow2_succ.
  pose proof (pow2_pos a). pose proof (pow2_ge_1 (b - a - 1) ltac:(lia)). nra.
Qed.

Lemma pow2_lt_inv (a b : Z) : (pow2 a < pow2 b)%R -> a < b.
Proof.
  intros H. destruct (Z_lt_le_dec a b) as [L|L]; [exact L|].
  pose proof (pow2_le b a L). lra.
Qed.

(** digits *)
Lemma digits2_pos_size (p : positive) : SpecFloat.digits2_pos p = Pos.size p.
Proof. induction p; cbn; congruence. Qed.

Lemma digits_pos_bounds (p : positive) :
  2 ^ (digits (Zpos p) - 1) <= Zpos p < 2 ^ digits (Zpos p).
Proof.
  unfold digits. cbn [SpecFloat.Zdigits2]. rewrite digits2_pos_size.
  pose proof (Pos.size_gt p) as G. pose proof (Pos.size_le p) as L.
  apply Pos2Z.pos_lt_pos in G. apply Pos2Z.pos_le_pos in L.
  rewrite Pos2Z.inj_pow in G, L. change (Z.pos p~0) with (2 * Z.pos p) in L.
  split; [|exact G].
  replace (Z.pos (Pos.size p)) with (Z.pos (Pos.size p) - 1 + 1) in L by lia.
  rewrite Z.pow_add_r in L by lia. change (2 ^ 1) with 2 in L. lia.
Qed.

Lemma digits_bounds (m : Z) : 0 < m -> 2 ^ (digits m - 1) <= m < 2 ^ digits m.
Proof. destruct m; try lia. intros _. apply digits_pos_bounds. Qed.

Lemma digits_ge_1 (m : Z) : 0 < m -> 1 <= digits m.
Proof. destruct m; try lia. intros _. unfold digits. cbn. lia. Qed.

Lemma digits_unique (m d : Z) : 2 ^ (d - 1) <= m < 2 ^ d -> 0 < m -> digits m = d.
Proof.
  intros [L U] Hm. pose proof (digits_bounds m Hm) as [L' U'].
  pose proof (digits_ge_1 m Hm).
  assert (0 < d).
  { destruct (Z_lt_le_dec 0 d); [assumption|].
    assert (2 ^ d <= 1).
    { destruct (Z.eq_dec d 0) as [->|]; [cbn; lia|]. rewrite Z.pow_neg_r by lia. lia. }
    lia. }
  destruct (Z.lt_trichotomy (digits m) d) as [C|[C|C]]; [|exact C|].
  - assert (2 ^ digits m <= 2 ^ (d - 1)) by (apply Z.pow_le_mono_r; lia). lia.
  - assert (2 ^ d <= 2 ^ (digits m - 1)) by (apply Z.pow_le_mono_r; lia). lia.
Qed.

Lemma inb_bounds (m : Z) (l : location) (x : R) :
  inb m l x -> (IZR m <= x < IZR m + 1)%R.
Proof. destruct l as [|[]]; cbn; lra. Qed.

Lemma record_of_loc_of (mrs : shr_record) :
  shr_record_of_loc (shr_m mrs) (loc_of_shr_record mrs) = mrs.
Proof. destruct mrs as [m [] []]; reflexivity. Qed.

Lemma loc_of_record_of (m : Z) (l : location) :
  loc_of_shr_record (shr_record_of_loc m l) = l /\ shr_m (shr_record_of_loc m l) = m.
Proof. destruct l as [|[]]; split; reflexivity. Qed.

Lemma shr_1_inb (mrs : shr_record) (x : R) :
  0 <= shr_m mrs ->
  inb (shr_m mrs) (loc_of_shr_record mrs) x ->
  inb (shr_m (shr_1 mrs)) (loc_of_shr_record (shr_1 mrs)) (x / 2) /\
  shr_m (shr_1 mrs) = shr_m mrs / 2.
Proof.
  destruct mrs as [m r s]. cbn [shr_m]. intros Hm H.
  destruct m as [|p|p]; [| |lia].
  - destruct r, s; cbn in *; split; try reflexivity; lra.
  - destruct p as [p|p|].
    + assert (E : IZR (Z.pos p~1) = (2 * IZR (Z.pos p) + 1)%R).
      { rewrite Pos2Z.inj_xI, plus_IZR, mult_IZR. reflexivity. }
      assert (D : Z.pos p~1 / 2 = Z.pos p).
      { rewrite Pos2Z.inj_xI. symmetry. apply (Z.div_unique _ 2 _ 1); lia. }
      destruct r, s; cbn in H |- *; rewrite ?E in H; split; try (symmetry; exact D); lra.
    + assert (E : IZR (Z.pos p~0) = (2 * IZR (Z.pos p))%R).
      { rewrite Pos2Z.inj_xO, mult_IZR. reflexivity. }
      assert (D : Z.pos p~0 / 2 = Z.pos p).
      { rewrite Pos2Z.inj_xO. symmetry. apply (Z.div_unique _ 2 _ 0); lia. }
      destruct r, s; cbn in H |- *; rewrite ?E in H; split; try (symmetry; exact D); lra.
    + destruct r, s; cbn in *; split; try reflexivity; lra.
Qed.

Lemma iter_shr_1_inb (p : positive) : forall (mrs : shr_record) (x : R),
  0 <= shr_m mrs ->
  inb (shr_m mrs) (loc_of_shr_record mrs) x ->
  inb (shr_m (iter_pos shr_1 p mrs)) (loc_of_shr_record (iter_pos shr_1 p mrs))
      (x / pow2 (Z.pos p)) /\
  shr_m (iter_pos shr_1 p mrs) = shr_m mrs / 2 ^ Z.pos p.
Proof.
  induction p as [p IH|p IH|]; intros mrs x Hm H; cbn [iter_pos].
  - destruct (shr_1_inb mrs x Hm H) as [H1 D1].
    assert (Hm1 : 0 <= shr_m (shr_1 mrs)) by (rewrite D1; apply Z.div_pos; lia).
    destruct (IH _ _ Hm1 H1) as [H2 D2].
    assert (Hm2 : 0 <= shr_m (iter_pos shr_1 p (shr_1 mrs)))
      by (rewrite D2; apply Z.div_pos; lia).
    destruct (IH _ _ Hm2 H2) as [H3 D3].
    split.
    + replace (x / pow2 (Z.pos p~1))%R with (x / 2 / pow2 (Z.pos p) / pow2 (Z.pos p))%R;
        [exact H3|].
      change (Z.pos p~1) with (2 * Z.pos p + 1). replace (2 * Z.pos p + 1) with (Z.pos p + Z.pos p + 1) by lia.
      rewrite pow2_succ, pow2_add. pose proof (pow2_pos (Z.pos p)). field. lra.
    + rewrite D3, D2, D1. rewrite !Z.div_div by lia.
      f_equal. change (Z.pos p~1) with (2 * Z.pos p + 1).
      replace (2 * Z.pos p + 1) with (1 + Z.pos p + Z.pos p) by lia.
      rewrite !Z.pow_add_r by lia. change (2 ^ 1) with 2. lia.
  - destruct (IH _ _ Hm H) as [H2 D2].
    assert (Hm2 : 0 <= shr_m (iter_pos shr_1 p mrs))
      by (rewrite D2; apply Z.div_pos; lia).
    destruct (IH _ _ Hm2 H2) as [H3 D3].
    split.
    + replace (x / pow2 (Z.pos p~0))%R with (x / pow2 (Z.pos p) / pow2 (Z.pos p))%R;
        [exact H3|].
      change (Z.pos p~0) with (2 * Z.pos p). replace (2 * Z.pos p) with (Z.pos p + Z.pos p) by lia.
      rewrite pow2_add. pose proof (pow2_pos (Z.pos p)). field. lra.
    + rewrite D3, D2. rewrite !Z.div_div by lia.
      f_equal. change (Z.pos p~0) with (2 * Z.pos p).
      replace (2 * Z.pos p) with (Z.pos p + Z.pos p) by lia.
      rewrite !Z.pow_add_r by lia. lia.
  - destruct (shr_1_inb mrs x Hm H) as [H1 D1]. split.
    + rewrite pow2_1. exact H1.
    + rewrite D1. reflexivity.
Qed.

Lemma fexp_normal (k : Z) : -1021 <= k -> fexp prec emax k = k - 53.
Proof. intros H. unfold fexp, emin, prec, emax. lia. Qed.

Lemma round_nearest_even_cases (m : Z) (l : location) :
  round_nearest_even m l = m \/ round_nearest_even m l = m + 1.
Proof. destruct l as [|[]]; cbn; auto. destruct (Z.even m); auto. Qed.

Lemma shr_fexp_inb (m e : Z) (l : location) (xi : R) :
  0 < m ->
  inb m l (xi / pow2 e) ->
  e <= fexp prec emax (digits m + e) ->
  exists mrs,
    shr_fexp prec emax m e l = (mrs, fexp prec emax (digits m + e)) /\
    inb (shr_m mrs) (loc_of_shr_record mrs) (xi / pow2 (fexp prec emax (digits m + e))) /\
    shr_m mrs = m / 2 ^ (fexp prec emax (digits m + e) - e).
Proof.
  intros Hm H Hle. unfold shr_fexp. fold (digits m).
  set (E := fexp prec emax (digits m + e)) in *.
  destruct (loc_of_record_of m l) as [Hl Hs].
  unfold shr. destruct (E - e) as [|p|p] eqn:En; [| |lia].
  - exists (shr_record_of_loc m l). assert (E = e) by lia.
    rewrite Hl, Hs. replace E with e by lia. split; [reflexivity|].
    split; [exact H|]. cbn. rewrite Z.div_1_r. reflexivity.
  - exists (iter_pos shr_1 p (shr_record_of_loc m l)).
    destruct (iter_shr_1_inb p (shr_record_of_loc m l) (xi / pow2 e)) as [H1 D1].
    { rewrite Hs. lia. }
    { rewrite Hl, Hs. exact H. }
    split; [f_equal; lia|]. split.
    + replace E with (e + Z.pos p) by lia. rewrite pow2_add.
      replace (xi / (pow2 e * pow2 (Z.pos p)))%R with (xi / pow2 e / pow2 (Z.pos p))%R;
        [exact H1|].
      pose proof (pow2_pos e). pose proof (pow2_pos (Z.pos p)). field. lra.
    + rewrite D1, Hs. reflexivity.
Qed.

Lemma div_pow2_digits (m d n : Z) :
  2 ^ (d - 1) <= m < 2 ^ d -> 0 <= n -> n = d - 53 ->
  2 ^ 52 <= m / 2 ^ n < 2 ^ 53.
Proof.
  intros [L U] Hn E.
  assert (P : 0 < 2 ^ n) by (apply Z.pow_pos_nonneg; lia).
  assert (E1 : 2 ^ (d - 1) = 2 ^ 52 * 2 ^ n).
  { rewrite <- Z.pow_add_r by lia. f_equal. lia. }
  assert (E2 : 2 ^ d = 2 ^ 53 * 2 ^ n).
  { rewrite <- Z.pow_add_r by lia. f_equal. lia. }
  split.
  - apply Z.div_le_lower_bound; [exact P|]. lia.
  - apply Z.div_lt_upper_bound; [exact P|]. lia.
Qed.

Lemma round_aux_rounded (m e : Z) (l : location) (xi : R) :
  0 < m ->
  inb m l (xi / pow2 e) ->
  53 <= digits m ->
  -1074 <= digits m + e - 53 <= 970 ->
  rounded xi (binary_round_aux prec emax false m e l).
Proof.
  intros Hm H Hd Hr.
  assert (HE : fexp prec emax (digits m + e) = digits m + e - 53)
    by (apply fexp_normal; lia).
  destruct (shr_fexp_inb m e l xi Hm H) as (mrs & S1 & I1 & D1); [lia|].
  rewrite HE in S1, I1, D1.
  set (E := digits m + e - 53) in *.
  unfold binary_round_aux. rewrite S1.
  set (m' := shr_m mrs) in *. set (l' := loc_of_shr_record mrs) in *.
  assert (Hm' : 2 ^ 52 <= m' < 2 ^ 53).
  { rewrite D1. apply (div_pow2_digits m (digits m)); [apply digits_bounds; exact Hm| |];
      unfold E; lia. }
  set (N := round_nearest_even m' l').
  assert (HN : N = m' \/ N = m' + 1) by apply round_nearest_even_cases.
  assert (C : N < 2 ^ 53 \/ N = 2 ^ 53) by lia.
  destruct C as [C|C].
  - assert (DN : digits N = 53) by (apply digits_unique; change (2 ^ (53 - 1)) with (2 ^ 52); lia).
    unfold shr_fexp. fold (digits N). rewrite DN.
    rewrite fexp_normal by lia.
    replace (53 + E - 53 - E) with 0 by lia. cbn [shr shr_record_of_loc shr_m].
    destruct N as [|M|M] eqn:EN; try lia.
    replace (E <=? emax - prec) with true by (symmetry; apply Z.leb_le; unfold emax, prec; lia).
    exists E, m', l', M, E. fold N. rewrite EN.
    repeat split; try assumption; try lia.
  - assert (DN : digits N = 54) by (rewrite C; reflexivity).
    unfold shr_fexp. fold (digits N). rewrite DN.
    rewrite fexp_normal by lia.
    replace (54 + E - 53 - E) with 1 by lia. rewrite C.
    cbn [shr shr_record_of_loc iter_pos shr_1 shr_m].
    replace ((E + 1) <=? emax - prec) with true
      by (symmetry; apply Z.leb_le; unfold emax, prec; lia).
    exists E, m', l'. eexists. exists (E + 1). fold N. rewrite C.
    repeat split; try assumption; try lia; try reflexivity.
    rewrite pow2_succ.
    change (IZR (2 ^ 53)) with (IZR (2 * 4503599627370496)).
    match goal with |- (IZR (Z.pos ?p) * _ = _)%R =>
      change (Z.pos p) with 4503599627370496 end.
    rewrite mult_IZR. lra.
Qed.

(** Properties of [rounded]. *)

Lemma pow2_52 : pow2 52 = IZR (2 ^ 52).
Proof. apply pow2_IZR. lia. Qed.

Lemma pow2_53 : pow2 53 = IZR (2 ^ 53).
Proof. apply pow2_IZR. lia. Qed.

Lemma round_nearest_even_mono (m1 m2 : Z) (l1 l2 : location) (x1 x2 : R) :
  inb m1 l1 x1 -> inb m2 l2 x2 -> (x1 <= x2)%R ->
  round_nearest_even m1 l1 <= round_nearest_even m2 l2.
Proof.
  intros H1 H2 Hx.
  pose proof (inb_bounds _ _ _ H1) as B1. pose proof (inb_bounds _ _ _ H2) as B2.
  destruct (Z.lt_trichotomy m1 m2) as [C|[C|C]].
  - destruct (round_nearest_even_cases m1 l1), (round_nearest_even_cases m2 l2); lia.
  - subst m2.
    destruct l1 as [|[]], l2 as [|[]]; cbn in *; try lia; try lra;
      destruct (Z.even m1); lia.
  - exfalso. assert (IZR m2 + 1 <= IZR m1)%R.
    { rewrite <- plus_IZR. apply IZR_le. lia. }
    lra.
Qed.

Lemma rounded_value (xi : R) (f : spec_float) :
  rounded xi f ->
  exists E m' l',
    -1074 <= E <= 970 /\ 2 ^ 52 <= m' < 2 ^ 53 /\ inb m' l' (xi / pow2 E) /\
    B2R f = (IZR (round_nearest_even m' l') * pow2 E)%R.
Proof.
  intros (E & m' & l' & M & E' & -> & D & HE & HE' & Hm & I & V).
  exists E, m', l'. repeat split; try assumption; try lia.
  cbn [B2R]. rewrite <- V. lra.
Qed.

Lemma rounded_mono (x1 x2 : R) (f1 f2 : spec_float) :
  rounded x1 f1 -> rounded x2 f2 -> (x1 <= x2)%R -> (B2R f1 <= B2R f2)%R.
Proof.
  intros R1 R2 Hx.
  destruct (rounded_value _ _ R1) as (E1 & m1 & l1 & HE1 & Hm1 & I1 & V1).
  destruct (rounded_value _ _ R2) as (E2 & m2 & l2 & HE2 & Hm2 & I2 & V2).
  rewrite V1, V2.
  pose proof (inb_bounds _ _ _ I1) as B1. pose proof (inb_bounds _ _ _ I2) as B2.
  pose proof (pow2_pos E1) as P1. pose proof (pow2_pos E2) as P2.
  assert (L1 : (IZR (2 ^ 52) <= IZR m1)%R) by (apply IZR_le; lia).
  assert (L2 : (IZR (2 ^ 52) <= IZR m2)%R) by (apply IZR_le; lia).
  assert (U1 : (IZR m1 + 1 <= IZR (2 ^ 53))%R)
    by (rewrite <- plus_IZR; apply IZR_le; lia).
  assert (U2 : (IZR m2 + 1 <= IZR (2 ^ 53))%R)
    by (rewrite <- plus_IZR; apply IZR_le; lia).
  assert (T : IZR (2 ^ 53) = (2 * IZR (2 ^ 52))%R).
  { change (2 ^ 53) with (2 * 2 ^ 52). rewrite mult_IZR. reflexivity. }
  assert (Q1 : x1 = (x1 / pow2 E1 * pow2 E1)%R) by (field; lra).
  assert (Q2 : x2 = (x2 / pow2 E2 * pow2 E2)%R) by (field; lra).
  set (y1 := (x1 / pow2 E1)%R) in *. set (y2 := (x2 / pow2 E2)%R) in *.
  destruct (Z.lt_trichotomy E1 E2) as [C|[C|C]].
  - assert (N1 : (IZR (round_nearest_even m1 l1) <= IZR (2 ^ 53))%R).
    { apply IZR_le. destruct (round_nearest_even_cases m1 l1); lia. }
    assert (N2 : (IZR (2 ^ 52) <= IZR (round_nearest_even m2 l2))%R).
    { apply IZR_le. destruct (round_nearest_even_cases m2 l2); lia. }
    assert (PP : (2 * pow2 E1 <= pow2 E2)%R).
    { rewrite <- pow2_succ. apply pow2_le. lia. }
    assert (0 < IZR (2 ^ 52))%R by (apply IZR_lt; lia).
    nra.
  - subst E2. apply Rmult_le_compat_r; [lra|]. apply IZR_le.
    apply (round_nearest_even_mono _ _ _ _ y1 y2 I1 I2).
    unfold y1, y2. apply Rmult_le_compat_r; [|exact Hx].
    apply Rlt_le, Rinv_0_lt_compat, P1.
  - exfalso.
    assert (PP : (2 * pow2 E2 <= pow2 E1)%R).
    { rewrite <- pow2_succ. apply pow2_le. lia. }
    assert (0 < IZR (2 ^ 52))%R by (apply IZR_lt; lia).
    nra.
Qed.

(** A number [k * 2^j] with [k] below [2^53] lies on every binary64 grid
    at or below its own magnitude. *)
Lemma dyadic_on_grid (k j E : Z) :
  0 < k < 2 ^ 53 ->
  (pow2 (E + 52) <= IZR k * pow2 j)%R ->
  exists t, (IZR k * pow2 j = IZR t * pow2 E)%R.
Proof.
  intros Hk H.
  assert (HjE : E <= j).
  { destruct (Z_le_gt_dec E j) as [L|G]; [exact L|exfalso].
    assert (pow2 j <= pow2 (E - 1))%R by (apply pow2_le; lia).
    assert (E2 : pow2 (E + 52) = (pow2 (E - 1) * pow2 53)%R).
    { rewrite <- pow2_add. f_equal. lia. }
    rewrite pow2_53 in E2.
    assert (IZR k < IZR (2 ^ 53))%R by (apply IZR_lt; lia).
    assert (0 < IZR k)%R by (apply IZR_lt; lia).
    pose proof (pow2_pos j). pose proof (pow2_pos (E - 1)). nra. }
  exists (k * 2 ^ (j - E)).
  rewrite mult_IZR, <- pow2_IZR by lia.
  rewrite Rmult_assoc, <- pow2_add. do 2 f_equal. lia.
Qed.

Lemma rounded_ge_dyadic (xi : R) (f : spec_float) (k j : Z) :
  rounded xi f -> 0 < k < 2 ^ 53 ->
  (IZR k * pow2 j <= xi)%R -> (IZR k * pow2 j <= B2R f)%R.
Proof.
  intros Rf Hk H.
  destruct (rounded_value _ _ Rf) as (E & m' & l' & HE & Hm & I & V).
  rewrite V. pose proof (inb_bounds _ _ _ I) as B. pose proof (pow2_pos E) as P.
  assert (Q : xi = (xi / pow2 E * pow2 E)%R) by (field; lra).
  set (y := (xi / pow2 E)%R) in *.
  assert (N : (IZR m' <= IZR (round_nearest_even m' l'))%R).
  { apply IZR_le. destruct (round_nearest_even_cases m' l'); lia. }
  destruct (Rle_lt_dec (IZR k * pow2 j) (IZR m' * pow2 E)) as [C|C]; [nra|].
  exfalso.
  destruct (dyadic_on_grid k j E Hk) as [t Ht].
  { rewrite pow2_add, pow2_52.
    assert (IZR (2 ^ 52) <= IZR m')%R by (apply IZR_le; lia). nra. }
  rewrite Ht in C, H.
  assert (IZR m' < IZR t)%R by nra.
  assert (IZR t < IZR m' + 1)%R by nra.
  rewrite <- plus_IZR in *. apply lt_IZR in H0, H1. lia.
Qed.

Lemma rounded_le_dyadic (xi : R) (f : spec_float) (k j : Z) :
  rounded xi f -> 0 < k < 2 ^ 53 ->
  (xi <= IZR k * pow2 j)%R -> (B2R f <= IZR k * pow2 j)%R.
Proof.
  intros Rf Hk H.
  destruct (rounded_value _ _ Rf) as (E & m' & l' & HE & Hm & I & V).
  rewrite V. pose proof (inb_bounds _ _ _ I) as B. pose proof (pow2_pos E) as P.
  assert (Q : xi = (xi / pow2 E * pow2 E)%R) by (field; lra).
  set (y := (xi / pow2 E)%R) in *.
  assert (N : (IZR (round_nearest_even m' l') <= IZR m' + 1)%R).
  { rewrite <- plus_IZR. apply IZR_le.
    destruct (round_nearest_even_cases m' l'); lia. }
  destruct (Rle_lt_dec (IZR m' * pow2 E + pow2 E) (IZR k * pow2 j)) as [C|C]; [nra|].
  destruct (dyadic_on_grid k j E Hk) as [t Ht].
  { rewrite pow2_add, pow2_52.
    assert (IZR (2 ^ 52) <= IZR m')%R by (apply IZR_le; lia). nra. }
  rewrite Ht in C, H |- *.
  assert (T1 : (IZR t < IZR m' + 1)%R) by nra.
  assert (T2 : (IZR m' <= IZR t)%R) by nra.
  rewrite <- plus_IZR in T1. apply lt_IZR in T1. apply le_IZR in T2.
  assert (t = m') by lia. subst t.
  assert (Y : y = IZR m') by nra.
  assert (L : round_nearest_even m' l' = m').
  { destruct l' as [|[]]; cbn in I |- *; try reflexivity; lra. }
  rewrite L. lra.
Qed.

Lemma rounded_exact (f : spec_float) (k j : Z) :
  rounded (IZR k * pow2 j) f -> 0 < k < 2 ^ 53 -> B2R f = (IZR k * pow2 j)%R.
Proof.
  intros Rf Hk. apply Rle_antisym.
  - apply (rounded_le_dyadic _ _ k j Rf Hk). lra.
  - apply (rounded_ge_dyadic _ _ k j Rf Hk). lra.
Qed.

Lemma rounded_normal (xi : R) (f : spec_float) : rounded xi f -> normal f.
Proof.
  intros (E & m' & l' & M & E' & -> & D & _). exists M, E'. split; [reflexivity | exact D].
Qed.

Lemma normal_bounds (M : positive) (e : Z) :
  digits (Z.pos M) = 53 ->
  (pow2 (e + 52) <= B2R (S754_finite false M e) < pow2 (e + 53))%R.
Proof.
  intros D. pose proof (digits_pos_bounds M) as B. rewrite D in B.
  change (2 ^ (53 - 1)) with (2 ^ 52) in B.
  cbn [B2R]. rewrite !pow2_add, pow2_52, pow2_53.
  pose proof (pow2_pos e).
  assert (IZR (2 ^ 52) <= IZR (Z.pos M))%R by (apply IZR_le; lia).
  assert (IZR (Z.pos M) < IZR (2 ^ 53))%R by (apply IZR_lt; lia).
  nra.
Qed.

Lemma normal_exponent (M : positive) (e J K : Z) :
  digits (Z.pos M) = 53 ->
  (pow2 J <= B2R (S754_finite false M e) <= pow2 K)%R ->
  J - 52 <= e <= K - 52.
Proof.
  intros D [L U]. pose proof (normal_bounds M e D) as [L' U'].
  assert (pow2 J < pow2 (e + 53))%R by lra.
  assert (pow2 (e + 52) <= pow2 K)%R by lra.
  apply pow2_lt_inv in H.
  destruct (Z_le_gt_dec (e + 52) K) as [C|C]; [lia|].
  exfalso. pose proof (pow2_lt K (e + 52) ltac:(lia)). lra.
Qed.

(** The operations on normal numbers. *)

Lemma new_location_inb (nb r q : Z) (x : R) :
  0 < nb -> 0 <= r < nb ->
  (x * IZR nb = IZR q * IZR nb + IZR r)%R ->
  inb q (new_location nb r) x.
Proof.
  intros Hnb Hr Hx.
  assert (Pn : (0 < IZR nb)%R) by (apply IZR_lt; lia).
  unfold new_location, new_location_even, new_location_odd.
  assert (Z0 : r = 0 -> x = IZR q).
  { intros ->. apply Rmult_eq_reg_r with (IZR nb); lra. }
  destruct (Z.even nb) eqn:Ev; destruct (Z.eqb_spec r 0) as [R0|R0];
    try (apply Z0; exact R0).
  - assert (Pr : (0 < IZR r)%R) by (apply IZR_lt; lia).
    destruct (Z.compare_spec (2 * r) nb) as [C|C|C]; cbn.
    + apply (f_equal IZR) in C. rewrite mult_IZR in C.
      apply Rmult_eq_reg_r with (IZR nb); lra.
    + apply IZR_lt in C. rewrite mult_IZR in C. nra.
    + apply IZR_lt in C. rewrite mult_IZR in C.
      assert (Rn : (IZR r < IZR nb)%R) by (apply IZR_lt; lia). nra.
  - assert (Pr : (0 < IZR r)%R) by (apply IZR_lt; lia).
    assert (Rn : (IZR r < IZR nb)%R) by (apply IZR_lt; lia).
    assert (P : 2 * r <> nb).
    { intros <-. rewrite Z.even_mul in Ev. discriminate Ev. }
    destruct (Z.compare_spec (2 * r + 1) nb) as [C|C|C]; cbn.
    + assert (C' : 2 * r < nb) by lia.
      apply IZR_lt in C'. rewrite mult_IZR in C'. nra.
    + assert (C' : 2 * r < nb) by lia.
      apply IZR_lt in C'. rewrite mult_IZR in C'. nra.
    + assert (C' : nb < 2 * r) by lia.
      apply IZR_lt in C'. rewrite mult_IZR in C'. nra.
Qed.

Lemma div_core (m1 e1 m2 e2 : Z) :
  digits m1 = 53 -> digits m2 = 53 -> -1021 <= e1 - e2 ->
  SFdiv_core_binary prec emax m1 e1 m2 e2 =
  (m1 * 2 ^ 53 / m2, e1 - e2 - 53, new_location m2 ((m1 * 2 ^ 53) mod m2)).
Proof.
  intros D1 D2 He. unfold SFdiv_core_binary.
  change (Zdigits2 m1) with (digits m1). change (Zdigits2 m2) with (digits m2).
  rewrite D1, D2.
  replace (53 + e1 - (53 + e2)) with (e1 - e2) by lia.
  rewrite fexp_normal by lia.
  rewrite Z.min_l by lia.
  replace (e1 - e2 - (e1 - e2 - 53)) with 53 by lia.
  cbv zeta. rewrite Z.shiftl_mul_pow2 by lia.
  unfold Z.div, Z.modulo.
  destruct (Z.div_eucl (m1 * 2 ^ 53) m2). reflexivity.
Qed.

Lemma SFdiv_rounded (mx : positive) (ex : Z) (my : positive) (ey : Z) :
  digits (Z.pos mx) = 53 -> digits (Z.pos my) = 53 -> -900 <= ex - ey <= 900 ->
  rounded (B2R (S754_finite false mx ex) / B2R (S754_finite false my ey))
          (SFdiv prec emax (S754_finite false mx ex) (S754_finite false my ey)).
Proof.
  intros D1 D2 He. cbn [SFdiv xorb].
  rewrite div_core by (assumption || lia).
  pose proof (digits_pos_bounds mx) as B1. rewrite D1 in B1.
  pose proof (digits_pos_bounds my) as B2. rewrite D2 in B2.
  change (2 ^ (53 - 1)) with (2 ^ 52) in B1, B2.
  set (m1 := Z.pos mx) in *. set (m2 := Z.pos my) in *.
  set (q := m1 * 2 ^ 53 / m2). set (r := (m1 * 2 ^ 53) mod m2).
  assert (Hm2 : 0 < m2) by lia.
  pose proof (Z.div_mod (m1 * 2 ^ 53) m2 ltac:(lia)) as DM. fold q r in DM.
  pose proof (Z.mod_pos_bound (m1 * 2 ^ 53) m2 Hm2) as RB. fold r in RB.
  assert (Q1 : 2 ^ 52 <= q).
  { apply Z.div_le_lower_bound; [lia|]. nia. }
  assert (Q2 : q < 2 ^ 54).
  { apply Z.div_lt_upper_bound; [lia|]. nia. }
  assert (Dq : digits q = 53 \/ digits q = 54).
  { destruct (Z_lt_ge_dec q (2 ^ 53)).
    - left. apply digits_unique; [|lia]. change (2 ^ (53 - 1)) with (2 ^ 52). lia.
    - right. apply digits_unique; [|lia]. change (2 ^ (54 - 1)) with (2 ^ 53). lia. }
  apply round_aux_rounded.
  - lia.
  - apply new_location_inb; try assumption.
    cbn [B2R]. fold m1 m2.
    assert (P2 : (0 < IZR m2)%R) by (apply IZR_lt; lia).
    pose proof (pow2_pos ex). pose proof (pow2_pos ey).
    assert (K : (pow2 ex = pow2 (ex - ey - 53) * pow2 ey * IZR (2 ^ 53))%R).
    { rewrite <- pow2_53, <- !pow2_add. f_equal. lia. }
    pose proof (pow2_pos (ex - ey - 53)).
    apply (f_equal IZR) in DM. rewrite plus_IZR, !mult_IZR in DM.
    rewrite (Rmult_comm (IZR q)), <- DM, K. field.
    repeat split; lra.
  - lia.
  - lia.
Qed.

Lemma sqrt_core (m e : Z) :
  digits m = 53 -> 0 < m -> -1000 <= e <= 1000 ->
  let e' := e / 2 - 26 in
  let m' := m * 2 ^ (e - 2 * e') in
  SFsqrt_core_binary prec emax m e =
  (Z.sqrt m', e',
   if m' - Z.sqrt m' * Z.sqrt m' =? 0 then loc_Exact
   else loc_Inexact (if m' - Z.sqrt m' * Z.sqrt m' <=? Z.sqrt m' then Lt else Gt)).
Proof.
  intros D Hm He e' m'. unfold SFsqrt_core_binary.
  change (Zdigits2 m) with (digits m). rewrite D.
  rewrite !Z.div2_div.
  replace ((53 + e + 1) / 2) with (e / 2 + 27).
  2:{ replace (53 + e + 1) with (e + 27 * 2) by lia. rewrite Z.div_add by lia. lia. }
  assert (-501 <= e / 2 <= 500).
  { split; [apply Z.div_le_lower_bound | apply Z.div_le_upper_bound]; lia. }
  rewrite fexp_normal by lia.
  rewrite Z.min_l by lia.
  replace (e / 2 + 27 - 53) with e' by (unfold e'; lia).
  pose proof (Z.div_mod e 2 ltac:(lia)) as DM.
  pose proof (Z.mod_pos_bound e 2 ltac:(lia)) as MB.
  assert (sq : 0 < e - 2 * e') by (unfold e'; lia).
  cbv zeta.
  assert (Sh : match e - 2 * e' with
               | 0 => m
               | Z.pos _ => Z.shiftl m (e - 2 * e')
               | Z.neg _ => 0
               end = m') .
  { unfold m'. destruct (e - 2 * e') eqn:Es; try lia.
    rewrite Z.shiftl_mul_pow2 by lia. reflexivity. }
  rewrite Sh.
  assert (P : 0 <= m') by (unfold m'; apply Z.mul_nonneg_nonneg; [lia|apply Z.pow_nonneg; lia]).
  pose proof (Z.sqrtrem_spec m' P) as SP.
  pose proof (Z.sqrtrem_sqrt m') as SQ.
  destruct (Z.sqrtrem m') as [q r]. cbn [fst] in SQ. subst q.
  destruct SP as [SP1 SP2].
  replace (m' - Z.sqrt m' * Z.sqrt m') with r by lia. reflexivity.
Qed.

Lemma sqrt_between (a y : R) :
  (0 <= a)%R -> (0 <= y)%R ->
  ((a * a < y -> a < sqrt y) /\ (y < a * a -> sqrt y < a) /\ (y = a * a -> sqrt y = a))%R.
Proof.
  intros Ha Hy. repeat split.
  - intros H. rewrite <- (sqrt_square a) at 1 by exact Ha.
    apply sqrt_lt_1_alt. nra.
  - intros H. rewrite <- (sqrt_square a) at 1 by exact Ha.
    apply sqrt_lt_1_alt. nra.
  - intros ->. apply sqrt_square. exact Ha.
Qed.

Lemma SFsqrt_rounded (mx : positive) (ex : Z) :
  digits (Z.pos mx) = 53 -> -1000 <= ex <= 1000 ->
  rounded (sqrt (B2R (S754_finite false mx ex)))
          (SFsqrt prec emax (S754_finite false mx ex)).
Proof.
  intros D He. cbn [SFsqrt].
  rewrite sqrt_core by (assumption || lia). cbv zeta.
  pose proof (digits_pos_bounds mx) as B. rewrite D in B.
  change (2 ^ (53 - 1)) with (2 ^ 52) in B.
  set (m := Z.pos mx) in *.
  set (e' := ex / 2 - 26).
  pose proof (Z.div_mod ex 2 ltac:(lia)) as DM.
  pose proof (Z.mod_pos_bound ex 2 ltac:(lia)) as MB.
  assert (-501 <= ex / 2 <= 500).
  { split; [apply Z.div_le_lower_bound | apply Z.div_le_upper_bound]; lia. }
  assert (sq : ex - 2 * e' = 52 \/ ex - 2 * e' = 53) by (unfold e'; lia).
  set (m' := m * 2 ^ (ex - 2 * e')).
  assert (Bm : 2 ^ 104 <= m' < 2 ^ 106).
  { unfold m'. destruct sq as [-> | ->]; lia. }
  set (q := Z.sqrt m').
  pose proof (Z.sqrt_spec m' ltac:(lia)) as SP. cbv zeta in SP. fold q in SP.
  unfold Z.succ in SP.
  assert (Q0 : 0 <= q) by apply Z.sqrt_nonneg.
  assert (Q1 : 2 ^ 52 <= q < 2 ^ 53).
  { split.
    - destruct (Z_lt_ge_dec q (2 ^ 52)); [exfalso|lia].
      assert ((q + 1) * (q + 1) <= 2 ^ 52 * 2 ^ 52)
        by (apply Z.mul_le_mono_nonneg; lia).
      lia.
    - destruct (Z_lt_ge_dec q (2 ^ 53)); [lia|exfalso].
      assert (2 ^ 53 * 2 ^ 53 <= q * q)
        by (apply Z.mul_le_mono_nonneg; lia).
      lia. }
  assert (Dq : digits q = 53).
  { apply digits_unique; [|lia]. change (2 ^ (53 - 1)) with (2 ^ 52). lia. }
  assert (V : sqrt (B2R (S754_finite false mx ex)) = (sqrt (IZR m') * pow2 e')%R).
  { cbn [B2R]. fold m.
    rewrite <- (sqrt_square (pow2 e')) at 1 by (apply Rlt_le, pow2_pos).
    rewrite <- sqrt_mult_alt.
    2:{ apply IZR_le. lia. }
    f_equal. unfold m'. rewrite mult_IZR.
    assert (0 <= ex - 2 * e') by lia.
    rewrite <- pow2_IZR by assumption.
    rewrite Rmult_1_l, (Rmult_assoc (IZR m)), <- !pow2_add. do 2 f_equal. lia. }
  apply round_aux_rounded.
  - lia.
  - rewrite V.
    replace (sqrt (IZR m') * pow2 e' / pow2 e')%R with (sqrt (IZR m')).
    2:{ field. pose proof (pow2_pos e'). lra. }
    set (r := m' - q * q).
    assert (Hr : 0 <= r <= 2 * q) by (unfold r; lia).
    assert (Em : IZR m' = (IZR q * IZR q + IZR r)%R).
    { rewrite <- mult_IZR, <- plus_IZR. f_equal. unfold r. lia. }
    assert (Pq : (0 <= IZR q)%R) by (apply IZR_le; lia).
    assert (Pm : (0 <= IZR m')%R) by (apply IZR_le; lia).
    destruct (sqrt_between (IZR q) (IZR m') Pq Pm) as (S1 & S2 & S3).
    destruct (sqrt_between (IZR q + / 2) (IZR m') ltac:(lra) Pm) as (H1 & H2 & H3).
    destruct (sqrt_between (IZR q + 1) (IZR m') ltac:(lra) Pm) as (K1 & K2 & K3).
    destruct (Z.eqb_spec r 0) as [R0|R0].
    + cbn [inb]. apply S3. rewrite Em, R0. lra.
    + assert (R1 : (1 <= IZR r)%R) by (apply IZR_le; lia).
      assert (R2 : (IZR r <= 2 * IZR q)%R).
      { rewrite <- mult_IZR. apply IZR_le. lia. }
      destruct (Z.leb_spec r q) as [L|L]; cbn [inb].
      * apply IZR_le in L. split; [apply S1; lra | apply H2; nra].
      * assert (L' : (IZR q + 1 <= IZR r)%R).
        { rewrite <- plus_IZR. apply IZR_le. lia. }
        split; [apply H1; nra | apply K2; nra].
  - lia.
  - rewrite Dq. unfold e'. lia.
Qed.

Lemma SFmul_rounded (mx : positive) (ex : Z) (my : positive) (ey : Z) :
  digits (Z.pos mx) = 53 -> digits (Z.pos my) = 53 -> -900 <= ex + ey <= 800 ->
  rounded (B2R (S754_finite false mx ex) * B2R (S754_finite false my ey))
          (SFmul prec emax (S754_finite false mx ex) (S754_finite false my ey)).
Proof.
  intros D1 D2 He. cbn [SFmul xorb].
  pose proof (digits_pos_bounds mx) as B1. rewrite D1 in B1.
  pose proof (digits_pos_bounds my) as B2. rewrite D2 in B2.
  change (2 ^ (53 - 1)) with (2 ^ 52) in B1, B2.
  rewrite Pos2Z.inj_mul.
  set (m1 := Z.pos mx) in *. set (m2 := Z.pos my) in *.
  assert (Bm : 2 ^ 104 <= m1 * m2 < 2 ^ 106) by nia.
  assert (Dq : digits (m1 * m2) = 105 \/ digits (m1 * m2) = 106).
  { destruct (Z_lt_ge_dec (m1 * m2) (2 ^ 105)).
    - left. apply digits_unique; [|lia]. change (2 ^ (105 - 1)) with (2 ^ 104). lia.
    - right. apply digits_unique; [|lia]. change (2 ^ (106 - 1)) with (2 ^ 105). lia. }
  apply round_aux_rounded.
  - lia.
  - cbn [inb B2R]. fold m1 m2. rewrite pow2_add, mult_IZR.
    pose proof (pow2_pos ex). pose proof (pow2_pos ey). field. lra.
  - lia.
  - lia.
Qed.

(** Conversions. *)

Lemma sign_clear_not_negative (f : spec_float) : sign_clear f = true -> not_negative f = true.
Proof. destruct f as [[]|[]| |[] m e]; trivial. Qed.

Lemma binary_round_aux_sign_clear (m e : Z) (l : location) :
  sign_clear (binary_round_aux prec emax false m e l) = true.
Proof.
  unfold binary_round_aux.
  destruct (shr_fexp prec emax m e l) as [mrs' e'].
  destruct (shr_fexp prec emax _ e' loc_Exact) as [mrs'' e''].
  destruct (shr_m mrs''); [reflexivity| |reflexivity].
  destruct (e'' <=? emax - prec); reflexivity.
Qed.

Lemma SFdiv_not_negative (x y : spec_float) :
  not_negative x = true -> sign_clear y = true ->
  not_negative (SFdiv prec emax x y) = true.
Proof.
  destruct x as [[]|[]| |[] mx ex], y as [[]|[]| |[] my ey];
    try reflexivity; try discriminate. intros _ _.
  cbn [SFdiv xorb].
  destruct (SFdiv_core_binary prec emax (Z.pos mx) ex (Z.pos my) ey) as [[mz ez] lz].
  apply sign_clear_not_negative, binary_round_aux_sign_clear.
Qed.

Lemma SFmul_not_negative (x y : spec_float) :
  not_negative x = true -> sign_clear y = true ->
  not_negative (SFmul prec emax x y) = true.
Proof.
  destruct x as [[]|[]| |[] mx ex], y as [[]|[]| |[] my ey];
    try reflexivity; try discriminate. intros _ _.
  apply sign_clear_not_negative, binary_round_aux_sign_clear.
Qed.

Lemma SFsqrt_not_negative (x : spec_float) :
  not_negative (SFsqrt prec emax x) = true.
Proof.
  destruct x as [[]|[]| |[] mx ex]; try reflexivity.
  cbn [SFsqrt].
  destruct (SFsqrt_core_binary prec emax (Z.pos mx) ex) as [[mz ez] lz].
  apply sign_clear_not_negative, binary_round_aux_sign_clear.
Qed.

Lemma of_Z_sign_clear (z : Z) :
  0 <= z -> sign_clear (FloatOps.Prim2SF (Float64.of_Z z)) = true.
Proof.
  intros Hz. destruct z as [|p|p]; [reflexivity| |lia].
  unfold Float64.of_Z. rewrite FloatAxioms.of_uint63_spec.
  destruct (Uint63.to_Z (Uint63.of_Z (Z.pos p))) as [|q|q] eqn:E.
  - reflexivity.
  - cbn [binary_normalize]. unfold binary_round.
    destruct (shl_align q 0 _) as [mz ez].
    apply binary_round_aux_sign_clear.
  - pose proof (Uint63.to_Z_bounded (Uint63.of_Z (Z.pos p))). lia.
Qed.

Lemma int_not_negative (x : PrimFloat.float) (v : Z) :
  not_negative (FloatOps.Prim2SF x) = true -> Float64.int x = inr v -> 0 <= v.
Proof.
  unfold Float64.int.
  destruct (FloatOps.Prim2SF x) as [s|s| |[] m e]; try discriminate.
  - intros _ [= <-]. lia.
  - intros _ [= <-]. destruct e as [|k|k].
    + lia.
    + apply Z.shiftl_nonneg. lia.
    + apply Z.shiftr_nonneg. lia.
Qed.

(** [int] of a positive number is its integer part. *)
Lemma int_floor (x : PrimFloat.float) (m : positive) (e : Z) :
  FloatOps.Prim2SF x = S754_finite false m e ->
  exists v, Float64.int x = inr v /\
            (IZR v <= B2R (S754_finite false m e) < IZR v + 1)%R.
Proof.
  intros E. unfold Float64.int. rewrite E. eexists. split; [reflexivity|].
  cbn [B2R]. rewrite Rmult_1_l. destruct e as [|k|k].
  - rewrite pow2_0. lra.
  - rewrite Z.shiftl_mul_pow2 by lia. rewrite mult_IZR, <- pow2_IZR by lia. lra.
  - rewrite Z.shiftr_div_pow2 by lia.
    change (Z.neg k) with (- Z.pos k). rewrite pow2_opp, pow2_IZR by lia.
    set (d := 2 ^ Z.pos k). assert (Hd : 0 < d) by (apply Z.pow_pos_nonneg; lia).
    pose proof (Z.div_mod (Z.pos m) d ltac:(lia)) as DM.
    pose proof (Z.mod_pos_bound (Z.pos m) d Hd) as MB.
    assert (Pd : (0 < IZR d)%R) by (apply IZR_lt; lia).
    assert (Em : IZR (Z.pos m) = (IZR d * IZR (Z.pos m / d) + IZR (Z.pos m mod d))%R).
    { rewrite <- mult_IZR, <- plus_IZR. f_equal. exact DM. }
    assert (R0 : (0 <= IZR (Z.pos m mod d))%R) by (apply IZR_le; lia).
    assert (R1 : (IZR (Z.pos m mod d) < IZR d)%R) by (apply IZR_lt; lia).
    rewrite Em. split.
    + apply Rmult_le_reg_r with (IZR d); [exact Pd|].
      field_simplify; [|lra]. nra.
    + apply Rmult_lt_reg_r with (IZR d); [exact Pd|].
      field_simplify; [|lra]. nra.
Qed.

Lemma shift_pos_mul (d m : positive) :
  Z.pos (Pos.iter xO m d) = Z.pos m * 2 ^ Z.pos d.
Proof.
  change (Pos.iter xO m d) with (shift_pos d m).
  rewrite shift_pos_correct. change (Zpower_pos 2 d) with (2 ^ Z.pos d). lia.
Qed.

(** Integers as binary64 numbers. *)

Lemma rounded_normal_in (J K : Z) (xi : R) (f : spec_float) :
  rounded xi f -> (pow2 J <= xi <= pow2 K)%R -> normal_in J K f.
Proof.
  intros Rf [L U]. destruct (rounded_normal _ _ Rf) as (M & e & -> & D).
  exists M, e. split; [reflexivity|]. split; [exact D|]. split.
  - rewrite <- (Rmult_1_l (pow2 J)).
    apply (rounded_ge_dyadic xi _ 1 J Rf); [lia|lra].
  - rewrite <- (Rmult_1_l (pow2 K)).
    apply (rounded_le_dyadic xi _ 1 K Rf); [lia|lra].
Qed.

Lemma normal_in_positive (J K : Z) (f : spec_float) :
  normal_in J K f -> (0 < B2R f)%R.
Proof. intros (M & e & -> & D & L & U). pose proof (pow2_pos J). lra. Qed.

Lemma of_Z_exact (z : Z) :
  0 < z < 2 ^ 53 ->
  exists M e, FloatOps.Prim2SF (Float64.of_Z z) = S754_finite false M e /\
              digits (Z.pos M) = 53 /\
              B2R (S754_finite false M e) = IZR z.
Proof.
  intros Hz. destruct z as [|p|p]; try lia.
  unfold Float64.of_Z.
  rewrite FloatAxioms.of_uint63_spec, Uint63.of_Z_spec.
  rewrite Z.mod_small by (change Uint63.wB with (2 ^ 63); lia).
  cbn [binary_normalize]. unfold binary_round.
  change (Z.pos (digits2_pos p)) with (digits (Z.pos p)).
  pose proof (digits_pos_bounds p) as B.
  pose proof (digits_ge_1 (Z.pos p) ltac:(lia)) as D1.
  set (d := digits (Z.pos p)) in *.
  assert (D53 : d <= 53).
  { destruct (Z_le_gt_dec d 53) as [L|G]; [exact L|exfalso].
    assert (2 ^ 53 <= 2 ^ (d - 1)) by (apply Z.pow_le_mono_r; lia). lia. }
  rewrite Z.add_0_r, fexp_normal by lia.
  assert (R : exists mz ez,
             shl_align p 0 (d - 53) = (mz, ez) /\ digits (Z.pos mz) = 53 /\
             -52 <= ez <= 0 /\ (IZR (Z.pos mz) * pow2 ez = IZR (Z.pos p))%R).
  { unfold shl_align. rewrite Z.sub_0_r.
    destruct (d - 53) as [|k|k] eqn:Ek; try lia.
    - exists p, 0. split; [reflexivity|]. split; [fold d; lia|]. split; [lia|].
      rewrite pow2_0. lra.
    - exists (Pos.iter xO p k), (Z.neg k). split; [reflexivity|].
      assert (Hk : Z.pos k = 53 - d) by lia.
      split; [|split; [lia|]].
      + rewrite shift_pos_mul. apply digits_unique; [|lia].
        change (2 ^ (53 - 1)) with (2 ^ 52).
        replace (2 ^ 52) with (2 ^ (d - 1) * 2 ^ Z.pos k)
          by (rewrite <- Z.pow_add_r by lia; f_equal; lia).
        replace (2 ^ 53) with (2 ^ d * 2 ^ Z.pos k)
          by (rewrite <- Z.pow_add_r by lia; f_equal; lia).
        assert (0 < 2 ^ Z.pos k) by (apply Z.pow_pos_nonneg; lia).
        split; [apply Z.mul_le_mono_nonneg_r | apply Z.mul_lt_mono_pos_r]; lia.
      + rewrite shift_pos_mul, mult_IZR, <- pow2_IZR by lia.
        rewrite Rmult_assoc, <- pow2_add.
        replace (Z.pos k + Z.neg k) with 0 by lia. rewrite pow2_0. lra. }
  destruct R as (mz & ez & -> & Dz & Hez & V).
  assert (Rf : rounded (IZR (Z.pos p) * pow2 0)
                       (binary_round_aux prec emax false (Z.pos mz) ez loc_Exact)).
  { apply round_aux_rounded.
    - lia.
    - cbn [inb]. rewrite pow2_0, <- V. field. pose proof (pow2_pos ez). lra.
    - lia.
    - lia. }
  destruct (rounded_normal _ _ Rf) as (M & e & E & D).
  exists M, e. split; [exact E|]. split; [exact D|].
  rewrite <- E, (rounded_exact _ (Z.pos p) 0 Rf) by lia.
  rewrite pow2_0. lra.
Qed.

(** The operations, with magnitudes. *)

Lemma SFdiv_normal (J1 K1 J2 K2 : Z) (x y : spec_float) :
  normal_in J1 K1 x -> normal_in J2 K2 y ->
  -800 <= J1 - K2 -> K1 - J2 <= 800 ->
  rounded (B2R x / B2R y) (SFdiv prec emax x y).
Proof.
  intros (mx & ex & -> & Dx & Bx) (my & ey & -> & Dy & By) H1 H2.
  pose proof (normal_exponent _ _ _ _ Dx Bx).
  pose proof (normal_exponent _ _ _ _ Dy By).
  apply SFdiv_rounded; try assumption. lia.
Qed.

Lemma SFsqrt_normal (J K : Z) (x : spec_float) :
  normal_in J K x -> -900 <= J -> K <= 900 ->
  rounded (sqrt (B2R x)) (SFsqrt prec emax x).
Proof.
  intros (mx & ex & -> & Dx & Bx) H1 H2.
  pose proof (normal_exponent _ _ _ _ Dx Bx).
  apply SFsqrt_rounded; try assumption. lia.
Qed.

Lemma SFmul_normal (J1 K1 J2 K2 : Z) (x y : spec_float) :
  normal_in J1 K1 x -> normal_in J2 K2 y ->
  -700 <= J1 + J2 -> K1 + K2 <= 800 ->
  rounded (B2R x * B2R y) (SFmul prec emax x y).
Proof.
  intros (mx & ex & -> & Dx & Bx) (my & ey & -> & Dy & By) H1 H2.
  pose proof (normal_exponent _ _ _ _ Dx Bx).
  pose proof (normal_exponent _ _ _ _ Dy By).
  apply SFmul_rounded; try assumption. lia.
Qed.

Lemma sqrt_pow2 (k : Z) : sqrt (pow2 (2 * k)) = pow2 k.
Proof.
  replace (2 * k) with (k + k) by lia. rewrite pow2_add.
  apply sqrt_square, Rlt_le, pow2_pos.
Qed.

Lemma SFleb_zero_normal (J K : Z) (f : spec_float) :
  normal_in J K f -> SFleb (S754_zero false) f = true.
Proof. intros (M & e & -> & _). reflexivity. Qed.

(** The level, from the sum of squares and the number of samples. *)

Lemma pow2_num (k : Z) (v : Z) : 0 <= k -> v = 2 ^ k -> pow2 k = IZR v.
Proof. intros H ->. apply pow2_IZR, H. Qed.

Lemma pow2_num_opp (k : Z) (v : Z) : k <= 0 -> v = 2 ^ (- k) -> pow2 k = (/ IZR v)%R.
Proof.
  intros H ->. rewrite <- (Z.opp_involutive k) at 1.
  rewrite pow2_opp, pow2_IZR by lia. reflexivity.
Qed.

Section Percent.

Variables sq n : Z.
Hypothesis Hsq : 0 < sq <= n * 2 ^ 30.
Hypothesis Hn : 0 < n < 2 ^ 23.

Let ms := PrimFloat.div (Float64.of_Z sq) (Float64.of_Z n).
Let r := PrimFloat.sqrt ms.
Let d := PrimFloat.div r (Float64.of_Z 32768).
Let t := PrimFloat.mul d (Float64.of_Z 100).

Lemma percent_stages :
  rounded (IZR sq / IZR n) (FloatOps.Prim2SF ms) /\
  normal_in (-24) 30 (FloatOps.Prim2SF ms) /\
  rounded (sqrt (B2R (FloatOps.Prim2SF ms))) (FloatOps.Prim2SF r) /\
  normal_in (-12) 15 (FloatOps.Prim2SF r) /\
  rounded (B2R (FloatOps.Prim2SF r) / 32768) (FloatOps.Prim2SF d) /\
  normal_in (-27) 0 (FloatOps.Prim2SF d) /\
  rounded (B2R (FloatOps.Prim2SF d) * 100) (FloatOps.Prim2SF t) /\
  normal_in (-27) 7 (FloatOps.Prim2SF t).
Proof.
  destruct (of_Z_exact sq ltac:(lia)) as (MS & eS & ES & DS & VS).
  destruct (of_Z_exact n ltac:(lia)) as (Mn & en & En & Dn & Vn).
  destruct (of_Z_exact 32768 ltac:(lia)) as (M1 & e1 & E1 & D1 & V1).
  destruct (of_Z_exact 100 ltac:(lia)) as (M2 & e2 & E2 & D2 & V2).
  assert (PS : (1 <= IZR sq)%R) by (apply IZR_le; lia).
  assert (Pn : (1 <= IZR n)%R) by (apply IZR_le; lia).
  assert (Un : (IZR n <= IZR (2 ^ 23))%R) by (apply IZR_le; lia).
  assert (US : (IZR sq <= IZR n * IZR (2 ^ 30))%R)
    by (rewrite <- mult_IZR; apply IZR_le; lia).
  assert (NS : normal_in 0 53 (S754_finite false MS eS)).
  { exists MS, eS. split; [reflexivity|]. split; [exact DS|].
    rewrite VS, pow2_0, pow2_53. split; [lra|]. apply IZR_le. lia. }
  assert (Nn : normal_in 0 23 (S754_finite false Mn en)).
  { exists Mn, en. split; [reflexivity|]. split; [exact Dn|].
    rewrite Vn, pow2_0, (pow2_num 23 (2 ^ 23)) by lia. lra. }
  assert (N1 : normal_in 15 15 (S754_finite false M1 e1)).
  { exists M1, e1. split; [reflexivity|]. split; [exact D1|].
    rewrite V1, (pow2_num 15 32768) by (reflexivity || lia). lra. }
  assert (N2 : normal_in 6 7 (S754_finite false M2 e2)).
  { exists M2, e2. split; [reflexivity|]. split; [exact D2|].
    rewrite V2, (pow2_num 6 64), (pow2_num 7 128) by (reflexivity || lia). lra. }
  (* mean square *)
  assert (Rm : rounded (IZR sq / IZR n) (FloatOps.Prim2SF ms)).
  { unfold ms. rewrite FloatAxioms.div_spec, ES, En. rewrite <- VS, <- Vn.
    apply (SFdiv_normal 0 53 0 23); try assumption; lia. }
  assert (Nm : normal_in (-24) 30 (FloatOps.Prim2SF ms)).
  { apply (rounded_normal_in _ _ _ _ Rm).
    rewrite (pow2_num_opp (-24) 16777216), (pow2_num 30 1073741824)
      by (reflexivity || lia).
    change (2 ^ 23) with 8388608 in Un. change (2 ^ 30) with 1073741824 in US.
    split.
    - apply Rmult_le_reg_r with (IZR n); [lra|]. field_simplify; [|lra]. lra.
    - apply Rmult_le_reg_r with (IZR n); [lra|]. field_simplify; [|lra]. lra. }
  (* root *)
  assert (Rr : rounded (sqrt (B2R (FloatOps.Prim2SF ms))) (FloatOps.Prim2SF r)).
  { unfold r. rewrite FloatAxioms.sqrt_spec.
    apply (SFsqrt_normal (-24) 30); try assumption; lia. }
  assert (Nr : normal_in (-12) 15 (FloatOps.Prim2SF r)).
  { apply (rounded_normal_in _ _ _ _ Rr).
    destruct Nm as (M & e & _ & _ & L & U).
    rewrite <- (sqrt_pow2 (-12)), <- (sqrt_pow2 15).
    split; apply sqrt_le_1_alt; assumption. }
  (* over full scale *)
  assert (Rd : rounded (B2R (FloatOps.Prim2SF r) / 32768) (FloatOps.Prim2SF d)).
  { unfold d. rewrite FloatAxioms.div_spec, E1. rewrite <- V1.
    apply (SFdiv_normal (-12) 15 15 15); try assumption; lia. }
  assert (Nd : normal_in (-27) 0 (FloatOps.Prim2SF d)).
  { apply (rounded_normal_in _ _ _ _ Rd).
    destruct Nr as (M & e & _ & _ & L & U).
    rewrite (pow2_num_opp (-27) 134217728), pow2_0 by (reflexivity || lia).
    rewrite (pow2_num_opp (-12) 4096) in L by (reflexivity || lia).
    rewrite (pow2_num 15 32768) in U by (reflexivity || lia).
    lra. }
  (* percent *)
  assert (Rt : rounded (B2R (FloatOps.Prim2SF d) * 100) (FloatOps.Prim2SF t)).
  { unfold t. rewrite FloatAxioms.mul_spec, E2. rewrite <- V2.
    apply (SFmul_normal (-27) 0 6 7); try assumption; lia. }
  assert (Nt : normal_in (-27) 7 (FloatOps.Prim2SF t)).
  { apply (rounded_normal_in _ _ _ _ Rt).
    destruct Nd as (M & e & _ & _ & L & U).
    rewrite (pow2_num_opp (-27) 134217728) in L |- * by (reflexivity || lia).
    rewrite pow2_0 in U. rewrite (pow2_num 7 128) by (reflexivity || lia).
    lra. }
  repeat split; assumption.
Qed.

Lemma percent_le_100 : (B2R (FloatOps.Prim2SF t) <= 100)%R.
Proof.
  destruct percent_stages as (_ & _ & _ & _ & _ & Nd & Rt & _).
  destruct Nd as (M & e & _ & _ & L & U). rewrite pow2_0 in U.
  replace 100%R with (IZR 100 * pow2 0)%R by (rewrite pow2_0; lra).
  apply (rounded_le_dyadic _ _ 100 0 Rt); [lia|]. rewrite pow2_0. lra.
Qed.

Lemma mean_square_leb : PrimFloat.leb PrimFloat.zero ms = true.
Proof.
  destruct percent_stages as (_ & Nm & _).
  rewrite FloatAxioms.leb_spec.
  change (FloatOps.Prim2SF PrimFloat.zero) with (S754_zero false).
  apply (SFleb_zero_normal _ _ _ Nm).
Qed.

Lemma int_percent :
  exists v, Float64.int (percent sq n) = inr v /\ 0 <= v <= 100 /\
            (IZR v <= B2R (FloatOps.Prim2SF (percent sq n)) < IZR v + 1)%R.
Proof.
  destruct percent_stages as (_ & _ & _ & _ & _ & _ & _ & Nt).
  pose proof percent_le_100 as U.
  fold t in Nt. change (percent sq n) with t.
  destruct Nt as (M & e & E & _ & L & _).
  destruct (int_floor t M e E) as (v & Hv & B). rewrite <- E in B.
  exists v. split; [exact Hv|]. split; [|exact B].
  pose proof (pow2_pos (-27)).
  split.
  - assert (IZR (-1) < IZR v)%R by lra. apply lt_IZR in H0. lia.
  - assert (IZR v <= IZR 100)%R by lra. apply le_IZR in H0. exact H0.
Qed.

End Percent.

(** Order and full scale. *)

Lemma percent_mono (S1 n1 S2 n2 : Z) :
  0 < S1 <= n1 * 2 ^ 30 -> 0 < n1 < 2 ^ 23 ->
  0 < S2 <= n2 * 2 ^ 30 -> 0 < n2 < 2 ^ 23 ->
  (IZR S1 / IZR n1 <= IZR S2 / IZR n2)%R ->
  (B2R (FloatOps.Prim2SF (percent S1 n1)) <=
   B2R (FloatOps.Prim2SF (percent S2 n2)))%R.
Proof.
  intros HS1 Hn1 HS2 Hn2 H.
  destruct (percent_stages S1 n1 HS1 Hn1)
    as (Rm1 & Nm1 & Rr1 & Nr1 & Rd1 & Nd1 & Rt1 & Nt1).
  destruct (percent_stages S2 n2 HS2 Hn2)
    as (Rm2 & Nm2 & Rr2 & Nr2 & Rd2 & Nd2 & Rt2 & Nt2).
  pose proof (rounded_mono _ _ _ _ Rm1 Rm2 H) as M.
  pose proof (normal_in_positive _ _ _ Nm1) as P.
  assert (Q : (sqrt (B2R (FloatOps.Prim2SF
                 (PrimFloat.div (Float64.of_Z S1) (Float64.of_Z n1)))) <=
               sqrt (B2R (FloatOps.Prim2SF
                 (PrimFloat.div (Float64.of_Z S2) (Float64.of_Z n2)))))%R)
    by (apply sqrt_le_1_alt; exact M).
  pose proof (rounded_mono _ _ _ _ Rr1 Rr2 Q) as M2.
  assert (Q2 : forall a b : R, (a <= b -> a / 32768 <= b / 32768)%R)
    by (intros; lra).
  pose proof (rounded_mono _ _ _ _ Rd1 Rd2 (Q2 _ _ M2)) as M3.
  assert (Q3 : forall a b : R, (a <= b -> a * 100 <= b * 100)%R)
    by (intros; lra).
  exact (rounded_mono _ _ _ _ Rt1 Rt2 (Q3 _ _ M3)).
Qed.

Lemma int_percent_mono (S1 n1 S2 n2 v1 v2 : Z) :
  0 < S1 <= n1 * 2 ^ 30 -> 0 < n1 < 2 ^ 23 ->
  0 < S2 <= n2 * 2 ^ 30 -> 0 < n2 < 2 ^ 23 ->
  (IZR S1 / IZR n1 <= IZR S2 / IZR n2)%R ->
  Float64.int (percent S1 n1) = inr v1 ->
  Float64.int (percent S2 n2) = inr v2 ->
  v1 <= v2.
Proof.
  intros HS1 Hn1 HS2 Hn2 H E1 E2.
  pose proof (percent_mono _ _ _ _ HS1 Hn1 HS2 Hn2 H) as M.
  destruct (int_percent S1 n1 HS1 Hn1) as (u1 & F1 & _ & B1).
  destruct (int_percent S2 n2 HS2 Hn2) as (u2 & F2 & _ & B2).
  rewrite E1 in F1. rewrite E2 in F2.
  injection F1 as <-. injection F2 as <-.
  assert (L : (IZR v1 < IZR (v2 + 1))%R) by (rewrite plus_IZR; lra).
  apply lt_IZR in L. lia.
Qed.

(** Full scale: every sample -32768. *)
Lemma percent_full_scale (n : Z) :
  0 < n < 2 ^ 23 ->
  Float64.int (percent (n * 2 ^ 30) n) = inr 100.
Proof.
  intros Hn.
  assert (Hsq : 0 < n * 2 ^ 30 <= n * 2 ^ 30) by lia.
  destruct (percent_stages _ n Hsq Hn)
    as (Rm & Nm & Rr & Nr & Rd & Nd & Rt & Nt).
  assert (Pn : (0 < IZR n)%R) by (apply IZR_lt; lia).
  assert (Vm : B2R (FloatOps.Prim2SF
                 (PrimFloat.div (Float64.of_Z (n * 2 ^ 30)) (Float64.of_Z n))) =
               (IZR 1 * pow2 30)%R).
  { apply rounded_exact; [|lia].
    replace (IZR 1 * pow2 30)%R with (IZR (n * 2 ^ 30) / IZR n)%R; [exact Rm|].
    rewrite mult_IZR, <- pow2_IZR by lia. field. lra. }
  rewrite Vm in Rr.
  replace (sqrt (IZR 1 * pow2 30)) with (IZR 1 * pow2 15)%R in Rr
    by (rewrite !Rmult_1_l; symmetry; apply (sqrt_pow2 15)).
  apply rounded_exact in Rr; [|lia]. rewrite Rr in Rd.
  replace (IZR 1 * pow2 15 / 32768)%R with (IZR 1 * pow2 0)%R in Rd
    by (rewrite (pow2_num 15 32768), pow2_0 by (reflexivity || lia); lra).
  apply rounded_exact in Rd; [|lia]. rewrite Rd in Rt.
  replace (IZR 1 * pow2 0 * 100)%R with (IZR 100 * pow2 0)%R in Rt
    by (rewrite pow2_0; lra).
  apply rounded_exact in Rt; [|lia]. rewrite pow2_0 in Rt.
  destruct (int_percent _ n Hsq Hn) as (v & E & _ & B).
  rewrite E. f_equal.
  unfold percent in B. rewrite Rt in B.
  assert (L1 : (IZR v < IZR 101)%R) by lra. apply lt_IZR in L1.
  assert (L2 : (IZR 99 < IZR v)%R) by lra. apply lt_IZR in L2.
  lia.
Qed.

(** Anything less: one sample other than -32768 keeps the level below 100. *)
Lemma percent_below_full_scale (sq n v : Z) :
  0 < sq <= n * 2 ^ 30 - 65535 -> 0 < n < 2 ^ 23 ->
  Float64.int (percent sq n) = inr v -> v <= 99.
Proof.
  intros Hsq Hn E.
  assert (Hsq' : 0 < sq <= n * 2 ^ 30) by lia.
  destruct (percent_stages sq n Hsq' Hn)
    as (Rm & Nm & Rr & Nr & Rd & Nd & Rt & Nt).
  assert (Pn : (1 <= IZR n)%R) by (apply IZR_le; lia).
  assert (Un : (IZR n <= 8388608)%R) by (apply IZR_le; lia).
  assert (US : (IZR sq <= IZR n * 1073741824 - 65535)%R).
  { change 1073741824%R with (IZR (2 ^ 30)).
    rewrite <- mult_IZR, <- minus_IZR. apply IZR_le. lia. }
  (* mean square <= 2^30 - 2^-8 *)
  assert (Bm : (B2R (FloatOps.Prim2SF
                  (PrimFloat.div (Float64.of_Z sq) (Float64.of_Z n))) <=
                IZR (2 ^ 38 - 1) * pow2 (-8))%R).
  { apply (rounded_le_dyadic _ _ _ _ Rm); [lia|].
    rewrite (pow2_num_opp (-8) 256) by (reflexivity || lia).
    change (IZR (2 ^ 38 - 1)) with 274877906943%R.
    apply Rmult_le_reg_r with (IZR n); [lra|]. field_simplify; [|lra]. lra. }
  (* root <= 2^15 - 2^-24 *)
  assert (Br : (B2R (FloatOps.Prim2SF (PrimFloat.sqrt
                  (PrimFloat.div (Float64.of_Z sq) (Float64.of_Z n)))) <=
                IZR (2 ^ 39 - 1) * pow2 (-24))%R).
  { apply (rounded_le_dyadic _ _ _ _ Rr); [lia|].
    rewrite (pow2_num_opp (-24) 16777216) by (reflexivity || lia).
    rewrite (pow2_num_opp (-8) 256) in Bm by (reflexivity || lia).
    change (IZR (2 ^ 39 - 1)) with 549755813887%R.
    change (IZR (2 ^ 38 - 1)) with 274877906943%R in Bm.
    rewrite <- (sqrt_square (549755813887 * / 16777216)) by lra.
    apply sqrt_le_1_alt. lra. }
  (* over full scale <= 1 - 2^-39 *)
  assert (Bd : (B2R (FloatOps.Prim2SF (PrimFloat.div (PrimFloat.sqrt
                  (PrimFloat.div (Float64.of_Z sq) (Float64.of_Z n)))
                  (Float64.of_Z 32768))) <=
                IZR (2 ^ 39 - 1) * pow2 (-39))%R).
  { apply (rounded_le_dyadic _ _ _ _ Rd); [lia|].
    rewrite (pow2_num_opp (-24) 16777216) in Br by (reflexivity || lia).
    rewrite (pow2_num_opp (-39) 549755813888) by (reflexivity || lia).
    change (IZR (2 ^ 39 - 1)) with 549755813887%R in Br |- *.
    lra. }
  (* percent <= 100 - 2^-33 *)
  assert (Bt : (B2R (FloatOps.Prim2SF (percent sq n)) <=
                IZR (100 * 2 ^ 33 - 1) * pow2 (-33))%R).
  { apply (rounded_le_dyadic _ _ _ _ Rt); [lia|].
    rewrite (pow2_num_opp (-39) 549755813888) in Bd by (reflexivity || lia).
    rewrite (pow2_num_opp (-33) 8589934592) by (reflexivity || lia).
    change (IZR (2 ^ 39 - 1)) with 549755813887%R in Bd.
    change (IZR (100 * 2 ^ 33 - 1)) with 858993459199%R.
    lra. }
  destruct (int_percent sq n Hsq' Hn) as (u & F & _ & B).
  rewrite E in F. injection F as <-.
  rewrite (pow2_num_opp (-33) 8589934592) in Bt by (reflexivity || lia).
  change (IZR (100 * 2 ^ 33 - 1)) with 858993459199%R in Bt.
  assert (L : (IZR v < IZR 100)%R) by lra.
  apply lt_IZR in L. lia.
Qed.

End Binary64Facts.

(** ** The level of a chunk *)

Section ChunkLevel.

Import Binary64 Binary64Facts.

Lemma rms_percent_mean_square (l : list Z) :
  rms_percent (mean_square l) =
  Float64.int (percent (sum_squares l) (Z.of_nat (length l))).
Proof. reflexivity. Qed.

(** The mean square of silence is a zero, or NaN for a count that binary64
    takes for zero. *)
Lemma mean_square_of_zero (n : Z) :
  0 <= n ->
  let ms := PrimFloat.div (Float64.of_Z 0) (Float64.of_Z n) in
  FloatOps.Prim2SF ms = SpecFloat.S754_nan \/
  exists s, FloatOps.Prim2SF ms = SpecFloat.S754_zero s.
Proof.
  intros Hn ms. unfold ms. rewrite FloatAxioms.div_spec.
  pose proof (of_Z_sign_clear n Hn) as P.
  change (FloatOps.Prim2SF (Float64.of_Z 0)) with (SpecFloat.S754_zero false).
  destruct (FloatOps.Prim2SF (Float64.of_Z n)) as [s|s| |s m e]; cbn.
  - left. reflexivity.
  - right. eexists. reflexivity.
  - left. reflexivity.
  - right. eexists. reflexivity.
Qed.

Lemma rms_percent_of_zero (x : PrimFloat.float) (s : bool) :
  FloatOps.Prim2SF x = SpecFloat.S754_zero s -> rms_percent x = inr 0.
Proof.
  intros E. unfold rms_percent, Float64.int. cbv zeta.
  rewrite FloatAxioms.mul_spec, FloatAxioms.div_spec, FloatAxioms.sqrt_spec, E.
  destruct (of_Z_exact 32768 ltac:(lia)) as (M1 & e1 & -> & _).
  destruct (of_Z_exact 100 ltac:(lia)) as (M2 & e2 & -> & _).
  reflexivity.
Qed.

(** A chunk whose squares sum to zero, the empty chunk among them, reads 0. *)
Lemma compute_level_zero_sum (l : list Z) :
  sum_squares l = 0 -> compute_level l = inr 0.
Proof.
  intros E. unfold compute_level.
  destruct (0 <? Z.of_nat (length l)); [|reflexivity]. cbv zeta.
  unfold mean_square. rewrite E.
  destruct (mean_square_of_zero (Z.of_nat (length l)) ltac:(lia)) as [N|[s Z0]];
    cbv zeta in *.
  - rewrite FloatAxioms.leb_spec, N. reflexivity.
  - rewrite FloatAxioms.leb_spec, Z0.
    change (SpecFloat.SFleb (FloatOps.Prim2SF PrimFloat.zero) (SpecFloat.S754_zero s))
      with true. cbv iota.
    rewrite (rms_percent_of_zero _ s Z0). reflexivity.
Qed.

(** Whatever the chunk, a level that is emitted is between 0 and 100. *)
Lemma compute_level_range (l : list Z) (level : Z) :
  compute_level l = inr level -> 0 <= level <= 100.
Proof.
  unfold compute_level.
  destruct (0 <? Z.of_nat (length l)); [|intros [= <-]; lia]. cbv zeta.
  destruct (PrimFloat.leb PrimFloat.zero (mean_square l)); [|intros [= <-]; lia].
  destruct (rms_percent (mean_square l)) as [e|v] eqn:E; [discriminate|].
  intros [= <-].
  assert (0 <= v); [|lia].
  unfold rms_percent in E. cbv zeta in E.
  apply int_not_negative in E; [exact E|].
  rewrite FloatAxioms.mul_spec, FloatAxioms.div_spec, FloatAxioms.sqrt_spec.
  apply SFmul_not_negative; [|apply of_Z_sign_clear; lia].
  apply SFdiv_not_negative; [|apply of_Z_sign_clear; lia].
  apply SFsqrt_not_negative.
Qed.

(** On a chunk of samples with a sum of squares above zero the block goes
    through, and the clamp at 100 is idle. *)
Lemma compute_level_percent (l : list Z) :
  Forall in_int16 l -> Z.of_nat (length l) < 2 ^ 23 -> 0 < sum_squares l ->
  exists v, rms_percent (mean_square l) = inr v /\ compute_level l = inr v /\
            0 <= v <= 100.
Proof.
  intros Hl Hn Hs.
  pose proof (proj1 (sum_squares_int16 l Hl)) as B.
  assert (Hn0 : 0 < Z.of_nat (length l)).
  { destruct l; [cbn in Hs; lia | cbn [length]; lia]. }
  assert (Hsq : 0 < sum_squares l <= Z.of_nat (length l) * 2 ^ 30) by lia.
  destruct (int_percent _ _ Hsq (conj Hn0 Hn)) as (v & E & R & _).
  exists v. rewrite rms_percent_mean_square. split; [exact E|]. split; [|exact R].
  unfold compute_level.
  destruct (Z.ltb_spec 0 (Z.of_nat (length l))) as [_|]; [|lia]. cbv zeta.
  unfold mean_square at 1.
  rewrite (mean_square_leb _ _ Hsq (conj Hn0 Hn)).
  rewrite rms_percent_mean_square, E. f_equal. lia.
Qed.

(** The block never raises on the samples of a chunk. *)
Lemma compute_level_total (l : list Z) :
  Forall in_int16 l -> Z.of_nat (length l) < 2 ^ 23 ->
  exists level, compute_level l = inr level.
Proof.
  intros Hl Hn.
  destruct (Z.eq_dec (sum_squares l) 0) as [E|N].
  - exists 0. apply compute_level_zero_sum, E.
  - pose proof (sum_squares_nonneg l).
    destruct (compute_level_percent l Hl Hn ltac:(lia)) as (v & _ & E & _).
    exists v. exact E.
Qed.

Lemma rms_zero_sum (l : list Z) : sum_squares l = 0 -> rms l = 0%R.
Proof. intros E. unfold rms. rewrite E, Rdiv_0_l. apply sqrt_0. Qed.

Lemma rms_positive (l : list Z) : 0 < sum_squares l -> (0 < rms l)%R.
Proof.
  intros H. unfold rms. apply sqrt_lt_R0.
  assert (0 < Z.of_nat (length l)).
  { destruct l; [cbn in H; lia | cbn [length]; lia]. }
  apply Rdiv_lt_0_compat; apply IZR_lt; assumption.
Qed.

(** A chunk with the larger RMS amplitude has the larger level. *)
Lemma compute_level_mono (a b : list Z) (la lb : Z) :
  Forall in_int16 a -> Z.of_nat (length a) < 2 ^ 23 ->
  Forall in_int16 b -> Z.of_nat (length b) < 2 ^ 23 ->
  (rms a <= rms b)%R ->
  compute_level a = inr la -> compute_level b = inr lb -> la <= lb.
Proof.
  intros Ha Na Hb Nb H Ea Eb.
  pose proof (sum_squares_nonneg a) as Pa.
  pose proof (sum_squares_nonneg b) as Pb.
  destruct (Z.eq_dec (sum_squares a) 0) as [Za|Za].
  { rewrite (compute_level_zero_sum a Za) in Ea. injection Ea as <-.
    apply (compute_level_range b lb Eb). }
  destruct (Z.eq_dec (sum_squares b) 0) as [Zb|Zb].
  { exfalso. rewrite (rms_zero_sum b Zb) in H.
    pose proof (rms_positive a ltac:(lia)). lra. }
  destruct (compute_level_percent a Ha Na ltac:(lia)) as (va & Ra & Ca & _).
  destruct (compute_level_percent b Hb Nb ltac:(lia)) as (vb & Rb & Cb & _).
  rewrite Ca in Ea. rewrite Cb in Eb. injection Ea as <-. injection Eb as <-.
  rewrite rms_percent_mean_square in Ra, Rb.
  pose proof (proj1 (sum_squares_int16 a Ha)).
  pose proof (proj1 (sum_squares_int16 b Hb)).
  assert (0 < Z.of_nat (length a)).
  { destruct a; [cbn in Za; lia | cbn [length]; lia]. }
  assert (0 < Z.of_nat (length b)).
  { destruct b; [cbn in Zb; lia | cbn [length]; lia]. }
  apply (int_percent_mono (sum_squares a) (Z.of_nat (length a))
           (sum_squares b) (Z.of_nat (length b))); try assumption; try lia.
  unfold rms in H. apply sqrt_le_0 in H; [exact H| |].
  - apply Rlt_le, Rdiv_lt_0_compat; apply IZR_lt; lia.
  - apply Rlt_le, Rdiv_lt_0_compat; apply IZR_lt; lia.
Qed.

(** The meter reads 100 exactly on a chunk of samples that are all
    -32768. *)
Lemma compute_level_full_scale (l : list Z) :
  Forall in_int16 l -> Z.of_nat (length l) < 2 ^ 23 ->
  (compute_level l = inr 100 <-> l <> [] /\ Forall (eq (-32768)) l).
Proof.
  intros Hl Hn. split.
  - intros E.
    assert (Ne : l <> []) by (intros ->; discriminate E).
    split; [exact Ne|].
    destruct (Forall_Exists_dec (eq (-32768)) (fun x => Z.eq_dec (-32768) x) l)
      as [F|X]; [exact F|exfalso].
    assert (NF : ~ Forall (eq (-32768)) l).
    { intros F. apply Exists_Forall_neg in X; [|intros x; destruct (Z.eq_dec (-32768) x); [left|right]; assumption].
      apply X. exact F. }
    pose proof (sum_squares_below_full_scale l Hl NF) as B.
    pose proof (sum_squares_nonneg l) as P.
    destruct (Z.eq_dec (sum_squares l) 0) as [Z0|Z0].
    { rewrite (compute_level_zero_sum l Z0) in E. discriminate E. }
    destruct (compute_level_percent l Hl Hn ltac:(lia)) as (v & R & C & _).
    rewrite C in E. injection E as ->.
    rewrite rms_percent_mean_square in R.
    assert (0 < Z.of_nat (length l)).
    { destruct l; [congruence | cbn [length]; lia]. }
    pose proof (percent_below_full_scale (sum_squares l) (Z.of_nat (length l)) 100
                  ltac:(lia) (conj H Hn) R).
    lia.
  - intros [Ne F].
    pose proof (sum_squares_full_scale l F) as S.
    assert (H : 0 < Z.of_nat (length l)).
    { destruct l; [congruence | cbn [length]; lia]. }
    destruct (compute_level_percent l Hl Hn ltac:(lia)) as (v & R & C & _).
    rewrite C. f_equal.
    rewrite rms_percent_mean_square, S in R.
    rewrite (Z.mul_comm (2 ^ 30)) in R.
    rewrite (percent_full_scale _ (conj H Hn)) in R. congruence.
Qed.

End ChunkLevel.

(** What the loop emits for a healthy chunk. *)
Lemma compute_level_healthy (data : list byte) :
  Z.of_nat (length data) = CHUNK * SAMPLE_WIDTH * CHANNELS ->
  exists audio_data level,
    frombuffer data = Some audio_data /\ compute_level audio_data = inr level.
Proof.
  intros H.
  destruct (frombuffer_even data 1024) as [a Ha].
  { unfold CHUNK, SAMPLE_WIDTH, CHANNELS in H. lia. }
  destruct (frombuffer_samples data a Ha) as [L F].
  destruct (compute_level_total a F) as [level E].
  { unfold CHUNK, SAMPLE_WIDTH, CHANNELS in H. lia. }
  exists a, level. split; assumption.
Qed.

(** ** The chunk count in binary64 *)

(** For every duration the spin box allows (1 to 300 seconds), for 0 and for
    the test recording's 3, the binary64 chunk count is the exact one. *)
Lemma chunks_needed_binary64 :
  forallb (fun d => match Float64.chunks_needed d with
                    | inr n => n =? chunks_needed d
                    | inl _ => false
                    end)
          (map Z.of_nat (seq 0 301)) = true.
Proof. vm_compute. reflexivity. Qed.

(** ** WAV files *)

Module WaveFacts.
Import Wave.

Lemma le_combine_2 (z : Z) :
  le_combine [byte.of_Z z; byte.of_Z (Z.shiftr z 8)] = z mod 2 ^ 16.
Proof. exact (le_combine_split 2 z). Qed.

Lemma le_combine_4 (z : Z) :
  le_combine [byte.of_Z z; byte.of_Z (Z.shiftr z 8);
              byte.of_Z (Z.shiftr (Z.shiftr z 8) 8);
              byte.of_Z (Z.shiftr (Z.shiftr (Z.shiftr z 8) 8) 8)] = z mod 2 ^ 32.
Proof. exact (le_combine_split 4 z). Qed.

Lemma bytes_eqb_refl (a : list byte) : bytes_eqb a a = true.
Proof.
  induction a as [|x a IH]; [reflexivity|].
  simpl. rewrite IH, andb_true_r. apply Byte.byte_dec_lb. reflexivity.
Qed.

Lemma fits_L_mod (n : Z) : fits_L n = true -> n mod 2 ^ 32 = n.
Proof. unfold fits_L. intros H. apply Z.mod_small. lia. Qed.

Lemma fits_H_mod (n : Z) : fits_H n = true -> n mod 2 ^ 16 = n.
Proof. unfold fits_H. intros H. apply Z.mod_small. lia. Qed.

(** The fmt chunk laid out by the writer is read back field by field. *)
Lemma read_fmt_canonical (nchannels sampwidth framerate : Z) :
  fits_H nchannels = true -> 1 <= nchannels ->
  fits_L framerate = true ->
  1 <= sampwidth <= 4 ->
  _read_fmt_chunk (fmt_body nchannels sampwidth framerate) =
  inr {| fmt_nchannels := nchannels;
         fmt_framerate := framerate;
         fmt_sampwidth := sampwidth |}.
Proof.
  intros Hn Hn1 Hr Hs.
  unfold _read_fmt_chunk, fmt_body.
  cbv [le_split]. cbn [app length firstn skipn Nat.ltb Nat.leb].
  rewrite !le_combine_2, !le_combine_4.
  rewrite (fits_H_mod _ Hn), (fits_L_mod _ Hr).
  change (WAVE_FORMAT_PCM mod 2 ^ 16 =? WAVE_FORMAT_PCM) with true. cbv iota.
  rewrite (Z.mod_small (sampwidth * 8)) by lia.
  replace ((sampwidth * 8 + 7) / 8) with sampwidth
    by (apply Z.div_unique with (r := 7); lia).
  destruct (sampwidth =? 0) eqn:E1; [apply Z.eqb_eq in E1; lia|].
  destruct (nchannels =? 0) eqn:E2; [apply Z.eqb_eq in E2; lia|].
  reflexivity.
Qed.

Lemma chunk_loop_eof (bs : list byte) (fmt : option fmt_chunk) :
  (length bs < 8)%nat ->
  chunk_loop bs fmt = inl "fmt chunk and/or data chunk missing"%string.
Proof.
  intros H. simp chunk_loop.
  destruct (le_lt_dec 8 (length bs)); [lia|]. reflexivity.
Qed.

Lemma chunk_loop_step (bs : list byte) (fmt : option fmt_chunk) :
  (8 <= length bs)%nat ->
  chunk_loop bs fmt =
  if bytes_eqb (chunkname bs) (tag "fmt ") then
    match _read_fmt_chunk (firstn (Z.to_nat (chunksize bs)) (after_header bs)) with
    | inl e => inl e
    | inr f => chunk_loop (skip_chunk (chunksize bs) (after_header bs)) (Some f)
    end
  else if bytes_eqb (chunkname bs) (tag "data") then
    match fmt with
    | None => inl "data chunk before fmt chunk"%string
    | Some f =>
        inr {| getnchannels := fmt_nchannels f;
               getsampwidth := fmt_sampwidth f;
               getframerate := fmt_framerate f;
               getnframes := chunksize bs / (fmt_nchannels f * fmt_sampwidth f);
               data_chunk := firstn (Z.to_nat (chunksize bs)) (after_header bs) |}
    end
  else chunk_loop (skip_chunk (chunksize bs) (after_header bs)) fmt.
Proof.
  intros H. etransitivity; [apply chunk_loop_equation_1|].
  destruct (le_lt_dec 8 (length bs)); [|lia]. reflexivity.
Qed.

(** A chunk header followed by anything: name, size and what follows. *)
Lemma chunk_header_app (name : list byte) (size : Z) (rest : list byte) :
  length name = 4%nat ->
  chunkname (name ++ le_split 4 size ++ rest) = name /\
  chunksize (name ++ le_split 4 size ++ rest) = size mod 2 ^ 32 /\
  after_header (name ++ le_split 4 size ++ rest) = rest.
Proof.
  intros H.
  destruct name as [|n0 [|n1 [|n2 [|n3 [|? ?]]]]]; try discriminate.
  unfold chunkname, chunksize, after_header.
  cbv [le_split]. cbn [app firstn skipn].
  rewrite le_combine_4. auto.
Qed.

(** The reader on a canonical header followed by the data. *)
Lemma initfp_header (nchannels sampwidth framerate : Z) (data : list byte) :
  1 <= nchannels -> 1 <= sampwidth <= 4 ->
  fits_H nchannels = true -> fits_L framerate = true ->
  fits_L (36 + Z.of_nat (length data)) = true ->
  initfp (header nchannels sampwidth framerate (Z.of_nat (length data)) ++ data) =
  inr {| getnchannels := nchannels;
         getsampwidth := sampwidth;
         getframerate := framerate;
         getnframes := Z.of_nat (length data) / (nchannels * sampwidth);
         data_chunk := data |}.
Proof.
  intros Hn Hs HfH HfL Hlen.
  set (n := Z.of_nat (length data)) in *.
  assert (Hn32 : n mod 2 ^ 32 = n).
  { apply Z.mod_small. unfold fits_L in Hlen. lia. }
  assert (Hbody : length (fmt_body nchannels sampwidth framerate) = 16%nat).
  { unfold fmt_body. rewrite !length_app, !length_le_split. reflexivity. }
  unfold initfp, header.
  set (tail := tag "data" ++ le_split 4 n ++ data).
  set (inner := tag "fmt " ++ le_split 4 16 ++
                fmt_body nchannels sampwidth framerate ++ tail).
  assert (Htail : length tail = (8 + length data)%nat).
  { unfold tail. rewrite !length_app, length_le_split. reflexivity. }
  assert (Hinner : length inner = (32 + length data)%nat).
  { unfold inner. rewrite !length_app, length_le_split, Hbody, Htail.
    change (length (tag "fmt ")) with 4%nat. lia. }
  replace ((tag "RIFF" ++ le_split 4 (36 + n) ++ tag "WAVE" ++
            tag "fmt " ++ le_split 4 16 ++
            fmt_body nchannels sampwidth framerate ++
            tag "data" ++ le_split 4 n) ++ data)
    with (tag "RIFF" ++ le_split 4 (36 + n) ++ tag "WAVE" ++ inner)
    by (unfold inner, tail; rewrite <- !app_assoc; reflexivity).
  destruct (chunk_header_app (tag "RIFF") (36 + n) (tag "WAVE" ++ inner) eq_refl)
    as (E1 & E2 & E3).
  rewrite E1, E2, E3. clear E1 E2 E3.
  rewrite (fits_L_mod _ Hlen).
  replace ((length (tag "RIFF" ++ le_split 4 (36 + n) ++ tag "WAVE" ++ inner) <? 8)%nat)
    with false
    by (symmetry; apply Nat.ltb_ge; rewrite !length_app, length_le_split; simpl; lia).
  rewrite bytes_eqb_refl. cbn [negb].
  rewrite (@firstn_all2 _ (Z.to_nat (36 + n)) (tag "WAVE" ++ inner))
    by (rewrite length_app, Hinner; change (length (tag "WAVE")) with 4%nat; lia).
  change (firstn 4 (tag "WAVE" ++ inner)) with (tag "WAVE").
  change (skipn 4 (tag "WAVE" ++ inner)) with inner.
  rewrite bytes_eqb_refl. cbn [negb].
  (* the fmt chunk *)
  rewrite chunk_loop_step by lia.
  destruct (chunk_header_app (tag "fmt ") 16
              (fmt_body nchannels sampwidth framerate ++ tail) eq_refl)
    as (E1 & E2 & E3).
  fold inner in E1, E2, E3. rewrite E1, E2, E3. clear E1 E2 E3.
  rewrite bytes_eqb_refl.
  change (16 mod 2 ^ 32) with 16.
  rewrite firstn_app, firstn_all2 by lia.
  replace (Z.to_nat 16 - length (fmt_body nchannels sampwidth framerate))%nat
    with 0%nat by lia.
  rewrite firstn_O, app_nil_r.
  rewrite read_fmt_canonical by assumption.
  unfold skip_chunk. change (Z.to_nat (16 + 16 mod 2)) with 16%nat.
  rewrite skipn_app, skipn_all2 by lia.
  replace (16 - length (fmt_body nchannels sampwidth framerate))%nat
    with 0%nat by lia.
  cbn [app skipn].
  (* the data chunk *)
  rewrite chunk_loop_step by lia.
  destruct (chunk_header_app (tag "data") n data eq_refl) as (E1 & E2 & E3).
  fold tail in E1, E2, E3. rewrite E1, E2, E3. clear E1 E2 E3.
  change (bytes_eqb (tag "data") (tag "fmt ")) with false.
  rewrite bytes_eqb_refl. cbv iota.
  rewrite Hn32. cbn [fmt_nchannels fmt_sampwidth fmt_framerate].
  rewrite firstn_all2 by (unfold n; lia).
  reflexivity.
Qed.

End WaveFacts.

(** What [Wave.write] does with the recorder's constants. *)
Lemma write_recorder_format (data : list byte) :
  36 + Z.of_nat (length data) < 2 ^ 32 ->
  Wave.write CHANNELS SAMPLE_WIDTH RATE data =
  inr (Wave.header CHANNELS SAMPLE_WIDTH RATE (Z.of_nat (length data)) ++ data).
Proof.
  intros H. unfold Wave.write, CHANNELS, SAMPLE_WIDTH, RATE.
  cbn [Z.ltb Z.leb Z.compare orb Pos.compare Pos.compare_cont].
  replace (Wave.fits_L (36 + Z.of_nat (length data))) with true
    by (symmetry; unfold Wave.fits_L; lia).
  reflexivity.
Qed.

(** The file written by a saved run reads back as its payload. *)
Lemma saved_file_reads_back (payload : list byte) :
  36 + Z.of_nat (length payload) < 2 ^ 32 ->
  Wave.initfp (Wave.header CHANNELS SAMPLE_WIDTH RATE (Z.of_nat (length payload)) ++ payload) =
  inr {| Wave.getnchannels := CHANNELS;
         Wave.getsampwidth := SAMPLE_WIDTH;
         Wave.getframerate := RATE;
         Wave.getnframes := Z.of_nat (length payload) / (CHANNELS * SAMPLE_WIDTH);
         Wave.data_chunk := payload |}.
Proof.
  intros H. apply WaveFacts.initfp_header.
  - unfold CHANNELS. lia.
  - unfold SAMPLE_WIDTH. lia.
  - reflexivity.
  - reflexivity.
  - unfold Wave.fits_L. lia.
Qed.

Lemma whole_frames_concat (chunks : list (list byte)) :
  Forall whole_frames chunks -> whole_frames (concat chunks).
Proof.
  unfold whole_frames, CHANNELS, SAMPLE_WIDTH.
  induction 1 as [|c cs Hc _ IH]; [reflexivity|].
  cbn [concat]. rewrite length_app, Nat2Z.inj_add.
  rewrite Z.add_mod, Hc, IH by lia. reflexivity.
Qed.

Lemma read_fmt_positive (body : list byte) (f : Wave.fmt_chunk) :
  Wave._read_fmt_chunk body = inr f ->
  0 < Wave.fmt_nchannels f /\ 0 < Wave.fmt_sampwidth f.
Proof.
  unfold Wave._read_fmt_chunk.
  pose proof (le_combine_bound (firstn 2 (skipn 2 body))) as [B1 _].
  pose proof (le_combine_bound (firstn 2 (skipn 14 body))) as [B2 _].
  set (nchannels := le_combine (firstn 2 (skipn 2 body))) in *.
  set (bits := le_combine (firstn 2 (skipn 14 body))) in *.
  destruct (length body <? 14)%nat; [discriminate|].
  destruct (le_combine (firstn 2 body) =? Wave.WAVE_FORMAT_PCM); [|discriminate].
  destruct (length body <? 16)%nat; [discriminate|].
  destruct ((bits + 7) / 8 =? 0) eqn:E1; [discriminate|].
  destruct (nchannels =? 0) eqn:E2; [discriminate|].
  intros H. injection H as <-. cbn [Wave.fmt_nchannels Wave.fmt_sampwidth].
  apply Z.eqb_neq in E1, E2.
  split; [lia|].
  assert (0 <= (bits + 7) / 8) by (apply Z.div_pos; lia).
  lia.
Qed.

Lemma chunk_loop_positive (m : nat) : forall bs fmt wf,
  (length bs <= m)%nat ->
  (forall f, fmt = Some f -> 0 < Wave.fmt_nchannels f /\ 0 < Wave.fmt_sampwidth f) ->
  Wave.chunk_loop bs fmt = inr wf ->
  0 < Wave.getnchannels wf * Wave.getsampwidth wf.
Proof.
  induction m as [|m IH]; intros bs fmt wf Hm Hfmt.
  - rewrite WaveFacts.chunk_loop_eof by lia. discriminate.
  - destruct (le_lt_dec 8 (length bs)) as [H8|H8].
    2:{ rewrite WaveFacts.chunk_loop_eof by lia. discriminate. }
    rewrite WaveFacts.chunk_loop_step by exact H8.
    assert (Hskip : (length (Wave.skip_chunk (Wave.chunksize bs) (Wave.after_header bs))
                     <= m)%nat).
    { unfold Wave.skip_chunk, Wave.after_header. rewrite !length_skipn. lia. }
    destruct (Wave.bytes_eqb (Wave.chunkname bs) (Wave.tag "fmt ")).
    + destruct (Wave._read_fmt_chunk _) as [e|f] eqn:Ef; [discriminate|].
      apply IH; [exact Hskip|].
      intros f' [= <-]. exact (read_fmt_positive _ _ Ef).
    + destruct (Wave.bytes_eqb (Wave.chunkname bs) (Wave.tag "data")).
      * destruct fmt as [f|]; [|discriminate].
        intros [= <-]. cbn [Wave.getnchannels Wave.getsampwidth].
        destruct (Hfmt f eq_refl). nia.
      * apply IH; assumption.
Qed.

Lemma initfp_positive (content : list byte) (wf : Wave.Wave_read) :
  Wave.initfp content = inr wf ->
  0 < Wave.getnchannels wf * Wave.getsampwidth wf.
Proof.
  unfold Wave.initfp.
  destruct (length content <? 8)%nat; [discriminate|].
  destruct (negb _); [discriminate|].
  cbv zeta. destruct (negb _); [discriminate|].
  apply (chunk_loop_positive _ _ None wf (le_n _)).
  intros f [=].
Qed.

(** ** Running the monad *)

Lemma bind_return {A B} (c : M A) (k : A -> M B) (w w' : world) (a : A) :
  c w = (Return a, w') -> bind c k w = k a w'.
Proof. intros H. unfold bind. rewrite H. reflexivity. Qed.

Lemma bind_raise {A B} (c : M A) (k : A -> M B) (w w' : world) (e : string) :
  c w = (Raise e, w') -> bind c k w = (Raise e, w').
Proof. intros H. unfold bind. rewrite H. reflexivity. Qed.

Lemma bind_ret {A B} (a : A) (k : A -> M B) (w : world) :
  bind (ret a) k w = k a w.
Proof. reflexivity. Qed.

Lemma bind_gets {A B} (f : world -> A) (k : A -> M B) (w : world) :
  bind (gets f) k w = k (f w) w.
Proof. reflexivity. Qed.

Lemma bind_modify {B} (f : world -> world) (k : unit -> M B) (w : world) :
  bind (modify f) k w = k tt (f w).
Proof. reflexivity. Qed.

Lemma bind_emit {B} (e : event) (k : unit -> M B) (w : world) :
  bind (emit e) k w = k tt (set_log (log w ++ [e]) w).
Proof. reflexivity. Qed.

Lemma p_open_ok (env : environment) (input : bool) (d : option Z) (w : world) :
  open_error env input d = None ->
  p_open env input d w =
  (Return tt, let w1 := set_log (log w ++ [DeviceOpen input d]) w in
              set_open_streams (S (open_streams w1)) w1).
Proof. intros H. unfold p_open. rewrite H. reflexivity. Qed.

Lemma p_open_raise (env : environment) (input : bool) (d : option Z) (w : world)
    (e : string) :
  open_error env input d = Some e ->
  p_open env input d w = (Raise e, set_log (log w ++ [DeviceOpen input d]) w).
Proof. intros H. unfold p_open. rewrite H. reflexivity. Qed.

Lemma release_ok {B} (env : environment) (rest : M B) (w : world) :
  stop_error env = None -> close_error env = None ->
  (stop_stream env ;; close env ;; rest) w =
  rest (let w1 := set_log (log w ++ [StreamStop]) w in
        let w2 := set_log (log w1 ++ [StreamClose]) w1 in
        set_open_streams (pred (open_streams w2)) w2).
Proof.
  intros Hs Hc. unfold stop_stream, close. rewrite Hs, Hc. reflexivity.
Qed.

(** ** The recording loop on a healthy device *)

Section RecordLoop.

Variable env : environment.

Lemma after_chunks_fields (k : nat) (w : world) :
  frames (after_chunks env k w) = frames w ++ map (chunk env) (seq (reads w) k) /\
  log (after_chunks env k w) = log w ++ loop_events env (reads w) k /\
  reads (after_chunks env k w) = (reads w + k)%nat /\
  is_recording (after_chunks env k w) = is_recording w /\
  is_testing (after_chunks env k w) = is_testing w /\
  open_streams (after_chunks env k w) = open_streams w /\
  writes (after_chunks env k w) = writes w /\
  files (after_chunks env k w) = files w /\
  test_file_path (after_chunks env k w) = test_file_path w.
Proof.
  revert w. induction k as [|k IH]; intros w.
  - unfold loop_events. cbn. rewrite !app_nil_r, Nat.add_0_r. repeat split.
  - cbn [after_chunks].
    destruct (IH (chunk_step env w)) as (F & L & R & A & T & O & W & Fi & P).
    rewrite F, L, R, A, T, O, W, Fi, P. unfold loop_events. cbn.
    rewrite <- !app_assoc. cbn. repeat split. lia.
Qed.

Lemma healthy_read_step {B} (k : M B) (w : world) :
  healthy_read env (reads w) ->
  (data <- stream_read env CHUNK ;;
   modify (fun w => set_frames (frames w ++ [data]) w) ;;
   audio_data <- np_frombuffer data ;;
   level <- lift (compute_level audio_data) ;;
   emit (LevelUpdate level) ;;
   k) w = k (chunk_step env w).
Proof.
  intros (data & Hr & Hlen).
  destruct (compute_level_healthy data Hlen) as (a & level & Ha & El).
  unfold chunk_step, chunk, level_of, stream_read, np_frombuffer, lift, emit, bind,
    modify, gets, ret.
  cbn -[compute_level]. rewrite Hr. cbn -[compute_level]. rewrite Ha, El.
  reflexivity.
Qed.

Lemma record_loop_run (k : nat) : forall (n i : nat) (w : world),
  (k <= n)%nat ->
  is_recording w = true ->
  (forall j, (j < k)%nat -> stop_requested env (i + j) = false) ->
  (forall j, (j < k)%nat -> healthy_read env (reads w + j)) ->
  (k = n \/ stop_requested env (i + k) = true) ->
  record_loop env n i w =
  (Return tt, if (k <? n)%nat then stop_recording (after_chunks env k w)
              else after_chunks env k w).
Proof.
  induction k as [|k IH]; intros n i w Hkn Hrec Hstop Hread Hend.
  - destruct n as [|n].
    + reflexivity.
    + destruct Hend as [Hend|Hend]; [discriminate|].
      rewrite Nat.add_0_r in Hend.
      cbn [record_loop after_chunks]. unfold foreground. rewrite Hend.
      reflexivity.
  - destruct n as [|n]; [lia|].
    cbn [record_loop after_chunks].
    assert (H0 : stop_requested env i = false).
    { rewrite <- (Nat.add_0_r i). apply Hstop. lia. }
    unfold foreground. rewrite H0.
    assert (Hh : healthy_read env (reads w)).
    { rewrite <- (Nat.add_0_r (reads w)). apply Hread. lia. }
    rewrite bind_ret, bind_gets, Hrec. cbn [negb].
    rewrite (healthy_read_step _ w Hh).
    replace ((S k <? S n)%nat) with ((k <? n)%nat) by reflexivity.
    apply IH.
    + lia.
    + unfold chunk_step. exact Hrec.
    + intros j Hj. replace (S i + j)%nat with (i + S j)%nat by lia.
      apply Hstop. lia.
    + intros j Hj. unfold chunk_step. cbn [reads set_log set_frames set_reads].
      replace (S (reads w) + j)%nat with (reads w + S j)%nat by lia.
      apply Hread. lia.
    + destruct Hend as [Hend|Hend]; [left; lia|right].
      replace (S i + k)%nat with (i + S k)%nat by lia. exact Hend.
Qed.

End RecordLoop.

(** ** The stages of a recording run *)

Section RecordRun.

Variable env : environment.
Variable device_index duration : Z.
Variable output_path : string.

Lemma chunks_captured_spec (n i : nat) :
  (chunks_captured env n i <= n)%nat /\
  (forall j, (j < chunks_captured env n i)%nat -> stop_requested env (i + j) = false) /\
  (chunks_captured env n i = n \/
   stop_requested env (i + chunks_captured env n i) = true).
Proof.
  revert i. induction n as [|n IH]; intros i; cbn [chunks_captured].
  - split; [lia|]. split; [intros j Hj; lia | left; reflexivity].
  - destruct (stop_requested env i) eqn:E.
    + split; [lia|].
      split; [intros j Hj; lia | right; rewrite Nat.add_0_r; exact E].
    + destruct (IH (S i)) as (H1 & H2 & H3). split; [|split].
      * lia.
      * intros [|j] Hj; [rewrite Nat.add_0_r; exact E|].
        replace (i + S j)%nat with (S i + j)%nat by lia. apply H2. lia.
      * destruct H3 as [H3|H3]; [left; lia|right].
        replace (i + S (chunks_captured env n (S i)))%nat
          with (S i + chunks_captured env n (S i))%nat by lia.
        exact H3.
Qed.

Lemma chunks_captured_no_stop (n i : nat) :
  (forall j, stop_requested env j = false) -> chunks_captured env n i = n.
Proof.
  intros H. revert i. induction n as [|n IH]; intros i; cbn [chunks_captured].
  - reflexivity.
  - rewrite H, IH. reflexivity.
Qed.

Lemma chunks_captured_stop_at (n k : nat) :
  (k < n)%nat ->
  (forall j, (j < k)%nat -> stop_requested env j = false) ->
  stop_requested env k = true ->
  chunks_captured env n 0 = k.
Proof.
  intros Hk Hno Hat.
  assert (G : forall m i, (i + m = k)%nat -> forall n', (m < n')%nat ->
              chunks_captured env n' i = m).
  { induction m as [|m IH]; intros i Hi n' Hn'.
    - destruct n' as [|n']; [lia|]. cbn [chunks_captured].
      replace i with k by lia. rewrite Hat. reflexivity.
    - destruct n' as [|n']; [lia|]. cbn [chunks_captured].
      rewrite Hno by lia. f_equal. apply IH; lia. }
  apply G; lia.
Qed.

(** From the start of the thread to the end of the loop, on a healthy
    device; the rest of the body is [rest]. *)
Lemma loop_run {B} (rest : M B) (w : world) :
  open_error env true (Some device_index) = None ->
  (forall j, (j < chunks_captured env (Py.range (chunks_needed duration)) 0)%nat ->
             healthy_read env (reads w + j)) ->
  (modify (set_is_recording true) ;;
   modify (set_frames []) ;;
   p_open env true (Some device_index) ;;
   record_loop env (Py.range (chunks_needed duration)) 0 ;;
   rest) w = rest (looped env device_index duration w).
Proof.
  intros Hopen Hread.
  rewrite !bind_modify.
  rewrite (bind_return _ _ _ _ _ (p_open_ok env true _ _ Hopen)).
  fold (opened device_index w).
  destruct (chunks_captured_spec (Py.range (chunks_needed duration)) 0)
    as (Hk & Hno & Hend).
  rewrite (bind_return _ _ _ _ _
    (record_loop_run env _ _ 0 (opened device_index w) Hk eq_refl Hno Hread Hend)).
  reflexivity.
Qed.

(** ... and to the call of [_save_wav]. *)
Lemma capture_run {B} (rest : M B) (w : world) :
  open_error env true (Some device_index) = None ->
  (forall j, (j < chunks_captured env (Py.range (chunks_needed duration)) 0)%nat ->
             healthy_read env (reads w + j)) ->
  stop_error env = None ->
  close_error env = None ->
  (modify (set_is_recording true) ;;
   modify (set_frames []) ;;
   p_open env true (Some device_index) ;;
   record_loop env (Py.range (chunks_needed duration)) 0 ;;
   stop_stream env ;;
   close env ;;
   rest) w = rest (captured env device_index duration w).
Proof.
  intros Hopen Hread Hstop Hclose.
  rewrite loop_run by assumption.
  rewrite release_ok by assumption.
  reflexivity.
Qed.

Lemma looped_fields (w : world) :
  let k := chunks_captured env (Py.range (chunks_needed duration)) 0 in
  frames (looped env device_index duration w) = map (chunk env) (seq (reads w) k) /\
  log (looped env device_index duration w) =
    log w ++ DeviceOpen true (Some device_index) :: loop_events env (reads w) k /\
  open_streams (looped env device_index duration w) = S (open_streams w) /\
  files (looped env device_index duration w) = files w /\
  is_testing (looped env device_index duration w) = is_testing w /\
  test_file_path (looped env device_index duration w) = test_file_path w.
Proof.
  cbv zeta. unfold looped. cbv zeta.
  set (n := Py.range (chunks_needed duration)).
  set (k := chunks_captured env n 0).
  destruct (after_chunks_fields env k (opened device_index w))
    as (F & L & R & A & T & O & W & Fi & P).
  destruct (k <? n)%nat; unfold stop_recording;
    cbn [frames log open_streams files is_testing test_file_path set_is_recording];
    rewrite F, L, O, Fi, T, P; unfold opened; cbn; rewrite <- !app_assoc;
    repeat split.
Qed.

End RecordRun.

Section ThreadRun.

Variable env : environment.
Variable device_index duration : Z.
Variable output_path : string.

Lemma captured_fields (w : world) :
  let k := chunks_captured env (Py.range (chunks_needed duration)) 0 in
  let w' := captured env device_index duration w in
  frames w' = map (chunk env) (seq (reads w) k) /\
  log w' =
    log w ++ DeviceOpen true (Some device_index) :: loop_events env (reads w) k ++
    [StreamStop; StreamClose] /\
  open_streams w' = open_streams w /\
  files w' = files w /\
  is_testing w' = is_testing w /\
  test_file_path w' = test_file_path w.
Proof.
  cbv zeta. unfold captured.
  destruct (looped_fields env device_index duration w)
    as (F & L & O & Fi & T & P).
  unfold released.
  cbn [frames log open_streams files is_testing test_file_path set_log
       set_open_streams].
  rewrite F, L, O, Fi, T, P. rewrite <- !app_assoc. cbn. repeat split.
Qed.

Lemma save_wav_ok (w : world) (content : list byte) :
  wave_open_error env output_path = None ->
  Wave.write CHANNELS SAMPLE_WIDTH RATE (concat (frames w)) = inr content ->
  _save_wav env output_path w =
  (Return tt, set_file output_path content (wave_opened output_path w)).
Proof.
  intros Ho Hw. unfold _save_wav. rewrite Ho.
  rewrite bind_emit, bind_modify, bind_gets.
  cbn [frames set_file set_log]. rewrite Hw. reflexivity.
Qed.

Lemma save_wav_refused (w : world) (e : string) :
  wave_open_error env output_path = Some e ->
  _save_wav env output_path w =
  (Raise e, set_log (log w ++ [WaveOpen output_path "wb"]) w).
Proof. intros Ho. unfold _save_wav. rewrite Ho. reflexivity. Qed.

Lemma save_wav_unpackable (w : world) (e : string) :
  wave_open_error env output_path = None ->
  Wave.write CHANNELS SAMPLE_WIDTH RATE (concat (frames w)) = inl e ->
  _save_wav env output_path w =
  (Raise e,
   set_file output_path (Wave.abandoned CHANNELS SAMPLE_WIDTH RATE)
     (wave_opened output_path w)).
Proof.
  intros Ho Hw. unfold _save_wav. rewrite Ho.
  rewrite bind_emit, bind_modify, bind_gets.
  cbn [frames set_file set_log]. rewrite Hw. reflexivity.
Qed.

(** However [_save_wav] ends, the log grows by the [wave.open] call only
    and no stream is touched. *)
Lemma save_wav_any (w : world) :
  exists r w', _save_wav env output_path w = (r, w') /\
    log w' = log w ++ [WaveOpen output_path "wb"] /\
    open_streams w' = open_streams w.
Proof.
  destruct (wave_open_error env output_path) as [e|] eqn:Ho.
  - eexists _, _. split; [exact (save_wav_refused w e Ho)|]. split; reflexivity.
  - destruct (Wave.write CHANNELS SAMPLE_WIDTH RATE (concat (frames w)))
      as [e|content] eqn:Hw.
    + eexists _, _. split; [exact (save_wav_unpackable w e Ho Hw)|].
      split; reflexivity.
    + eexists _, _. split; [exact (save_wav_ok w content Ho Hw)|].
      split; reflexivity.
Qed.

End ThreadRun.

Lemma healthy_chunk_length (env : environment) (j : nat) :
  healthy_read env j ->
  Z.of_nat (length (chunk env j)) = CHUNK * SAMPLE_WIDTH * CHANNELS.
Proof. intros (data & Hr & Hl). unfold chunk. rewrite Hr. exact Hl. Qed.

Lemma payload_length (env : environment) (first k : nat) :
  (forall j, (j < k)%nat -> healthy_read env (first + j)) ->
  Z.of_nat (length (concat (map (chunk env) (seq first k)))) =
  Z.of_nat k * CHUNK * SAMPLE_WIDTH * CHANNELS.
Proof.
  revert first. induction k as [|k IH]; intros first H.
  - reflexivity.
  - cbn [seq map concat]. rewrite length_app, Nat2Z.inj_add, IH.
    + rewrite (healthy_chunk_length env first).
      * lia.
      * rewrite <- (Nat.add_0_r first). apply H. lia.
    + intros j Hj. replace (S first + j)%nat with (first + S j)%nat by lia.
      apply H. lia.
Qed.

Lemma count_reads_app (l1 l2 : list event) :
  count_reads (l1 ++ l2) = (count_reads l1 + count_reads l2)%nat.
Proof. unfold count_reads. rewrite filter_app, length_app. reflexivity. Qed.

Lemma count_reads_loop_events (env : environment) (first k : nat) :
  count_reads (loop_events env first k) = k.
Proof.
  revert first. induction k as [|k IH]; intros first; [reflexivity|].
  unfold loop_events in *. cbn [seq flat_map].
  rewrite count_reads_app, IH. reflexivity.
Qed.

(** A run that gets as far as a written file: healthy device, no refusal
    from the file system, a payload that fits the 32-bit length fields. *)
Lemma record_thread_saved (env : environment) (device_index duration : Z)
    (output_path : string) (w : world) :
  open_error env true (Some device_index) = None ->
  let k := chunks_captured env (Py.range (chunks_needed duration)) 0 in
  (forall j, (j < k)%nat -> healthy_read env (reads w + j)) ->
  stop_error env = None ->
  close_error env = None ->
  wave_open_error env output_path = None ->
  36 + Z.of_nat k * CHUNK * SAMPLE_WIDTH * CHANNELS < 2 ^ 32 ->
  let payload := concat (map (chunk env) (seq (reads w) k)) in
  let w' := exec (_record_thread env device_index duration output_path) w in
  outcome (_record_thread env device_index duration output_path) w = Return tt /\
  frames w' = map (chunk env) (seq (reads w) k) /\
  files w' output_path =
    Some (Wave.header CHANNELS SAMPLE_WIDTH RATE (Z.of_nat (length payload)) ++ payload) /\
  log w' =
    log w ++ DeviceOpen true (Some device_index) :: loop_events env (reads w) k ++
    [StreamStop; StreamClose; WaveOpen output_path "wb";
     RecordingComplete true ("Saved to " ++ output_path)] /\
  open_streams w' = open_streams w /\
  is_recording w' = false.
Proof.
  intros Hopen k Hread Hstop Hclose Hwave Hfit payload w'.
  destruct (captured_fields env device_index duration w)
    as (F & L & O & Fi & T & P).
  fold k in F, L.
  set (c := captured env device_index duration w) in *.
  assert (Hw : Wave.write CHANNELS SAMPLE_WIDTH RATE (concat (frames c)) =
               inr (Wave.header CHANNELS SAMPLE_WIDTH RATE
                      (Z.of_nat (length payload)) ++ payload)).
  { rewrite F. unfold payload. apply write_recorder_format.
    rewrite (payload_length env (reads w) k Hread). lia. }
  assert (Hrun : _record_thread env device_index duration output_path w =
    (Return tt,
     completed output_path
       (set_file output_path
          (Wave.header CHANNELS SAMPLE_WIDTH RATE (Z.of_nat (length payload)) ++ payload)
          (wave_opened output_path c)))).
  { unfold _record_thread, try_except, record_body. cbv zeta.
    rewrite (capture_run env device_index duration _ w Hopen Hread Hstop Hclose).
    fold c.
    rewrite (bind_return _ _ _ _ _ (save_wav_ok env output_path c _ Hwave Hw)).
    reflexivity. }
  unfold w', outcome, exec. rewrite Hrun. cbn [fst snd].
  unfold completed, wave_opened.
  cbn [frames files log open_streams is_recording set_file set_log set_is_recording].
  rewrite String.eqb_refl, F, L, O. rewrite <- !app_assoc.
  cbn [app]. repeat split.
  rewrite <- app_assoc. reflexivity.
Qed.

Lemma healthy_silent (j : nat) : healthy_read silent j.
Proof. exists (repeat Byte.x00 2048). split; reflexivity. Qed.

Lemma healthy_stopped_after (k j : nat) : healthy_read (stopped_after k) j.
Proof. exists (repeat Byte.x00 2048). split; reflexivity. Qed.

(** ** Runs on any device *)

Section AnyDevice.

Variable env : environment.
Variable device_index duration : Z.
Variable output_path : string.

Lemma finish_any (w : world) :
  exists r w' evs,
    finish env output_path w = (r, w') /\
    log w' = log w ++ evs /\
    count_reads evs = 0%nat /\
    match r with
    | Return _ => evs = [StreamStop; StreamClose; WaveOpen output_path "wb";
                         RecordingComplete true ("Saved to " ++ output_path)] /\
                  is_recording w' = false
    | Raise _ => existsb is_completion evs = false
    end.
Proof.
  unfold finish.
  destruct (stop_error env) as [e|] eqn:Hs.
  { exists (Raise e), (set_log (log w ++ [StreamStop]) w), [StreamStop].
    unfold stop_stream. rewrite Hs. repeat split. }
  destruct (close_error env) as [e|] eqn:Hc.
  { exists (Raise e),
      (set_log (log (set_log (log w ++ [StreamStop]) w) ++ [StreamClose])
         (set_log (log w ++ [StreamStop]) w)),
      [StreamStop; StreamClose].
    unfold stop_stream, close. rewrite Hs, Hc. cbn. rewrite <- app_assoc.
    repeat split. }
  rewrite release_ok by assumption.
  fold (released w).
  destruct (save_wav_any env output_path (released w)) as (r & w1 & Hrun & L & _).
  destruct r as [[]|e].
  - eexists (Return tt), _, _.
    rewrite (bind_return _ _ _ _ _ Hrun). split; [reflexivity|].
    cbn. rewrite L. unfold released. cbn. rewrite <- !app_assoc. cbn.
    repeat split.
  - exists (Raise e), w1, [StreamStop; StreamClose; WaveOpen output_path "wb"].
    rewrite (bind_raise _ _ _ _ _ Hrun). split; [reflexivity|].
    rewrite L. unfold released. cbn. rewrite <- !app_assoc. cbn.
    repeat split.
Qed.

Lemma record_loop_any (n : nat) : forall (i : nat) (w : world),
  exists r w' evs,
    record_loop env n i w = (r, w') /\
    log w' = log w ++ evs /\
    existsb is_completion evs = false.
Proof.
  induction n as [|n IH]; intros i w.
  - exists (Return tt), w, []. rewrite app_nil_r. repeat split.
  - cbn [record_loop]. unfold foreground.
    assert (G : forall w0, log w0 = log w ->
      exists r w' evs,
        (recording <- gets is_recording ;;
         if negb recording then ret tt
         else
           data <- stream_read env CHUNK ;;
           modify (fun w => set_frames (frames w ++ [data]) w) ;;
           audio_data <- np_frombuffer data ;;
           level <- lift (compute_level audio_data) ;;
           emit (LevelUpdate level) ;;
           record_loop env n (S i)) w0 = (r, w') /\
        log w' = log w ++ evs /\ existsb is_completion evs = false).
    { intros w0 H0. rewrite bind_gets.
      destruct (is_recording w0); cbn [negb].
      2:{ exists (Return tt), w0, []. rewrite app_nil_r. repeat split. exact H0. }
      unfold stream_read. unfold bind at 1. rewrite bind_emit, bind_gets, bind_modify.
      destruct (read_result env (reads _)) as [e|data].
      { eexists (Raise e), _, [StreamRead CHUNK]. split; [reflexivity|].
        cbn. rewrite H0. repeat split. }
      cbn [ret]. rewrite bind_modify.
      unfold np_frombuffer. destruct (frombuffer data) as [a|].
      2:{ eexists (Raise _), _, [StreamRead CHUNK]. split; [reflexivity|].
          cbn. rewrite H0. repeat split. }
      rewrite bind_ret. unfold lift.
      destruct (compute_level a) as [e|level].
      { eexists (Raise e), _, [StreamRead CHUNK]. split; [reflexivity|].
        cbn. rewrite H0. repeat split. }
      rewrite bind_ret, bind_emit.
      match goal with |- context [record_loop env n (S i) ?w1] =>
        destruct (IH (S i) w1) as (r & w' & evs & Hrun & L & C)
      end.
      exists r, w', (StreamRead CHUNK :: LevelUpdate level :: evs).
      split; [exact Hrun|]. split.
      - rewrite L. cbn. rewrite H0, <- !app_assoc. reflexivity.
      - cbn. exact C. }
    destruct (stop_requested env i).
    + rewrite bind_modify. apply G. reflexivity.
    + rewrite bind_ret. apply G. reflexivity.
Qed.

(** The body of the [try] on any device: it logs its completion event last
    and only when it returns. *)
Lemma record_body_any (w : world) :
  exists r w' evs,
    record_body env device_index duration output_path w = (r, w') /\
    log w' = log w ++ evs ++
             match r with
             | Return _ => [RecordingComplete true ("Saved to " ++ output_path)]
             | Raise _ => []
             end /\
    existsb is_completion evs = false /\
    (r = Return tt -> is_recording w' = false).
Proof.
  unfold record_body. cbv zeta. rewrite !bind_modify.
  destruct (open_error env true (Some device_index)) as [e|] eqn:Hopen.
  { rewrite (bind_raise _ _ _ _ _ (p_open_raise env true _ _ e Hopen)).
    eexists (Raise e), _, [DeviceOpen true (Some device_index)].
    split; [reflexivity|]. repeat split. discriminate. }
  rewrite (bind_return _ _ _ _ _ (p_open_ok env true _ _ Hopen)).
  match goal with |- context [bind (record_loop env ?n 0) _ ?w1] =>
    destruct (record_loop_any n 0 w1) as (r & w2 & evs & Hrun & L & C)
  end.
  destruct r as [[]|e].
  2:{ rewrite (bind_raise _ _ _ _ _ Hrun).
      exists (Raise e), w2, (DeviceOpen true (Some device_index) :: evs).
      split; [reflexivity|]. split; [|split].
      - rewrite L. cbn. rewrite <- !app_assoc, app_nil_r. reflexivity.
      - exact C.
      - discriminate. }
  rewrite (bind_return _ _ _ _ _ Hrun). fold (finish env output_path).
  destruct (finish_any w2) as (r & w3 & tail & Hfin & L3 & _ & Hr).
  rewrite Hfin. destruct r as [[]|e].
  - destruct Hr as [Hr Hrec].
    exists (Return tt), w3,
      (DeviceOpen true (Some device_index) :: evs ++
       [StreamStop; StreamClose; WaveOpen output_path "wb"]).
    split; [reflexivity|]. split; [|split].
    + rewrite L3, L, Hr. cbn. rewrite <- !app_assoc. reflexivity.
    + cbn. rewrite existsb_app, C. reflexivity.
    + intros _. exact Hrec.
  - exists (Raise e), w3, (DeviceOpen true (Some device_index) :: evs ++ tail).
    split; [reflexivity|]. split; [|split].
    + rewrite L3, L. cbn. rewrite <- !app_assoc, app_nil_r. reflexivity.
    + cbn. rewrite existsb_app, C, Hr. reflexivity.
    + discriminate.
Qed.

(** A read that raises in iteration [k], after [k] healthy reads. *)
Lemma record_loop_read_error (k : nat) : forall (n i : nat) (w : world) (e : string),
  (k < n)%nat ->
  is_recording w = true ->
  (forall j, (j <= k)%nat -> stop_requested env (i + j) = false) ->
  (forall j, (j < k)%nat -> healthy_read env (reads w + j)) ->
  read_result env (reads w + k) = inl e ->
  record_loop env n i w =
  (Raise e,
   let w1 := after_chunks env k w in
   set_reads (S (reads w1)) (set_log (log w1 ++ [StreamRead CHUNK]) w1)).
Proof.
  induction k as [|k IH]; intros n i w e Hkn Hrec Hstop Hread Herr.
  - destruct n as [|n]; [lia|].
    cbn [record_loop after_chunks]. unfold foreground.
    rewrite <- (Nat.add_0_r i), Hstop by lia.
    rewrite bind_ret, bind_gets, Hrec. cbn [negb].
    rewrite Nat.add_0_r in Herr.
    unfold stream_read. unfold bind at 1.
    rewrite bind_emit, bind_gets, bind_modify.
    cbn [reads set_log]. rewrite Herr. reflexivity.
  - destruct n as [|n]; [lia|].
    cbn [record_loop after_chunks]. unfold foreground.
    rewrite <- (Nat.add_0_r i) at 1. rewrite Hstop by lia.
    rewrite bind_ret, bind_gets, Hrec. cbn [negb].
    rewrite healthy_read_step
      by (rewrite <- (Nat.add_0_r (reads w)); apply Hread; lia).
    apply IH.
    + lia.
    + exact Hrec.
    + intros j Hj. replace (S i + j)%nat with (i + S j)%nat by lia.
      apply Hstop. lia.
    + intros j Hj. unfold chunk_step. cbn [reads set_log set_frames set_reads].
      replace (S (reads w) + j)%nat with (reads w + S j)%nat by lia.
      apply Hread. lia.
    + unfold chunk_step. cbn [reads set_log set_frames set_reads].
      replace (S (reads w) + k)%nat with (reads w + S k)%nat by lia.
      exact Herr.
Qed.

Lemma record_body_read_error (w : world) (k : nat) (e : string) :
  open_error env true (Some device_index) = None ->
  (k < Py.range (chunks_needed duration))%nat ->
  (forall j, (j <= k)%nat -> stop_requested env j = false) ->
  (forall j, (j < k)%nat -> healthy_read env (reads w + j)) ->
  read_result env (reads w + k) = inl e ->
  exists w',
    record_body env device_index duration output_path w = (Raise e, w') /\
    open_streams w' = S (open_streams w) /\
    log w' = log w ++ DeviceOpen true (Some device_index) ::
             loop_events env (reads w) k ++ [StreamRead CHUNK].
Proof.
  intros Hopen Hk Hstop Hread Herr.
  unfold record_body. cbv zeta. rewrite !bind_modify.
  rewrite (bind_return _ _ _ _ _ (p_open_ok env true _ _ Hopen)).
  fold (opened device_index w).
  rewrite (bind_raise _ _ _ _ _
    (record_loop_read_error k _ 0 (opened device_index w) e Hk eq_refl Hstop Hread Herr)).
  eexists. split; [reflexivity|].
  destruct (after_chunks_fields env k (opened device_index w))
    as (F & L & R & A & T & O & W & Fi & P).
  cbn [open_streams log set_reads set_log]. rewrite O, L.
  unfold opened. cbn. rewrite <- !app_assoc. split; reflexivity.
Qed.

Lemma record_body_save_refused (w : world) (e : string) :
  open_error env true (Some device_index) = None ->
  (forall j, (j < chunks_captured env (Py.range (chunks_needed duration)) 0)%nat ->
             healthy_read env (reads w + j)) ->
  stop_error env = None ->
  close_error env = None ->
  wave_open_error env output_path = Some e ->
  exists w',
    record_body env device_index duration output_path w = (Raise e, w') /\
    open_streams w' = open_streams w.
Proof.
  intros Hopen Hread Hstop Hclose Hwave.
  unfold record_body. cbv zeta.
  rewrite (capture_run env device_index duration _ w Hopen Hread Hstop Hclose).
  rewrite (bind_raise _ _ _ _ _ (save_wav_refused env output_path _ e Hwave)).
  eexists. split; [reflexivity|].
  destruct (captured_fields env device_index duration w) as (_ & _ & O & _).
  cbn [open_streams set_log]. exact O.
Qed.

End AnyDevice.

(** How the thread ends, given how the body of its [try] ends. *)
Lemma record_thread_any (env : environment) (device_index duration : Z)
    (output_path : string) (w : world) :
  let body := record_body env device_index duration output_path in
  let w' := exec (_record_thread env device_index duration output_path) w in
  outcome (_record_thread env device_index duration output_path) w = Return tt /\
  is_recording w' = false /\
  open_streams w' = open_streams (exec body w) /\
  exists evs,
    existsb is_completion evs = false /\
    log (exec body w) = log w ++ evs ++
      match outcome body w with
      | Return _ => [RecordingComplete true ("Saved to " ++ output_path)]
      | Raise _ => []
      end /\
    log w' = log w ++ evs ++
      [match outcome body w with
       | Return _ => RecordingComplete true ("Saved to " ++ output_path)
       | Raise e => RecordingComplete false ("Error: " ++ e)
       end].
Proof.
  cbv zeta.
  destruct (record_body_any env device_index duration output_path w)
    as (r & w1 & evs & Hrun & L & C & Hrec).
  unfold _record_thread, try_except, outcome, exec. rewrite Hrun.
  destruct r as [[]|e]; cbn [fst snd].
  - split; [reflexivity|]. split; [apply Hrec; reflexivity|].
    split; [reflexivity|]. exists evs. repeat split; assumption.
  - rewrite bind_modify. unfold emit, modify. cbn.
    split; [reflexivity|]. split; [reflexivity|]. split; [reflexivity|].
    exists evs. rewrite L, app_nil_r. rewrite <- app_assoc. repeat split.
    exact C.
Qed.

(** On a healthy device the log of a run is the open, the loop's events and
    a tail without reads. *)
Lemma record_thread_healthy_log (env : environment) (device_index duration : Z)
    (output_path : string) (w : world) :
  open_error env true (Some device_index) = None ->
  (forall j, healthy_read env j) ->
  exists tail,
    log (exec (_record_thread env device_index duration output_path) w) =
      log w ++ DeviceOpen true (Some device_index) ::
      loop_events env (reads w)
        (chunks_captured env (Py.range (chunks_needed duration)) 0) ++ tail /\
    count_reads tail = 0%nat.
Proof.
  intros Hopen Hread.
  unfold exec, _record_thread, try_except, record_body. cbv zeta.
  rewrite (loop_run env device_index duration _ w Hopen (fun j _ => Hread _)).
  fold (finish env output_path).
  destruct (finish_any env output_path (looped env device_index duration w))
    as (r & w3 & tail & Hfin & L3 & Cr & Hr).
  destruct (looped_fields env device_index duration w) as (_ & L & _).
  rewrite Hfin. destruct r as [[]|e]; cbn [snd].
  - exists tail. rewrite L3, L, <- app_assoc. split; [reflexivity | exact Cr].
  - exists (tail ++ [RecordingComplete false ("Error: " ++ e)]).
    rewrite bind_modify. cbn. rewrite L3, L, <- !app_assoc. split; [reflexivity|].
    rewrite count_reads_app, Cr. reflexivity.
Qed.

(** ** Playback *)

Section Playback.

Variable env : environment.

Lemma stream_write_ok (data : list byte) (w : world) :
  write_error env (writes w) = None ->
  stream_write env data w =
  (Return tt, set_writes (S (writes w)) (set_log (log w ++ [StreamWrite data]) w)).
Proof.
  intros H. unfold stream_write.
  rewrite bind_emit, bind_gets, bind_modify. cbn [writes set_log].
  rewrite H. reflexivity.
Qed.

Lemma play_loop_nil (wf : Wave.Wave_read) (w : world) :
  play_loop env wf [] w = (Return tt, w).
Proof. simp play_loop. reflexivity. Qed.

Lemma play_loop_cons (wf : Wave.Wave_read) (b : byte) (data : list byte) :
  play_loop env wf (b :: data) =
  (stream_write env (b :: data) ;;
   play_loop env (snd (Wave.readframes CHUNK wf)) (fst (Wave.readframes CHUNK wf))).
Proof. simp play_loop. reflexivity. Qed.

(** The loop, from the first [readframes] on, writes the data chunk to the
    device block by block. *)
Lemma play_from (m : nat) : forall (wf : Wave.Wave_read) (w : world),
  (forall i, write_error env i = None) ->
  (length (Wave.data_chunk wf) <= m)%nat ->
  0 < Wave.getnchannels wf * Wave.getsampwidth wf ->
  exists blocks w',
    play_loop env (snd (Wave.readframes CHUNK wf)) (fst (Wave.readframes CHUNK wf)) w =
      (Return tt, w') /\
    concat blocks = Wave.data_chunk wf /\
    log w' = log w ++ map StreamWrite blocks /\
    open_streams w' = open_streams w.
Proof.
  induction m as [|m IH]; intros wf w Hw Hm Hpos.
  - destruct (Wave.data_chunk wf) as [|b d] eqn:E; [|simpl in Hm; lia].
    unfold Wave.readframes. rewrite E. cbn [fst snd]. rewrite firstn_nil.
    rewrite play_loop_nil. exists [], w. rewrite app_nil_r. repeat split.
  - remember (Z.to_nat (CHUNK * (Wave.getnchannels wf * Wave.getsampwidth wf)))
      as n eqn:En.
    assert (Hn : (0 < n)%nat) by (subst n; unfold CHUNK; nia).
    destruct (Wave.data_chunk wf) as [|b d] eqn:E.
    { unfold Wave.readframes. rewrite E. cbn [fst snd]. rewrite firstn_nil.
      rewrite play_loop_nil. exists [], w. rewrite app_nil_r. repeat split. }
    destruct n as [|n']; [lia|].
    assert (Hfst : fst (Wave.readframes CHUNK wf) = b :: firstn n' d).
    { unfold Wave.readframes. cbn [fst]. rewrite <- En, E. reflexivity. }
    assert (Hsnd : Wave.data_chunk (snd (Wave.readframes CHUNK wf)) = skipn n' d).
    { unfold Wave.readframes. cbn [snd Wave.data_chunk]. rewrite <- En, E.
      reflexivity. }
    rewrite Hfst, play_loop_cons.
    rewrite (bind_return _ _ _ _ _ (stream_write_ok _ w (Hw _))).
    match goal with |- context [play_loop env _ _ ?w1] =>
      destruct (IH (snd (Wave.readframes CHUNK wf)) w1 Hw)
        as (blocks & w' & Hrun & Hc & L & O)
    end.
    { rewrite Hsnd, length_skipn. simpl in Hm. lia. }
    { unfold Wave.readframes. cbn [snd Wave.getnchannels Wave.getsampwidth].
      exact Hpos. }
    exists ((b :: firstn n' d) :: blocks), w'.
    split; [exact Hrun|]. split; [|split].
    + cbn [concat]. rewrite Hc, Hsnd. cbn [app]. rewrite firstn_skipn. reflexivity.
    + rewrite L. cbn. rewrite <- app_assoc. reflexivity.
    + rewrite O. reflexivity.
Qed.

End Playback.

Section PlaybackThread.

Variable env : environment.

Lemma play_thread_no_path (w : world) :
  test_file_path w = None ->
  _play_test_thread env w = (Return tt, w).
Proof.
  intros H. unfold _play_test_thread, try_except.
  rewrite bind_gets, H. reflexivity.
Qed.

Lemma play_thread_open_fails (w : world) (p : string) :
  test_file_path w = Some p ->
  (files w p = None \/
   exists content e, files w p = Some content /\ Wave.initfp content = inl e) ->
  _play_test_thread env w = (Return tt, set_log (log w ++ [WaveOpen p "rb"]) w).
Proof.
  intros Hp Hf. unfold _play_test_thread, try_except.
  rewrite bind_gets, Hp. unfold wave_open_rb.
  unfold bind at 1. rewrite bind_emit, bind_gets. cbn [files set_log].
  destruct Hf as [Hf|(content & e & Hf & Hi)]; rewrite Hf; [reflexivity|].
  rewrite Hi. reflexivity.
Qed.

Lemma wave_open_rb_ok (w : world) (p : string) (content : list byte)
    (wf : Wave.Wave_read) :
  files w p = Some content ->
  Wave.initfp content = inr wf ->
  wave_open_rb (Some p) w = (Return wf, set_log (log w ++ [WaveOpen p "rb"]) w).
Proof.
  intros Hf Hi. unfold wave_open_rb.
  rewrite bind_emit, bind_gets. cbn [files set_log]. rewrite Hf, Hi. reflexivity.
Qed.

Lemma play_thread_device_fails (w : world) (p : string) (content : list byte)
    (wf : Wave.Wave_read) (e : string) :
  test_file_path w = Some p ->
  files w p = Some content ->
  Wave.initfp content = inr wf ->
  open_error env false None = Some e ->
  _play_test_thread env w =
  (Return tt, set_log ((log w ++ [WaveOpen p "rb"]) ++ [DeviceOpen false None]) w).
Proof.
  intros Hp Hf Hi Ho. unfold _play_test_thread, try_except.
  rewrite bind_gets, Hp.
  rewrite (bind_return _ _ _ _ _ (wave_open_rb_ok w p content wf Hf Hi)).
  rewrite (bind_raise _ _ _ _ _ (p_open_raise env false None _ e Ho)).
  reflexivity.
Qed.

Lemma play_thread_plays (w : world) (p : string) (content : list byte)
    (wf : Wave.Wave_read) :
  test_file_path w = Some p ->
  files w p = Some content ->
  Wave.initfp content = inr wf ->
  open_error env false None = None ->
  (forall i, write_error env i = None) ->
  stop_error env = None ->
  close_error env = None ->
  exists blocks,
    concat blocks = Wave.data_chunk wf /\
    outcome (_play_test_thread env) w = Return tt /\
    log (exec (_play_test_thread env) w) =
      log w ++ WaveOpen p "rb" :: DeviceOpen false None ::
      map StreamWrite blocks ++ [StreamStop; StreamClose].
Proof.
  intros Hp Hf Hi Ho Hw Hs Hc.
  unfold outcome, exec, _play_test_thread, try_except.
  rewrite bind_gets, Hp.
  rewrite (bind_return _ _ _ _ _ (wave_open_rb_ok w p content wf Hf Hi)).
  rewrite (bind_return _ _ _ _ _ (p_open_ok env false None _ Ho)).
  match goal with |- context [bind (play_loop env _ _) _ ?w1] =>
    destruct (play_from env _ wf w1 Hw (le_n _) (initfp_positive content wf Hi))
      as (blocks & w' & Hrun & Hcat & L & O)
  end.
  rewrite (bind_return _ _ _ _ _ Hrun).
  unfold stop_stream, close. rewrite Hs, Hc.
  exists blocks. split; [exact Hcat|]. cbn. split; [reflexivity|].
  rewrite L. cbn. rewrite <- !app_assoc. reflexivity.
Qed.

End PlaybackThread.

(** ** Every capture thread opens the device *)

Lemma appends_ret {A} (a : A) : appends (ret a).
Proof. intros w. exists []. cbn. rewrite app_nil_r. reflexivity. Qed.

Lemma appends_raise {A} (e : string) : appends (@raise A e).
Proof. intros w. exists []. cbn. rewrite app_nil_r. reflexivity. Qed.

Lemma appends_bind {A B} (c : M A) (k : A -> M B) :
  appends c -> (forall a, appends (k a)) -> appends (bind c k).
Proof.
  intros Hc Hk w. unfold bind. destruct (Hc w) as [evs1 H1].
  destruct (c w) as [[a|e] w1]; cbn [snd] in *.
  - destruct (Hk a w1) as [evs2 H2]. exists (evs1 ++ evs2).
    rewrite H2, H1, app_assoc. reflexivity.
  - exists evs1. exact H1.
Qed.

Lemma appends_try_except {A} (c : M A) (h : string -> M A) :
  appends c -> (forall e, appends (h e)) -> appends (try_except c h).
Proof.
  intros Hc Hh w. unfold try_except. destruct (Hc w) as [evs1 H1].
  destruct (c w) as [[a|e] w1]; cbn [snd] in *.
  - exists evs1. exact H1.
  - destruct (Hh e w1) as [evs2 H2]. exists (evs1 ++ evs2).
    rewrite H2, H1, app_assoc. reflexivity.
Qed.

Lemma appends_modify (f : world -> world) :
  (forall w, log (f w) = log w) -> appends (modify f).
Proof. intros H w. exists []. cbn. rewrite H, app_nil_r. reflexivity. Qed.

Lemma appends_gets {A} (f : world -> A) : appends (gets f).
Proof. intros w. exists []. cbn. rewrite app_nil_r. reflexivity. Qed.

Lemma appends_emit (e : event) : appends (emit e).
Proof. intros w. exists [e]. reflexivity. Qed.

Ltac appends_step :=
  first
    [ apply appends_bind; [|intros ?]
    | apply appends_emit
    | apply appends_ret
    | apply appends_raise
    | apply appends_gets
    | apply appends_modify; intros ?; reflexivity ].

Lemma appends_stream_read (env : environment) (n : Z) : appends (stream_read env n).
Proof.
  unfold stream_read. repeat appends_step.
  destruct (read_result env _); appends_step.
Qed.

Lemma appends_np_frombuffer (data : list byte) : appends (np_frombuffer data).
Proof. unfold np_frombuffer. destruct (frombuffer data); appends_step. Qed.

Lemma appends_lift {A} (r : string + A) : appends (lift r).
Proof. destruct r; appends_step. Qed.

Lemma appends_stop_stream (env : environment) : appends (stop_stream env).
Proof. unfold stop_stream. appends_step; [appends_step|]. destruct (stop_error env); appends_step. Qed.

Lemma appends_close (env : environment) : appends (close env).
Proof. unfold close. appends_step; [appends_step|]. destruct (close_error env); appends_step. Qed.

Lemma appends_save_wav (env : environment) (filename : string) :
  appends (_save_wav env filename).
Proof.
  unfold _save_wav. appends_step; [appends_step|].
  destruct (wave_open_error env filename); [appends_step|].
  repeat appends_step.
  destruct (Wave.write _ _ _ _); repeat appends_step.
Qed.

Lemma appends_record_loop (env : environment) (n : nat) :
  forall i, appends (record_loop env n i).
Proof.
  induction n as [|n IH]; intros i; cbn [record_loop]; [appends_step|].
  appends_step.
  { unfold foreground. destruct (stop_requested env i); appends_step. }
  appends_step; [appends_step|].
  destruct (negb _); [appends_step|].
  appends_step; [apply appends_stream_read|].
  appends_step; [appends_step|].
  appends_step; [apply appends_np_frombuffer|].
  appends_step; [apply appends_lift|].
  appends_step; [appends_step|]. apply IH.
Qed.

Lemma appends_test_record_loop (env : environment) (n : nat) :
  appends (test_record_loop env n).
Proof.
  induction n as [|n IH]; cbn [test_record_loop]; [appends_step|].
  appends_step; [appends_step|].
  destruct (negb _); [appends_step|].
  appends_step; [apply appends_stream_read|].
  appends_step; [appends_step|].
  appends_step; [apply appends_np_frombuffer|].
  appends_step; [apply appends_lift|].
  appends_step; [appends_step|]. apply IH.
Qed.

(** The first thing either recording thread logs is its call of [p.open]. *)
Lemma record_thread_opens_device (env : environment) (device_index duration : Z)
    (output_path : string) (w : world) :
  exists rest,
    log (exec (_record_thread env device_index duration output_path) w) =
    log w ++ DeviceOpen true (Some device_index) :: rest.
Proof.
  unfold exec, _record_thread, record_body.
  set (h := fun e : string => _).
  set (tail := (record_loop env _ 0 ;; _)).
  assert (Ht : appends tail).
  { unfold tail. appends_step; [apply appends_record_loop|].
    appends_step; [apply appends_stop_stream|].
    appends_step; [apply appends_close|].
    appends_step; [apply appends_save_wav|].
    repeat appends_step. }
  assert (Hh : forall e, appends (h e)).
  { intros e. unfold h. repeat appends_step. }
  unfold try_except. rewrite !bind_modify.
  destruct (open_error env true (Some device_index)) as [e|] eqn:Hopen.
  - rewrite (bind_raise _ _ _ _ _ (p_open_raise env true _ _ e Hopen)).
    destruct (Hh e (set_log (log (set_frames [] (set_is_recording true w)) ++
                             [DeviceOpen true (Some device_index)])
                      (set_frames [] (set_is_recording true w)))) as [evs H].
    exists evs. rewrite H. cbn. rewrite <- app_assoc. reflexivity.
  - rewrite (bind_return _ _ _ _ _ (p_open_ok env true _ _ Hopen)).
    match goal with |- context [tail ?w1] => destruct (Ht w1) as [evs H] end.
    revert H. cbn [log set_log set_open_streams set_frames set_is_recording].
    destruct (tail _) as [[[]|e] w2]; cbn [snd]; intros H.
    + exists evs. rewrite H, <- app_assoc. reflexivity.
    + destruct (Hh e w2) as [evs2 H2]. exists (evs ++ evs2).
      rewrite H2, H, <- !app_assoc. reflexivity.
Qed.

Lemma test_record_thread_opens_device (env : environment) (device_index duration : Z)
    (output_path : string) (w : world) :
  exists rest,
    log (exec (_test_record_thread env device_index duration output_path) w) =
    log w ++ DeviceOpen true (Some device_index) :: rest.
Proof.
  unfold exec, _test_record_thread.
  set (h := fun e : string => _).
  set (tail := (test_record_loop env _ ;; _)).
  assert (Ht : appends tail).
  { unfold tail. appends_step; [apply appends_test_record_loop|].
    appends_step; [apply appends_stop_stream|].
    appends_step; [apply appends_close|].
    appends_step; [apply appends_save_wav|].
    repeat appends_step. }
  assert (Hh : forall e, appends (h e)).
  { intros e. unfold h. repeat appends_step. }
  unfold try_except. rewrite !bind_modify.
  destruct (open_error env true (Some device_index)) as [e|] eqn:Hopen.
  - rewrite (bind_raise _ _ _ _ _ (p_open_raise env true _ _ e Hopen)).
    destruct (Hh e (set_log (log (set_frames [] (set_is_testing true w)) ++
                             [DeviceOpen true (Some device_index)])
                      (set_frames [] (set_is_testing true w)))) as [evs H].
    exists evs. rewrite H. cbn. rewrite <- app_assoc. reflexivity.
  - rewrite (bind_return _ _ _ _ _ (p_open_ok env true _ _ Hopen)).
    match goal with |- context [tail ?w1] => destruct (Ht w1) as [evs H] end.
    revert H. cbn [log set_log set_open_streams set_frames set_is_testing].
    destruct (tail _) as [[[]|e] w2]; cbn [snd]; intros H.
    + exists evs. rewrite H, <- app_assoc. reflexivity.
    + destruct (Hh e w2) as [evs2 H2]. exists (evs ++ evs2).
      rewrite H2, H, <- !app_assoc. reflexivity.
Qed.

(** ** The window *)

Module MainWindowFacts.
Import MainWindow.

(** What the guards do reject. *)
Lemma start_recording_rejected (mkdir_error : string -> option string)
    (category : string) (w : window) :
  is_recording w = true -> start_recording mkdir_error category w = inr (w, []).
Proof. intros H. unfold start_recording. rewrite H. reflexivity. Qed.

Lemma play_test_rejected (available : bool) (w : window) :
  is_testing w || is_recording w = true -> play_test available w = (w, []).
Proof. intros H. unfold play_test. rewrite H. reflexivity. Qed.

Lemma record_test_rejected (w : window) :
  is_testing w = true \/ is_recording w = true -> record_test w = (w, []).
Proof.
  intros [H|H]; unfold record_test; rewrite H; [|rewrite orb_true_r]; reflexivity.
Qed.

Lemma count_app (kind : thread -> bool) (l1 l2 : list thread) :
  count kind (l1 ++ l2) = (count kind l1 + count kind l2)%nat.
Proof. unfold count. rewrite filter_app, length_app. reflexivity. Qed.

Lemma finish_thread_count (kind other : thread -> bool) (l l' : list thread) :
  (forall t, kind t = negb (other t)) ->
  finish_thread kind l = Some l' ->
  count kind l = S (count kind l') /\ count other l = count other l'.
Proof.
  intros Hk. revert l'. induction l as [|t l IH]; intros l'; [discriminate|].
  cbn [finish_thread]. unfold count in *. cbn [filter].
  pose proof (Hk t) as Ht.
  destruct (kind t) eqn:Kt.
  - intros [= <-]. destruct (other t); [discriminate|]. cbn. split; reflexivity.
  - destruct (finish_thread kind l) as [l0|]; [|discriminate].
    intros [= <-]. destruct (IH l0 eq_refl) as [H1 H2].
    cbn [filter]. rewrite Kt. destruct (other t); [|discriminate].
    cbn [length]. rewrite H1, H2. split; reflexivity.
Qed.

Lemma step_flags_match (h : happening) (s s' : system) :
  flags_match s -> step h s = Some s' -> flags_match s'.
Proof.
  unfold flags_match. intros [Ht Hr].
  destruct h as [|available|category|category error|success message|success message|];
    cbn [step].
  - destruct (test_record_button_enabled (win s)); [|discriminate].
    unfold record_test.
    destruct (is_testing (win s)) eqn:T, (is_recording (win s)) eqn:R; cbn [orb];
      try destruct (device_combo_data (win s));
      intros [= <-];
      cbn [win running showMessage is_testing is_recording];
      rewrite ?count_app, ?app_nil_r, ?Ht, ?Hr, ?T, ?R; cbn; split; reflexivity.
  - destruct (test_play_button_enabled (win s)); [|discriminate].
    unfold play_test.
    destruct (is_testing (win s)) eqn:T, (is_recording (win s)) eqn:R; cbn [orb];
      try destruct available;
      intros [= <-];
      cbn [win running showMessage set_test_play_button_enabled is_testing is_recording];
      rewrite ?Ht, ?Hr, ?T, ?R; split; reflexivity.
  - destruct (click_enabled category (win s)); [|discriminate].
    unfold start_recording.
    destruct (is_testing (win s)) eqn:T, (is_recording (win s)) eqn:R;
      try destruct (device_combo_data (win s));
      intros [= <-];
      cbn [win running showMessage set_ui_enabled is_testing is_recording];
      rewrite ?count_app, ?app_nil_r, ?Ht, ?Hr, ?T, ?R; cbn; split; reflexivity.
  - destruct (click_enabled category (win s)); [|discriminate].
    unfold start_recording.
    destruct (is_testing (win s)) eqn:T, (is_recording (win s)) eqn:R;
      try destruct (device_combo_data (win s));
      try discriminate;
      intros [= <-];
      cbn [win running showMessage set_ui_enabled is_testing is_recording];
      rewrite ?count_app, ?app_nil_r, ?Ht, ?Hr, ?T, ?R; cbn; split; reflexivity.
  - destruct (finish_thread is_test_thread (running s)) as [l|] eqn:F; [|discriminate].
    intros [= <-].
    destruct (finish_thread_count is_test_thread is_record_thread _ _
                (fun t => match t with TestRecordThread _ _ _ => eq_refl
                                     | RecordThread _ _ _ => eq_refl end) F)
      as [H1 H2].
    cbn [win running on_test_complete showMessage is_testing is_recording].
    rewrite <- H2, Hr. split; [|reflexivity].
    rewrite H1 in Ht. destruct (is_testing (win s)); lia.
  - destruct (finish_thread is_record_thread (running s)) as [l|] eqn:F; [|discriminate].
    intros [= <-].
    destruct (finish_thread_count is_record_thread is_test_thread _ _
                (fun t => match t with TestRecordThread _ _ _ => eq_refl
                                     | RecordThread _ _ _ => eq_refl end) F)
      as [H1 H2].
    cbn [win running on_recording_complete showMessage set_ui_enabled
         is_testing is_recording].
    rewrite <- H2, Ht. split; [reflexivity|].
    rewrite H1 in Hr. destruct (is_recording (win s)); lia.
  - destruct (timers s) as [|t rest]; [discriminate|].
    intros [= <-]. destruct t;
      cbn [win running timeout showMessage set_test_play_button_enabled
           is_testing is_recording];
      split; assumption.
Qed.

(** In every state the window can reach there is at most one thread of each
    kind: the guards keep two dataset recordings apart and two test
    recordings apart. *)
Lemma one_thread_of_each_kind (device_index : Z) (hs : list happening) (s : system) :
  run hs (started device_index) = Some s ->
  (count is_test_thread (running s) <= 1)%nat /\
  (count is_record_thread (running s) <= 1)%nat.
Proof.
  assert (G : forall hs s0 s, flags_match s0 -> run hs s0 = Some s -> flags_match s).
  { clear. induction hs as [|h hs IH]; intros s0 s H0; cbn [run].
    - intros [= <-]. exact H0.
    - destruct (step h s0) as [s1|] eqn:E; [|discriminate].
      apply IH. exact (step_flags_match h s0 s1 H0 E). }
  intros H. destruct (G hs (started device_index) s) as [Ht Hr].
  - split; reflexivity.
  - exact H.
  - rewrite Ht, Hr. destruct (is_testing (win s)), (is_recording (win s)); lia.
Qed.

End MainWindowFacts.

(** ** Relations a run preserves *)

Section Preserves.

Context (R : world -> world -> Prop) {R_preorder : PreOrder R}.

Lemma preserves_ret {A} (a : A) : preserves R (ret a).
Proof. intros w. cbn. reflexivity. Qed.

Lemma preserves_raise {A} (e : string) : preserves R (@raise A e).
Proof. intros w. cbn. reflexivity. Qed.

Lemma preserves_gets {A} (f : world -> A) : preserves R (gets f).
Proof. intros w. cbn. reflexivity. Qed.

Lemma preserves_modify (f : world -> world) :
  (forall w, R w (f w)) -> preserves R (modify f).
Proof. intros H w. cbn. apply H. Qed.

Lemma preserves_emit (e : event) :
  (forall w, R w (set_log (log w ++ [e]) w)) -> preserves R (emit e).
Proof. intros H w. cbn. apply H. Qed.

Lemma preserves_bind {A B} (c : M A) (k : A -> M B) :
  preserves R c -> (forall a, preserves R (k a)) -> preserves R (bind c k).
Proof.
  intros Hc Hk w. unfold bind. pose proof (Hc w) as H1.
  destruct (c w) as [[a|e] w1]; cbn [snd] in *.
  - transitivity w1; [exact H1 | apply Hk].
  - exact H1.
Qed.

(** What follows a [lift] runs on the value it returned. *)
Lemma preserves_bind_lift {A B} (r : string + A) (k : A -> M B) :
  (forall a, r = inr a -> preserves R (k a)) -> preserves R (bind (lift r) k).
Proof.
  intros Hk w. destruct r as [e|a]; cbn.
  - reflexivity.
  - apply (Hk a eq_refl).
Qed.

Lemma preserves_try_except {A} (c : M A) (h : string -> M A) :
  preserves R c -> (forall e, preserves R (h e)) -> preserves R (try_except c h).
Proof.
  intros Hc Hh w. unfold try_except. pose proof (Hc w) as H1.
  destruct (c w) as [[a|e] w1]; cbn [snd] in *.
  - exact H1.
  - transitivity w1; [exact H1 | apply Hh].
Qed.

End Preserves.

#[local] Instance logs_preorder (allowed : event -> bool) : PreOrder (logs allowed).
Proof.
  split.
  - intros w. exists []. rewrite app_nil_r. split; reflexivity.
  - intros w1 w2 w3 (e1 & L1 & A1) (e2 & L2 & A2). exists (e1 ++ e2).
    rewrite L2, L1, app_assoc, forallb_app, A1, A2. split; reflexivity.
Qed.

#[local] Instance keeps_file_preorder (p : string) : PreOrder (keeps_file p).
Proof.
  split.
  - intros w. reflexivity.
  - intros w1 w2 w3 H1 H2. unfold keeps_file in *. congruence.
Qed.

#[local] Instance same_recorder_preorder : PreOrder same_recorder.
Proof.
  split.
  - intros w. repeat split.
  - intros w1 w2 w3 (A1 & B1 & C1 & D1 & E1 & F1) (A2 & B2 & C2 & D2 & E2 & F2).
    unfold same_recorder. repeat split; congruence.
Qed.

(** One step through a computation; [update] settles what an assignment or
    a logged event does to the relation. *)
Tactic Notation "preserves_step" tactic3(update) :=
  first
    [ apply preserves_ret; exact _
    | apply preserves_raise; exact _
    | apply preserves_gets; exact _
    | apply preserves_bind_lift; [exact _|intros ? ?]
    | apply preserves_bind; [exact _| |intros ?]
    | apply preserves_try_except; [exact _| |intros ?]
    | apply preserves_emit; intros ?; update
    | apply preserves_modify; intros ?; update
    | match goal with
      | |- preserves _ (match ?x with _ => _ end) => destruct x
      end ].

(** ** The events of a run *)

Lemma compute_level_in_range (audio_data : list Z) (level : Z) :
  compute_level audio_data = inr level -> level_in_range level = true.
Proof.
  intros E. pose proof (compute_level_range audio_data level E).
  unfold level_in_range.
  apply andb_true_intro. split; [apply Z.leb_le | apply Z.leb_le]; lia.
Qed.

Ltac logs_update :=
  first
    [ exists []; split; [cbn; rewrite app_nil_r; reflexivity | reflexivity]
    | eexists [_]; split;
      [ reflexivity
      | cbn; rewrite ?Z.eqb_refl, ?String.eqb_refl;
        repeat match goal with
               | H : compute_level _ = inr _ |- _ =>
                   rewrite (compute_level_in_range _ _ H); clear H
               end;
        reflexivity ] ].

Ltac logs_steps := unfold foreground; repeat (preserves_step logs_update).

Section RunEvents.

Variable env : environment.
Variable device_index : Z.
Variable output_path : string.

Lemma record_loop_logs (n : nat) : forall i,
  preserves (logs (capture_event device_index output_path)) (record_loop env n i).
Proof.
  induction n as [|n IH]; intros i; cbn [record_loop].
  - logs_steps.
  - unfold stream_read, np_frombuffer. logs_steps. apply IH.
Qed.

Lemma test_record_loop_logs (n : nat) :
  preserves (logs (capture_event device_index output_path)) (test_record_loop env n).
Proof.
  induction n as [|n IH]; cbn [test_record_loop].
  - logs_steps.
  - unfold stream_read, np_frombuffer. logs_steps. apply IH.
Qed.

End RunEvents.

Lemma logs_weaken (P Q : event -> bool) (w w' : world) :
  (forall e, P e = true -> Q e = true) -> logs P w w' -> logs Q w w'.
Proof.
  intros H (evs & L & A). exists evs. split; [exact L|].
  rewrite forallb_forall in *. intros e He. apply H, A, He.
Qed.

Lemma capture_event_record_event (device_index : Z) (output_path : string) (e : event) :
  capture_event device_index output_path e = true ->
  record_event device_index output_path e = true.
Proof. destruct e; cbn; congruence. Qed.

Lemma finishes_bind {A} (allowed : event -> bool) (final : event) (Q : world -> Prop)
    (c : M A) (k : A -> M unit) :
  preserves (logs allowed) c ->
  (forall a, finishes allowed final Q (k a)) ->
  finishes allowed final Q (bind c k).
Proof.
  intros Hc Hk w. unfold bind. pose proof (Hc w) as (evs1 & L1 & A1).
  destruct (c w) as [[a|e] w1]; cbn [snd] in *.
  - pose proof (Hk a w1) as H2.
    destruct (k a w1) as [[[]|e] w2].
    + destruct H2 as [(evs2 & L2 & A2) HQ]. split; [|exact HQ].
      exists (evs1 ++ evs2). rewrite L2, L1, <- !app_assoc, forallb_app, A1, A2.
      split; reflexivity.
    + destruct H2 as (evs2 & L2 & A2). exists (evs1 ++ evs2).
      rewrite L2, L1, <- app_assoc, forallb_app, A1, A2. split; reflexivity.
  - exists evs1. split; assumption.
Qed.

Lemma finishes_final (allowed : event -> bool) (final : event) (Q : world -> Prop)
    (f : world -> world) :
  (forall w, log (f w) = log w) ->
  (forall w, Q (set_log (log (f w) ++ [final]) (f w))) ->
  finishes allowed final Q (modify f ;; emit final).
Proof.
  intros Hf HQ w. cbn. split; [|apply HQ].
  exists []. rewrite Hf. split; reflexivity.
Qed.

Section ThreadEvents.

Variable env : environment.
Variable device_index duration : Z.
Variable output_path : string.

Lemma record_body_finishes :
  finishes (capture_event device_index output_path)
    (RecordingComplete true ("Saved to " ++ output_path))
    (fun w => is_recording w = false)
    (record_body env device_index duration output_path).
Proof.
  unfold record_body. cbv zeta.
  apply finishes_bind; [logs_steps | intros _].
  apply finishes_bind; [logs_steps | intros _].
  apply finishes_bind; [unfold p_open; logs_steps | intros _].
  apply finishes_bind; [apply record_loop_logs | intros _].
  apply finishes_bind; [unfold stop_stream; logs_steps | intros _].
  apply finishes_bind; [unfold close; logs_steps | intros _].
  apply finishes_bind; [unfold _save_wav; logs_steps | intros _].
  apply finishes_final; intros w; reflexivity.
Qed.

Lemma test_record_body_finishes :
  finishes (capture_event device_index output_path)
    (TestComplete true "Test recording complete")
    (fun w => is_testing w = false)
    (test_record_body env device_index duration output_path).
Proof.
  unfold test_record_body. cbv zeta.
  apply finishes_bind; [logs_steps | intros _].
  apply finishes_bind; [logs_steps | intros _].
  apply finishes_bind; [unfold p_open; logs_steps | intros _].
  apply finishes_bind; [apply test_record_loop_logs | intros _].
  apply finishes_bind; [unfold stop_stream; logs_steps | intros _].
  apply finishes_bind; [unfold close; logs_steps | intros _].
  apply finishes_bind; [unfold _save_wav; logs_steps | intros _].
  apply finishes_final; intros w; reflexivity.
Qed.

Lemma test_record_thread_body :
  _test_record_thread env device_index duration output_path =
  try_except (test_record_body env device_index duration output_path)
    (fun e => modify (set_is_testing false) ;;
              emit (TestComplete false ("Test failed: " ++ e))).
Proof. reflexivity. Qed.

(** How the test thread ends, given how the body of its [try] ends. *)
Lemma test_record_thread_any (w : world) :
  let body := test_record_body env device_index duration output_path in
  let w' := exec (_test_record_thread env device_index duration output_path) w in
  outcome (_test_record_thread env device_index duration output_path) w = Return tt /\
  is_testing w' = false /\
  exists evs,
    forallb (capture_event device_index output_path) evs = true /\
    log w' = log w ++ evs ++
      [match outcome body w with
       | Return _ => TestComplete true "Test recording complete"
       | Raise e => TestComplete false ("Test failed: " ++ e)
       end].
Proof.
  cbv zeta. pose proof (test_record_body_finishes w) as H.
  rewrite test_record_thread_body.
  unfold try_except, outcome, exec.
  destruct (test_record_body env device_index duration output_path w) as [[[]|e] w1];
    cbn [fst snd].
  - destruct H as [(evs & L & A) HQ].
    split; [reflexivity|]. split; [exact HQ|]. exists evs. split; assumption.
  - destruct H as (evs & L & A). cbn.
    split; [reflexivity|]. split; [reflexivity|]. exists evs.
    split; [exact A|]. rewrite L, app_assoc. reflexivity.
Qed.

Lemma record_thread_logs :
  preserves (logs (record_event device_index output_path))
    (_record_thread env device_index duration output_path).
Proof.
  intros w.
  pose proof (record_body_finishes w) as H.
  unfold _record_thread, try_except.
  destruct (record_body env device_index duration output_path w) as [[[]|e] w1];
    cbn [snd].
  - destruct H as [(evs & L & A) _]. exists (evs ++ [RecordingComplete true ("Saved to " ++ output_path)]).
    split; [exact L|]. rewrite forallb_app. cbn. rewrite andb_true_r.
    rewrite forallb_forall in *. intros x Hx.
    apply capture_event_record_event, A, Hx.
  - destruct H as (evs & L & A). cbn.
    exists (evs ++ [RecordingComplete false ("Error: " ++ e)]).
    split; [rewrite L, app_assoc; reflexivity|].
    rewrite forallb_app. cbn. rewrite andb_true_r.
    rewrite forallb_forall in *. intros x Hx.
    apply capture_event_record_event, A, Hx.
Qed.

End ThreadEvents.

(** ** What playback leaves alone *)

Ltac same_recorder_update := unfold same_recorder; cbn; repeat split; reflexivity.

Section PlaybackAny.

Variable env : environment.

Lemma play_loop_preserves (R : world -> world -> Prop) {R_preorder : PreOrder R} :
  (forall data, preserves R (stream_write env data)) ->
  forall wf data, preserves R (play_loop env wf data).
Proof.
  intros Hw wf data. funelim (play_loop env wf data).
  - apply preserves_ret; exact _.
  - apply preserves_bind; [exact _ | apply Hw | intros u].
    intros w0. exact (H u w0 _ _ Hw w0).
Qed.

Lemma play_test_thread_logs : preserves (logs playback_event) (_play_test_thread env).
Proof.
  unfold _play_test_thread, wave_open_rb, p_open, stop_stream, close.
  logs_steps.
  apply play_loop_preserves; [exact _|].
  intros data. unfold stream_write. logs_steps.
Qed.

Lemma play_test_thread_same_recorder : preserves same_recorder (_play_test_thread env).
Proof.
  unfold _play_test_thread, wave_open_rb, p_open, stop_stream, close.
  repeat (preserves_step same_recorder_update).
  apply play_loop_preserves; [exact _|].
  intros data. unfold stream_write. repeat (preserves_step same_recorder_update).
Qed.

Lemma play_test_logs : preserves (logs playback_event) (play_test env).
Proof.
  unfold play_test.
  repeat first [apply play_test_thread_logs | preserves_step logs_update].
Qed.

Lemma play_test_same_recorder : preserves same_recorder (play_test env).
Proof.
  unfold play_test.
  repeat first [apply play_test_thread_same_recorder
               | preserves_step same_recorder_update].
Qed.

End PlaybackAny.

(** ** The files a recording run leaves alone *)

Ltac keeps_file_update := unfold keeps_file; cbn; reflexivity.

Section OtherFiles.

Variable env : environment.
Variable output_path p : string.
Hypothesis untouched : p <> output_path \/ wave_open_error env output_path <> None.

Lemma save_wav_keeps_file : preserves (keeps_file p) (_save_wav env output_path).
Proof.
  unfold _save_wav.
  apply preserves_bind; [exact _ | preserves_step keeps_file_update | intros _].
  destruct (wave_open_error env output_path) as [e|] eqn:E.
  - preserves_step keeps_file_update.
  - destruct untouched as [Hp|Hr]; [|congruence].
    apply String.eqb_neq in Hp.
    repeat (preserves_step (unfold keeps_file; cbn; rewrite ?Hp; reflexivity)).
Qed.

Lemma record_loop_keeps_file (n : nat) : forall i,
  preserves (keeps_file p) (record_loop env n i).
Proof.
  induction n as [|n IH]; intros i; cbn [record_loop].
  - preserves_step keeps_file_update.
  - unfold foreground, stream_read, np_frombuffer.
    repeat (preserves_step keeps_file_update). apply IH.
Qed.

Lemma test_record_loop_keeps_file (n : nat) :
  preserves (keeps_file p) (test_record_loop env n).
Proof.
  induction n as [|n IH]; cbn [test_record_loop].
  - preserves_step keeps_file_update.
  - unfold stream_read, np_frombuffer.
    repeat (preserves_step keeps_file_update). apply IH.
Qed.

Lemma record_thread_keeps_file (device_index duration : Z) :
  preserves (keeps_file p) (_record_thread env device_index duration output_path).
Proof.
  unfold _record_thread, record_body, p_open, stop_stream, close. cbv zeta.
  repeat first [apply record_loop_keeps_file | apply save_wav_keeps_file
               | preserves_step keeps_file_update].
Qed.

Lemma test_record_thread_keeps_file (device_index duration : Z) :
  preserves (keeps_file p) (_test_record_thread env device_index duration output_path).
Proof.
  unfold _test_record_thread, p_open, stop_stream, close. cbv zeta.
  repeat first [apply test_record_loop_keeps_file | apply save_wav_keeps_file
               | preserves_step keeps_file_update].
Qed.

End OtherFiles.

(** ** The test recording on a healthy device *)

Section TestRun.

Variable env : environment.
Variable device_index duration : Z.
Variable output_path : string.

Lemma test_record_loop_run (n : nat) : forall (w : world),
  is_testing w = true ->
  (forall j, (j < n)%nat -> healthy_read env (reads w + j)) ->
  test_record_loop env n w = (Return tt, after_chunks env n w).
Proof.
  induction n as [|n IH]; intros w Ht Hread; [reflexivity|].
  cbn [test_record_loop after_chunks].
  rewrite bind_gets, Ht. cbn [negb].
  rewrite healthy_read_step
    by (rewrite <- (Nat.add_0_r (reads w)); apply Hread; lia).
  apply IH.
  - exact Ht.
  - intros j Hj. unfold chunk_step. cbn [reads set_log set_frames set_reads].
    replace (S (reads w) + j)%nat with (reads w + S j)%nat by lia.
    apply Hread. lia.
Qed.

Lemma test_captured_fields (k : nat) (w : world) :
  let w' := test_captured env device_index k w in
  frames w' = map (chunk env) (seq (reads w) k) /\
  log w' =
    log w ++ DeviceOpen true (Some device_index) :: loop_events env (reads w) k ++
    [StreamStop; StreamClose] /\
  open_streams w' = open_streams w /\
  files w' = files w /\
  is_recording w' = is_recording w /\
  is_testing w' = true /\
  test_file_path w' = test_file_path w /\
  writes w' = writes w /\
  reads w' = (reads w + k)%nat.
Proof.
  cbv zeta. unfold test_captured. cbv zeta.
  match goal with |- context [after_chunks env k ?w0] =>
    set (o := w0);
    destruct (after_chunks_fields env k o) as (F & L & R & A & T & O & W & Fi & P)
  end.
  unfold released.
  cbn [frames log open_streams files is_recording is_testing test_file_path writes
       reads set_log set_open_streams].
  rewrite F, L, R, A, T, O, W, Fi, P. unfold o. cbn. rewrite <- !app_assoc. cbn.
  repeat split.
Qed.

(** A test recording that gets as far as a written file. *)
Lemma test_record_thread_saved (w : world) :
  open_error env true (Some device_index) = None ->
  let k := Py.range (chunks_needed duration) in
  (forall j, (j < k)%nat -> healthy_read env (reads w + j)) ->
  stop_error env = None ->
  close_error env = None ->
  wave_open_error env output_path = None ->
  36 + Z.of_nat k * CHUNK * SAMPLE_WIDTH * CHANNELS < 2 ^ 32 ->
  let payload := concat (map (chunk env) (seq (reads w) k)) in
  let w' := exec (_test_record_thread env device_index duration output_path) w in
  outcome (_test_record_thread env device_index duration output_path) w = Return tt /\
  frames w' = map (chunk env) (seq (reads w) k) /\
  files w' output_path =
    Some (Wave.header CHANNELS SAMPLE_WIDTH RATE (Z.of_nat (length payload)) ++ payload) /\
  log w' =
    log w ++ DeviceOpen true (Some device_index) :: loop_events env (reads w) k ++
    [StreamStop; StreamClose; WaveOpen output_path "wb";
     TestComplete true "Test recording complete"] /\
  open_streams w' = open_streams w /\
  is_testing w' = false /\
  is_recording w' = is_recording w /\
  test_file_path w' = test_file_path w /\
  writes w' = writes w.
Proof.
  intros Hopen k Hread Hstop Hclose Hwave Hfit payload w'.
  destruct (test_captured_fields k w) as (F & L & O & Fi & A & T & P & W & R).
  set (c := test_captured env device_index k w) in *.
  assert (Hw : Wave.write CHANNELS SAMPLE_WIDTH RATE (concat (frames c)) =
               inr (Wave.header CHANNELS SAMPLE_WIDTH RATE
                      (Z.of_nat (length payload)) ++ payload)).
  { rewrite F. unfold payload. apply write_recorder_format.
    rewrite (payload_length env (reads w) k Hread). lia. }
  assert (Hrun : _test_record_thread env device_index duration output_path w =
    (Return tt,
     let w1 := set_is_testing false
       (set_file output_path
          (Wave.header CHANNELS SAMPLE_WIDTH RATE (Z.of_nat (length payload)) ++ payload)
          (wave_opened output_path c)) in
     set_log (log w1 ++ [TestComplete true "Test recording complete"]) w1)).
  { unfold _test_record_thread, try_except. cbv zeta.
    rewrite !bind_modify.
    rewrite (bind_return _ _ _ _ _ (p_open_ok env true _ _ Hopen)).
    match goal with |- context [bind (test_record_loop env _) _ ?w1] =>
      rewrite (bind_return _ _ _ _ _ (test_record_loop_run k w1 eq_refl Hread))
    end.
    rewrite release_ok by assumption.
    change (released (after_chunks env k _)) with c.
    rewrite (bind_return _ _ _ _ _ (save_wav_ok env output_path c _ Hwave Hw)).
    reflexivity. }
  unfold w', outcome, exec. rewrite Hrun. cbn [fst snd]. cbv zeta.
  unfold wave_opened.
  cbn [frames files log open_streams is_recording is_testing test_file_path writes
       set_file set_log set_is_testing].
  rewrite String.eqb_refl, F, L, O, A, P, W. rewrite <- !app_assoc.
  cbn [app]. repeat split.
  rewrite <- app_assoc. reflexivity.
Qed.

End TestRun.

(** ** Playing back what was captured *)

Section PlayChunks.

Variable env : environment.
Hypothesis writes_ok : forall i, write_error env i = None.

(** A data chunk made of blocks of [CHUNK] frames each is written to the
    device block by block. *)
Lemma play_chunks (chunks : list (list byte)) : forall (wf : Wave.Wave_read) (w : world),
  Wave.data_chunk wf = concat chunks ->
  Forall (fun c => Z.of_nat (length c) =
                   CHUNK * (Wave.getnchannels wf * Wave.getsampwidth wf)) chunks ->
  0 < Wave.getnchannels wf * Wave.getsampwidth wf ->
  exists w',
    play_loop env (snd (Wave.readframes CHUNK wf)) (fst (Wave.readframes CHUNK wf)) w =
      (Return tt, w') /\
    log w' = log w ++ map StreamWrite chunks /\
    open_streams w' = open_streams w.
Proof.
  induction chunks as [|c cs IH]; intros wf w Hd Hlen Hpos.
  - unfold Wave.readframes. rewrite Hd. cbn [concat fst snd]. rewrite firstn_nil.
    rewrite play_loop_nil. exists w. rewrite app_nil_r. split; [|split]; reflexivity.
  - inversion Hlen as [|c0 cs0 Hc Hcs]; subst c0 cs0.
    set (n := Z.to_nat (CHUNK * (Wave.getnchannels wf * Wave.getsampwidth wf))).
    assert (Hn : length c = n) by (unfold n; lia).
    assert (Hfst : fst (Wave.readframes CHUNK wf) = c).
    { unfold Wave.readframes. cbn [fst]. fold n. rewrite Hd. cbn [concat].
      rewrite firstn_app, <- Hn, firstn_all, Nat.sub_diag, firstn_O, app_nil_r.
      reflexivity. }
    assert (Hsnd : Wave.data_chunk (snd (Wave.readframes CHUNK wf)) = concat cs).
    { unfold Wave.readframes. cbn [snd Wave.data_chunk]. fold n. rewrite Hd.
      cbn [concat]. rewrite skipn_app, <- Hn, skipn_all, Nat.sub_diag. reflexivity. }
    rewrite Hfst.
    destruct c as [|b c'].
    { exfalso. cbn [length] in Hc. unfold CHUNK in Hc. lia. }
    rewrite play_loop_cons.
    rewrite (bind_return _ _ _ _ _ (stream_write_ok env _ w (writes_ok _))).
    match goal with |- context [play_loop env _ _ ?w1] =>
      destruct (IH (snd (Wave.readframes CHUNK wf)) w1 Hsnd) as (w' & Hrun & L & O)
    end.
    { unfold Wave.readframes. cbn [snd Wave.getnchannels Wave.getsampwidth].
      exact Hcs. }
    { unfold Wave.readframes. cbn [snd Wave.getnchannels Wave.getsampwidth].
      exact Hpos. }
    exists w'. split; [exact Hrun|]. split.
    + rewrite L. cbn. rewrite <- app_assoc. reflexivity.
    + rewrite O. reflexivity.
Qed.

Lemma play_thread_plays_chunks (w : world) (p : string) (content : list byte)
    (wf : Wave.Wave_read) (chunks : list (list byte)) :
  test_file_path w = Some p ->
  files w p = Some content ->
  Wave.initfp content = inr wf ->
  Wave.data_chunk wf = concat chunks ->
  Forall (fun c => Z.of_nat (length c) =
                   CHUNK * (Wave.getnchannels wf * Wave.getsampwidth wf)) chunks ->
  open_error env false None = None ->
  stop_error env = None ->
  close_error env = None ->
  outcome (_play_test_thread env) w = Return tt /\
  log (exec (_play_test_thread env) w) =
    log w ++ WaveOpen p "rb" :: DeviceOpen false None ::
    map StreamWrite chunks ++ [StreamStop; StreamClose] /\
  open_streams (exec (_play_test_thread env) w) = open_streams w.
Proof.
  intros Hp Hf Hi Hd Hlen Ho Hs Hc.
  unfold outcome, exec, _play_test_thread, try_except.
  rewrite bind_gets, Hp.
  rewrite (bind_return _ _ _ _ _ (wave_open_rb_ok w p content wf Hf Hi)).
  rewrite (bind_return _ _ _ _ _ (p_open_ok env false None _ Ho)).
  match goal with |- context [bind (play_loop env _ _) _ ?w1] =>
    destruct (play_chunks chunks wf w1 Hd Hlen (initfp_positive content wf Hi))
      as (w' & Hrun & L & O)
  end.
  rewrite (bind_return _ _ _ _ _ Hrun).
  unfold stop_stream, close. rewrite Hs, Hc. cbn.
  split; [reflexivity|]. rewrite L, O. cbn. rewrite <- !app_assoc.
  split; reflexivity.
Qed.

End PlayChunks.
(** ** The window's controls and file names *)

Section WindowFacts.
Import MainWindow.

Lemma step_controls_follow_flags (h : happening) (s s' : system) :
  controls_follow_flags (win s) -> step h s = Some s' ->
  controls_follow_flags (win s').
Proof.
  unfold controls_follow_flags. intros (H1 & H2 & H3 & H4 & H5).
  destruct h as [|available|category|category error|success message|success message|];
    cbn [step].
  - destruct (test_record_button_enabled (win s)); [|discriminate].
    unfold record_test.
    destruct (is_testing (win s)) eqn:T, (is_recording (win s)) eqn:R; cbn [orb];
      try destruct (device_combo_data (win s));
      intros [= <-]; cbn; rewrite ?T, ?R; repeat split; auto.
  - destruct (test_play_button_enabled (win s)); [|discriminate].
    unfold play_test.
    destruct (is_testing (win s)) eqn:T, (is_recording (win s)) eqn:R; cbn [orb];
      try destruct available;
      intros [= <-]; cbn; rewrite ?T, ?R; repeat split; auto.
  - destruct (click_enabled category (win s)); [|discriminate].
    unfold start_recording.
    destruct (is_recording (win s)) eqn:R;
      try destruct (device_combo_data (win s));
      intros [= <-]; cbn; rewrite ?R; repeat split; auto.
  - destruct (click_enabled category (win s)); [|discriminate].
    unfold start_recording.
    destruct (is_recording (win s)) eqn:R;
      try destruct (device_combo_data (win s));
      try discriminate;
      intros [= <-]; cbn; rewrite ?R; repeat split; auto.
  - destruct (finish_thread is_test_thread (running s)); [|discriminate].
    intros [= <-]. cbn. repeat split; auto.
  - destruct (finish_thread is_record_thread (running s)); [|discriminate].
    intros [= <-]. cbn. repeat split; auto.
  - destruct (timers s) as [|t rest]; [discriminate|].
    intros [= <-]. destruct t; cbn; repeat split; auto.
Qed.

Lemma run_invariant (I : system -> Prop) :
  (forall h s s', I s -> step h s = Some s' -> I s') ->
  forall hs s s', I s -> run hs s = Some s' -> I s'.
Proof.
  intros Hstep. induction hs as [|h hs IH]; intros s s' H0; cbn [run].
  - intros [= <-]. exact H0.
  - destruct (step h s) as [s1|] eqn:E; [|discriminate].
    apply IH. exact (Hstep h s s1 H0 E).
Qed.

Lemma append_inj_l (p a b : string) : (p ++ a = p ++ b)%string -> a = b.
Proof.
  induction p as [|c p IH]; cbn; [auto|]. intros [= H]. auto.
Qed.

Lemma append_inj_r (c : string) : forall a b : string,
  (a ++ c = b ++ c)%string -> a = b.
Proof.
  induction a as [|x a IH]; intros [|y b] H.
  - reflexivity.
  - apply (f_equal String.length) in H. cbn in H. rewrite String.app_length in H. lia.
  - apply (f_equal String.length) in H. cbn in H. rewrite String.app_length in H. lia.
  - cbn in H. injection H as -> H. f_equal. apply IH, H.
Qed.

Lemma string_of_int_inj (a b : Z) :
  NilEmpty.string_of_int (Z.to_int a) = NilEmpty.string_of_int (Z.to_int b) -> a = b.
Proof.
  intros H. apply DecimalZ.to_int_inj.
  apply (f_equal NilEmpty.int_of_string) in H.
  rewrite !NilEmpty.isi in H. congruence.
Qed.

Lemma filename_index (w1 w2 : window) :
  prefix_input_text w1 = prefix_input_text w2 ->
  filename w1 = filename w2 -> current_index w1 = current_index w2.
Proof.
  unfold filename. intros -> H. cbv zeta in H.
  apply append_inj_l, append_inj_l, append_inj_r in H.
  exact (string_of_int_inj _ _ H).
Qed.

End WindowFacts.

(** ** Paths of plain components *)

Section PathFacts.

Lemma split_no_slash (s : string) : no_slash s = true -> Path.split s = [s].
Proof.
  induction s as [|c s IH]; [reflexivity|].
  cbn [no_slash Path.split]. destruct (Ascii.eqb c "/"%char); [discriminate|].
  cbn [negb andb]. intros H. rewrite (IH H). reflexivity.
Qed.

Lemma of_string_plain (s : string) :
  plain s -> Path.of_string s = {| Path.root := ""; Path.parts := [s] |}.
Proof.
  intros (N0 & N1 & S). unfold Path.of_string. rewrite (split_no_slash s S).
  cbn [filter].
  destruct (String.eqb_spec s "") as [E|_]; [contradiction|].
  destruct (String.eqb_spec s ".") as [E|_]; [contradiction|].
  cbn [negb andb]. f_equal.
  destruct s as [|c1 s]; [reflexivity|].
  cbn [no_slash] in S. unfold Path.root_of.
  destruct (Ascii.eqb c1 "/"%char); [discriminate S|].
  destruct s as [|c2 [|c3 s]]; reflexivity.
Qed.

Lemma truediv_plain (p : Path.PurePath) (s : string) :
  plain s ->
  Path.truediv p s = {| Path.root := Path.root p; Path.parts := Path.parts p ++ [s] |}.
Proof.
  intros H. unfold Path.truediv. rewrite (of_string_plain s H). reflexivity.
Qed.

Lemma no_slash_app (a b : string) :
  no_slash (a ++ b) = no_slash a && no_slash b.
Proof.
  induction a as [|c a IH]; [reflexivity|].
  cbn [append no_slash]. rewrite IH, andb_assoc. reflexivity.
Qed.

Lemma no_slash_string_of_uint (d : Decimal.uint) :
  no_slash (NilEmpty.string_of_uint d) = true.
Proof. induction d; cbn; assumption || reflexivity. Qed.

Lemma no_slash_string_of_int (z : Z) :
  no_slash (NilEmpty.string_of_int (Z.to_int z)) = true.
Proof.
  destruct (Z.to_int z) as [d|d]; cbn [NilEmpty.string_of_int no_slash];
    [|cbn]; apply no_slash_string_of_uint.
Qed.

(** A prefix without a slash makes a plain file name. *)
Lemma filename_plain (w : MainWindow.window) :
  no_slash (MainWindow.prefix_input_text w) = true -> plain (MainWindow.filename w).
Proof.
  intros H. unfold MainWindow.filename. cbv zeta.
  set (prefix := if String.eqb _ "" then _ else _).
  assert (P : no_slash prefix = true).
  { unfold prefix. destruct (String.eqb _ ""); [reflexivity | exact H]. }
  assert (L : (5 <= String.length
                 (prefix ++ "_" ++ NilEmpty.string_of_int
                    (Z.to_int (MainWindow.current_index w)) ++ ".wav"))%nat).
  { rewrite !String.app_length. cbn [String.length]. lia. }
  split; [|split].
  - intros E. rewrite E in L. cbn in L. lia.
  - intros E. rewrite E in L. cbn in L. lia.
  - rewrite !no_slash_app, P, no_slash_string_of_int. reflexivity.
Qed.

(** [output/<category>/<file name>], for plain components. *)
Lemma output_path_plain (category filename : string) :
  plain category -> plain filename ->
  Path.str (Path.truediv (Path.truediv (Path.of_string "output") category) filename) =
  ("output/" ++ category ++ "/" ++ filename)%string.
Proof.
  intros Hc Hf. rewrite (truediv_plain _ category Hc), (truediv_plain _ filename Hf).
  reflexivity.
Qed.

End PathFacts.

(** ** Device enumeration *)

Section DeviceFacts.
Import Devices.

Variable host : list device_info.

Lemma get_device_list_flat_map :
  get_device_list host = flat_map (device_entry host) (seq 0 (length host)).
Proof.
  unfold get_device_list.
  assert (G : forall l acc,
    fold_left
      (fun devices i =>
         match nth_error host i with
         | Some info =>
             if 0 <? maxInputChannels info then
               devices ++ [{| index := Z.of_nat i;
                              name := info_name info;
                              channels := maxInputChannels info |}]
             else devices
         | None => devices
         end) l acc =
    acc ++ flat_map (device_entry host) l).
  { induction l as [|i l IH]; intros acc; cbn [fold_left flat_map].
    - rewrite app_nil_r. reflexivity.
    - rewrite IH. unfold device_entry at 2.
      destruct (nth_error host i) as [info|]; [|reflexivity].
      destruct (0 <? maxInputChannels info); [|reflexivity].
      rewrite <- app_assoc. reflexivity. }
  apply G.
Qed.

Lemma in_entry (i : nat) (d : device) :
  In d (device_entry host i) <->
  exists info, nth_error host i = Some info /\ 0 < maxInputChannels info /\
    d = {| index := Z.of_nat i; name := info_name info;
           channels := maxInputChannels info |}.
Proof.
  unfold device_entry. destruct (nth_error host i) as [info|].
  - destruct (0 <? maxInputChannels info) eqn:E.
    + apply Z.ltb_lt in E. split.
      * intros [<-|[]]. exists info. repeat split. exact E.
      * intros (info' & [= <-] & _ & ->). left. reflexivity.
    + apply Z.ltb_ge in E. split; [intros []|].
      intros (info' & [= <-] & H & _). lia.
  - split; [intros [] | intros (info & H & _); discriminate].
Qed.

Lemma in_get_device_list (d : device) :
  In d (get_device_list host) <->
  exists i info, nth_error host i = Some info /\ 0 < maxInputChannels info /\
    d = {| index := Z.of_nat i; name := info_name info;
           channels := maxInputChannels info |}.
Proof.
  rewrite get_device_list_flat_map, in_flat_map. split.
  - intros (i & _ & H). apply in_entry in H. exists i. exact H.
  - intros (i & info & H). exists i. split.
    + apply in_seq. destruct H as (H & _).
      assert (i < length host)%nat by (apply nth_error_Some; congruence). lia.
    + apply in_entry. exists info. exact H.
Qed.

Lemma indices_sorted (a n : nat) :
  StronglySorted Z.lt (map index (flat_map (device_entry host) (seq a n))).
Proof.
  revert a. induction n as [|n IH]; intros a; cbn [seq flat_map].
  - constructor.
  - rewrite map_app.
    assert (Hrest : Forall (Z.lt (Z.of_nat a))
                      (map index (flat_map (device_entry host) (seq (S a) n)))).
    { apply Forall_forall. intros z Hz. apply in_map_iff in Hz.
      destruct Hz as (d & <- & Hd). apply in_flat_map in Hd.
      destruct Hd as (i & Hi & Hd). apply in_seq in Hi.
      apply in_entry in Hd. destruct Hd as (info & _ & _ & ->). cbn. lia. }
    unfold device_entry at 1. destruct (nth_error host a) as [info|]; [|apply IH].
    destruct (0 <? maxInputChannels info); [|apply IH].
    cbn [map app index]. constructor; [apply IH | exact Hrest].
Qed.

Lemma no_input_device :
  (forall info, In info host -> maxInputChannels info <= 0) ->
  get_device_list host = [].
Proof.
  intros H. destruct (get_device_list host) as [|d l] eqn:E; [reflexivity|].
  assert (Hd : In d (get_device_list host)) by (rewrite E; left; reflexivity).
  apply in_get_device_list in Hd. destruct Hd as (i & info & Hn & Hc & _).
  apply nth_error_In in Hn. specialize (H info Hn). lia.
Qed.

End DeviceFacts.

Lemma first_input_device (before after : list Devices.device_info)
    (info : Devices.device_info) :
  (forall x, In x before -> Devices.maxInputChannels x <= 0) ->
  0 < Devices.maxInputChannels info ->
  exists rest,
    Devices.get_device_list (before ++ info :: after) =
    {| Devices.index := Z.of_nat (length before);
       Devices.name := Devices.info_name info;
       Devices.channels := Devices.maxInputChannels info |} :: rest.
Proof.
  intros Hb Hi. rewrite get_device_list_flat_map.
  rewrite length_app. cbn [length].
  rewrite seq_app, flat_map_app. cbn [Nat.add seq flat_map].
  set (host := before ++ info :: after).
  assert (Hnil : forall l, (forall i, In i l -> device_entry host i = []) ->
                 flat_map (device_entry host) l = []).
  { induction l as [|i l IH]; intros H; [reflexivity|]. cbn [flat_map].
    rewrite (H i (or_introl eq_refl)), IH; [reflexivity|].
    intros j Hj. apply H. right. exact Hj. }
  rewrite Hnil.
  2:{ intros i Hs. apply in_seq in Hs. unfold device_entry, host.
      rewrite nth_error_app1 by lia.
      destruct (nth_error before i) as [x|] eqn:E; [|reflexivity].
      apply nth_error_In in E. specialize (Hb x E).
      destruct (0 <? Devices.maxInputChannels x) eqn:E0; [|reflexivity].
      apply Z.ltb_lt in E0. lia. }
  cbn [app]. unfold device_entry at 1, host.
  rewrite nth_error_app2, Nat.sub_diag by lia. cbn [nth_error].
  apply Z.ltb_lt in Hi. rewrite Hi. cbn [app]. eexists. reflexivity.
Qed.

(** ** One recording after another *)

Lemma record_thread_reads (env : environment) (device_index duration : Z)
    (output_path : string) (w : world) :
  open_error env true (Some device_index) = None ->
  let k := chunks_captured env (Py.range (chunks_needed duration)) 0 in
  (forall j, (j < k)%nat -> healthy_read env (reads w + j)) ->
  stop_error env = None ->
  close_error env = None ->
  reads (exec (_record_thread env device_index duration output_path) w) =
  (reads w + k)%nat.
Proof.
  intros Hopen k Hread Hstop Hclose.
  assert (Hc : reads (captured env device_index duration w) = (reads w + k)%nat).
  { unfold captured, released, looped. cbv zeta. fold k.
    destruct (after_chunks_fields env k (opened device_index w))
      as (_ & _ & R & _).
    destruct (k <? Py.range (chunks_needed duration))%nat;
      cbn [reads set_log set_open_streams stop_recording set_is_recording];
      rewrite R; reflexivity. }
  unfold exec, _record_thread, try_except, record_body. cbv zeta.
  rewrite (capture_run env device_index duration _ w Hopen Hread Hstop Hclose).
  set (c := captured env device_index duration w) in *.
  unfold _save_wav. destruct (wave_open_error env output_path) as [e|].
  - cbn. exact Hc.
  - unfold bind, emit, modify, gets, raise. cbn -[Wave.write].
    destruct (Wave.write CHANNELS SAMPLE_WIDTH RATE _) as [e|content];
      cbn; exact Hc.
Qed.

(** * Part IV: the claims *)

(** C1. A capture run at 48000 Hz with 1024-frame chunks and a duration of
    D seconds that is not cancelled appends floor(48000 * D / 1024) chunks to
    the frame list, and the payload of the WAV file written by [_save_wav]
    has chunks * 1024 * sample width * channel count bytes. *)
Theorem record_thread_chunk_count (env : environment) (device_index duration : Z)
    (output_path : string) (w : world) :
  0 <= duration ->
  open_error env true (Some device_index) = None ->
  (forall j, healthy_read env j) ->
  stop_error env = None ->
  close_error env = None ->
  wave_open_error env output_path = None ->
  (forall i, stop_requested env i = false) ->
  36 + RATE * duration / CHUNK * CHUNK * SAMPLE_WIDTH * CHANNELS < 2 ^ 32 ->
  let w' := exec (_record_thread env device_index duration output_path) w in
  let chunks := Z.of_nat (length (frames w')) in
  chunks = RATE * duration / CHUNK /\
  exists content wf,
    files w' output_path = Some content /\
    Wave.initfp content = inr wf /\
    Z.of_nat (length (Wave.data_chunk wf)) = chunks * CHUNK * SAMPLE_WIDTH * CHANNELS.
Proof.
  intros HD Hopen Hread Hstop Hclose Hwave Hno Hfit w' chunks.
  assert (Hk : chunks_captured env (Py.range (chunks_needed duration)) 0 =
               Z.to_nat (RATE * duration / CHUNK)).
  { rewrite chunks_captured_no_stop by assumption.
    unfold Py.range. rewrite chunks_needed_floor by assumption. reflexivity. }
  assert (Hpos : 0 <= RATE * duration / CHUNK).
  { apply Z.div_pos; unfold RATE, CHUNK; lia. }
  destruct (record_thread_saved env device_index duration output_path w
              Hopen (fun j _ => Hread _) Hstop Hclose Hwave) as (_ & F & Fi & _).
  { rewrite Hk, Z2Nat.id by assumption. exact Hfit. }
  fold w' in F, Fi. rewrite Hk in F, Fi.
  assert (Hc : chunks = RATE * duration / CHUNK).
  { unfold chunks. rewrite F, length_map, length_seq. apply Z2Nat.id. exact Hpos. }
  split; [exact Hc|].
  set (payload := concat (map (chunk env) (seq (reads w) (Z.to_nat (RATE * duration / CHUNK))))) in *.
  assert (Hlen : Z.of_nat (length payload) = chunks * CHUNK * SAMPLE_WIDTH * CHANNELS).
  { unfold payload. rewrite payload_length by (intros; apply Hread).
    rewrite Z2Nat.id by assumption. rewrite Hc. reflexivity. }
  eexists _, _. split; [exact Fi|]. split.
  - apply saved_file_reads_back. rewrite Hlen, Hc. lia.
  - exact Hlen.
Qed.

(** One second in a silent room: 46 chunks, 94208 payload bytes. *)
Lemma record_thread_chunk_count_one_second :
  let w' := exec (_record_thread silent 0 1 "output/OK/sample_1.wav") initial in
  Z.of_nat (length (frames w')) = 46 /\
  exists content wf,
    files w' "output/OK/sample_1.wav"%string = Some content /\
    Wave.initfp content = inr wf /\
    Z.of_nat (length (Wave.data_chunk wf)) = 94208.
Proof.
  destruct (record_thread_chunk_count silent 0 1 "output/OK/sample_1.wav" initial)
    as (Hc & content & wf & Hf & Hi & Hl);
    [lia | reflexivity | exact healthy_silent | reflexivity | reflexivity
    | reflexivity | intros i; reflexivity | reflexivity | ].
  cbv zeta. split.
  - rewrite Hc. reflexivity.
  - exists content, wf. split; [exact Hf|]. split; [exact Hi|].
    rewrite Hl, Hc. reflexivity.
Defined.

(** C2, as the code has it.  The per-chunk loop of an uncancelled run on a
    healthy device makes floor(duration * 48000 / 1024) iterations (one
    device read each): the truncating [int(...)], which is the ceiling named
    by the specification only when 1024 divides duration * 48000, and one
    less otherwise. *)
Theorem record_loop_iterations (env : environment) (device_index duration : Z)
    (output_path : string) (w : world) :
  0 <= duration ->
  open_error env true (Some device_index) = None ->
  (forall j, healthy_read env j) ->
  (forall i, stop_requested env i = false) ->
  let w' := exec (_record_thread env device_index duration output_path) w in
  let iterations := Z.of_nat (count_reads (log w')) - Z.of_nat (count_reads (log w)) in
  iterations = duration * RATE / CHUNK /\
  spec_iterations duration - 1 <= iterations <= spec_iterations duration /\
  (iterations = spec_iterations duration <-> (duration * RATE) mod CHUNK = 0).
Proof.
  intros HD Hopen Hread Hno w' iterations.
  destruct (record_thread_healthy_log env device_index duration output_path w
              Hopen Hread) as (tail & L & Ct).
  fold w' in L.
  rewrite chunks_captured_no_stop in L by assumption.
  assert (Hit : iterations = duration * RATE / CHUNK).
  { unfold iterations. rewrite L.
    rewrite count_reads_app.
    change (DeviceOpen true (Some device_index) :: ?l)
      with ([DeviceOpen true (Some device_index)] ++ l).
    rewrite !count_reads_app, count_reads_loop_events, Ct.
    cbn [count_reads filter length app]. unfold Py.range.
    rewrite chunks_needed_floor by assumption.
    assert (0 <= RATE * duration / CHUNK)
      by (apply Z.div_pos; unfold RATE, CHUNK; lia).
    rewrite (Z.mul_comm duration RATE). lia. }
  rewrite Hit, spec_iterations_ceiling.
  unfold CHUNK. split; [reflexivity|].
  pose proof (Z.div_mod (duration * RATE) 1024 ltac:(lia)) as E1.
  pose proof (Z.mod_pos_bound (duration * RATE) 1024 ltac:(lia)) as B1.
  pose proof (Z.div_mod (- (duration * RATE)) 1024 ltac:(lia)) as E2.
  pose proof (Z.mod_pos_bound (- (duration * RATE)) 1024 ltac:(lia)) as B2.
  split; [lia|]. split; lia.
Qed.

(** Eight seconds are 375 chunks exactly. *)
Lemma record_loop_iterations_eight_seconds :
  Z.of_nat (count_reads (log (exec (_record_thread silent 0 8 "output/OK/sample_1.wav")
                                initial))) = 375.
Proof.
  destruct (record_loop_iterations silent 0 8 "output/OK/sample_1.wav" initial)
    as (H & _);
    [lia | reflexivity | exact healthy_silent | intros i; reflexivity | ].
  cbv zeta in H.
  change (Z.of_nat (count_reads (log initial))) with 0 in H.
  rewrite Z.sub_0_r in H. exact H.
Defined.

(** C2, as the specification states it, fails for a one-second run: the loop
    makes 46 iterations, ceil(48000 / 1024) is 47. *)
Lemma loop_iterations_not_ceiling :
  let w' := exec (_record_thread silent 0 1 "output/OK/sample_1.wav") initial in
  Z.of_nat (count_reads (log w')) = 46 /\
  spec_iterations 1 = 47 /\
  Z.of_nat (count_reads (log w')) <> spec_iterations 1.
Proof.
  cbv zeta.
  assert (H : Z.of_nat (count_reads (log (exec
                (_record_thread silent 0 1 "output/OK/sample_1.wav") initial))) = 46)
    by (vm_compute; reflexivity).
  rewrite H. split; [reflexivity|]. split; [reflexivity|].
  intros E. vm_compute in E. discriminate E.
Qed.

(** C3. The level block, as numpy computes it in binary64.  Whatever the
    chunk, a level that is emitted is an integer between 0 and 100.  The
    empty chunk and a chunk of zeros read 0, and [np.frombuffer] and the
    block accept silence without raising.  On the samples of a buffer (fewer
    than 2^23 of them; a read returns 1024) the block never raises, and the
    level does not decrease when the chunk's RMS amplitude grows. *)
Theorem compute_level_range_and_monotone :
  (forall audio_data level,
     compute_level audio_data = inr level -> 0 <= level <= 100) /\
  compute_level [] = inr 0 /\
  (forall n, compute_level (repeat 0 n) = inr 0) /\
  (forall n, option_map compute_level (frombuffer (repeat Byte.x00 (2 * n))) =
             Some (inr 0)) /\
  (forall data audio_data,
     frombuffer data = Some audio_data ->
     Z.of_nat (length audio_data) < 2 ^ 23 ->
     exists level, compute_level audio_data = inr level /\ 0 <= level <= 100) /\
  (forall a b,
     Forall in_int16 a -> Z.of_nat (length a) < 2 ^ 23 ->
     Forall in_int16 b -> Z.of_nat (length b) < 2 ^ 23 ->
     (rms a <= rms b)%R ->
     exists la lb,
       compute_level a = inr la /\ compute_level b = inr lb /\ la <= lb).
Proof.
  split; [|split; [|split; [|split; [|split]]]].
  - exact compute_level_range.
  - reflexivity.
  - intros n. apply compute_level_zero_sum, sum_squares_zeros.
  - intros n. rewrite frombuffer_silence. cbn [option_map].
    f_equal. apply compute_level_zero_sum, sum_squares_zeros.
  - intros data audio_data H Hn.
    destruct (compute_level_total audio_data
                (proj2 (frombuffer_samples data audio_data H)) Hn) as [level E].
    exists level. split; [exact E | exact (compute_level_range _ _ E)].
  - intros a b Ha Na Hb Nb H.
    destruct (compute_level_total a Ha Na) as [la Ea].
    destruct (compute_level_total b Hb Nb) as [lb Eb].
    exists la, lb. split; [exact Ea|]. split; [exact Eb|].
    exact (compute_level_mono a b la lb Ha Na Hb Nb H Ea Eb).
Qed.

(** A louder chunk: amplitude 100 against amplitude 8192. *)
Lemma compute_level_range_and_monotone_louder :
  exists la lb,
    compute_level [100; -100; 100; -100] = inr la /\
    compute_level [8192; -8192; 8192; -8192] = inr lb /\
    la <= lb.
Proof.
  destruct compute_level_range_and_monotone as (_ & _ & _ & _ & _ & H).
  apply H.
  - repeat constructor; unfold in_int16; lia.
  - cbn. lia.
  - repeat constructor; unfold in_int16; lia.
  - cbn. lia.
  - unfold rms. apply sqrt_le_1_alt.
    change (sum_squares [100; -100; 100; -100]) with 40000.
    change (sum_squares [8192; -8192; 8192; -8192]) with 268435456.
    change (Z.of_nat (length [100; -100; 100; -100])) with 4.
    change (Z.of_nat (length [8192; -8192; 8192; -8192])) with 4.
    lra.
Defined.

(** C4. A capture run cancelled once k chunks have been read (0 < k < total)
    keeps those k chunks, writes a WAV file whose payload is exactly their
    bytes, and ends with [recording_complete(True, ...)]. *)
Theorem cancelled_run_keeps_frames (env : environment) (device_index duration : Z)
    (output_path : string) (w : world) (k : nat) :
  open_error env true (Some device_index) = None ->
  (forall j, (j < k)%nat -> healthy_read env (reads w + j)) ->
  stop_error env = None ->
  close_error env = None ->
  wave_open_error env output_path = None ->
  (0 < k < Py.range (chunks_needed duration))%nat ->
  (forall j, (j < k)%nat -> stop_requested env j = false) ->
  stop_requested env k = true ->
  36 + Z.of_nat k * CHUNK * SAMPLE_WIDTH * CHANNELS < 2 ^ 32 ->
  let w' := exec (_record_thread env device_index duration output_path) w in
  frames w' = map (chunk env) (seq (reads w) k) /\
  (exists content wf,
     files w' output_path = Some content /\
     Wave.initfp content = inr wf /\
     Wave.data_chunk wf = concat (frames w') /\
     Z.of_nat (length (Wave.data_chunk wf)) =
       Z.of_nat k * CHUNK * SAMPLE_WIDTH * CHANNELS) /\
  exists before,
    log w' = log w ++ before ++ [RecordingComplete true ("Saved to " ++ output_path)].
Proof.
  intros Hopen Hread Hstop Hclose Hwave Hk Hno Hat Hfit w'.
  assert (Ek : chunks_captured env (Py.range (chunks_needed duration)) 0 = k).
  { apply chunks_captured_stop_at; [lia | exact Hno | exact Hat]. }
  destruct (record_thread_saved env device_index duration output_path w Hopen)
    as (_ & F & Fi & L & _); try assumption.
  { rewrite Ek. exact Hread. }
  { rewrite Ek. exact Hfit. }
  fold w' in F, Fi, L. rewrite Ek in F, Fi, L.
  assert (Hlen : Z.of_nat (length (concat (map (chunk env) (seq (reads w) k)))) =
                 Z.of_nat k * CHUNK * SAMPLE_WIDTH * CHANNELS).
  { apply payload_length. exact Hread. }
  split; [exact F|]. split.
  - eexists _, _. split; [exact Fi|]. split.
    + apply saved_file_reads_back. rewrite Hlen. exact Hfit.
    + cbn [Wave.data_chunk]. rewrite F. split; [reflexivity | exact Hlen].
  - eexists. rewrite L.
    change (DeviceOpen true (Some device_index) :: loop_events env (reads w) k ++
            [StreamStop; StreamClose; WaveOpen output_path "wb";
             RecordingComplete true ("Saved to " ++ output_path)])
      with ((DeviceOpen true (Some device_index) :: loop_events env (reads w) k) ++
            [StreamStop; StreamClose; WaveOpen output_path "wb"] ++
            [RecordingComplete true ("Saved to " ++ output_path)]).
    rewrite (app_assoc (_ :: _)). reflexivity.
Qed.

(** A one-second run cancelled after two chunks. *)
Lemma cancelled_run_keeps_frames_two_chunks :
  let w' := exec (_record_thread (stopped_after 2) 0 1 "output/NG/sample_7.wav") initial in
  frames w' = [repeat Byte.x00 2048; repeat Byte.x00 2048] /\
  (exists content wf,
     files w' "output/NG/sample_7.wav"%string = Some content /\
     Wave.initfp content = inr wf /\
     Wave.data_chunk wf = concat (frames w') /\
     Z.of_nat (length (Wave.data_chunk wf)) = 4096) /\
  exists before,
    log w' = before ++ [RecordingComplete true "Saved to output/NG/sample_7.wav"].
Proof.
  destruct (cancelled_run_keeps_frames (stopped_after 2) 0 1
              "output/NG/sample_7.wav" initial 2)
    as (F & Fi & L);
    [ reflexivity
    | intros j _; apply healthy_stopped_after
    | reflexivity
    | reflexivity
    | reflexivity
    | vm_compute; lia
    | intros [|[|j]] Hj; [reflexivity | reflexivity | lia]
    | reflexivity
    | reflexivity
    | ].
  cbv zeta. split; [exact F|]. split; [exact Fi | exact L].
Defined.

(** The paths on which the stream is released.  When the device reads
    succeed and [stop_stream()] and [close()] go through, the stream is
    stopped and closed before the WAV file is opened and before the
    completion event, whether the loop ran to its end or was cancelled and
    whether or not [_save_wav] then fails; when the open itself fails no
    stream is held. *)
Lemma stream_released_before_completion (env : environment)
    (device_index duration : Z) (output_path : string) (w : world) :
  (forall j, healthy_read env j) ->
  stop_error env = None ->
  close_error env = None ->
  let w' := exec (_record_thread env device_index duration output_path) w in
  (open_error env true (Some device_index) = None ->
   open_streams w' = open_streams w /\
   exists success message,
     log w' = log w ++ DeviceOpen true (Some device_index) ::
              loop_events env (reads w)
                (chunks_captured env (Py.range (chunks_needed duration)) 0) ++
              [StreamStop; StreamClose; WaveOpen output_path "wb";
               RecordingComplete success message]) /\
  (forall e, open_error env true (Some device_index) = Some e ->
   open_streams w' = open_streams w /\
   log w' = log w ++ [DeviceOpen true (Some device_index);
                      RecordingComplete false ("Error: " ++ e)]).
Proof.
  intros Hread Hstop Hclose w'. split.
  - intros Hopen. unfold w', exec, _record_thread, try_except, record_body.
    cbv zeta.
    rewrite (capture_run env device_index duration _ w Hopen
               (fun j _ => Hread _) Hstop Hclose).
    destruct (captured_fields env device_index duration w) as (_ & L & O & _).
    destruct (save_wav_any env output_path (captured env device_index duration w))
      as (r & w1 & Hrun & L1 & O1).
    destruct r as [[]|e].
    + rewrite (bind_return _ _ _ _ _ Hrun). cbn.
      split; [congruence|].
      exists true, ("Saved to " ++ output_path)%string.
      rewrite L1, L, <- !app_assoc. cbn. rewrite <- app_assoc. reflexivity.
    + rewrite (bind_raise _ _ _ _ _ Hrun). cbn.
      split; [congruence|].
      exists false, ("Error: " ++ e)%string.
      rewrite L1, L, <- !app_assoc. cbn. rewrite <- app_assoc. reflexivity.
  - intros e Hopen. unfold w', exec, _record_thread, try_except, record_body.
    rewrite !bind_modify.
    rewrite (bind_raise _ _ _ _ _ (p_open_raise env true _ _ e Hopen)).
    cbn. rewrite <- app_assoc. split; reflexivity.
Qed.

(** Cancelled after two chunks: stop and close precede the completion. *)
Lemma stream_released_before_completion_cancelled :
  let w' := exec (_record_thread (stopped_after 2) 0 1 "output/OK/sample_1.wav") initial in
  open_streams w' = 0%nat /\
  exists success message,
    skipn 5 (log w') = [StreamStop; StreamClose; WaveOpen "output/OK/sample_1.wav" "wb";
                        RecordingComplete success message].
Proof.
  destruct (stream_released_before_completion (stopped_after 2) 0 1
              "output/OK/sample_1.wav" initial (healthy_stopped_after 2) eq_refl eq_refl)
    as (H & _).
  destruct (H eq_refl) as (O & success & message & L).
  cbv zeta. split; [exact O|].
  exists success, message. rewrite L. reflexivity.
Defined.

(** C5, where the code falls short of it.  [_record_thread] calls
    [stop_stream()] and [close()] after the loop, inside the [try], and its
    [except] handler only clears the flag and signals the failure.  So when a
    read raises, after any number of chunks, the run ends with the stream it
    opened still open: the failure event is the last thing it does, and
    nothing it has done since the open is a stop or a close. *)
Theorem read_error_leaves_stream_open (env : environment)
    (device_index duration : Z) (output_path : string) (w : world)
    (k : nat) (e : string) :
  open_error env true (Some device_index) = None ->
  (k < Py.range (chunks_needed duration))%nat ->
  (forall j, (j <= k)%nat -> stop_requested env j = false) ->
  (forall j, (j < k)%nat -> healthy_read env (reads w + j)) ->
  read_result env (reads w + k) = inl e ->
  let w' := exec (_record_thread env device_index duration output_path) w in
  outcome (_record_thread env device_index duration output_path) w = Return tt /\
  open_streams w' = S (open_streams w) /\
  is_recording w' = false /\
  exists evs,
    log w' = log w ++ DeviceOpen true (Some device_index) :: evs ++
             [RecordingComplete false ("Error: " ++ e)] /\
    existsb is_release evs = false.
Proof.
  intros Hopen Hk Hstop Hread Herr w'.
  destruct (record_body_read_error env device_index duration output_path
              w k e Hopen Hk Hstop Hread Herr) as (w1 & Hrun & O & L).
  unfold w', outcome, exec, _record_thread, try_except. rewrite Hrun.
  cbn. split; [reflexivity|]. split; [exact O|]. split; [reflexivity|].
  exists (loop_events env (reads w) k ++ [StreamRead CHUNK]).
  split.
  - rewrite L, <- !app_assoc. cbn. rewrite <- app_assoc. reflexivity.
  - rewrite existsb_app. cbn. rewrite orb_false_r.
    unfold loop_events. generalize (reads w). clear.
    induction k as [|k IH]; intros first; [reflexivity|].
    cbn [seq flat_map app existsb is_release orb]. apply IH.
Qed.

(** The microphone is unplugged during the third chunk of a one-second
    recording: one stream stays open. *)
Lemma read_error_leaves_stream_open_unplugged :
  let w' := exec (_record_thread unplugged 0 1 "output/OK/sample_1.wav") initial in
  outcome (_record_thread unplugged 0 1 "output/OK/sample_1.wav") initial = Return tt /\
  open_streams w' = 1%nat /\
  is_recording w' = false /\
  exists evs,
    log w' = log initial ++ DeviceOpen true (Some 0) :: evs ++
             [RecordingComplete false "Error: [Errno -9988] Stream closed"] /\
    existsb is_release evs = false.
Proof.
  apply (read_error_leaves_stream_open unplugged 0 1 "output/OK/sample_1.wav"
           initial 2 "[Errno -9988] Stream closed").
  - reflexivity.
  - vm_compute. lia.
  - intros j _. reflexivity.
  - intros [|[|j]] Hj; [| |lia]; exists (repeat Byte.x00 2048); split; reflexivity.
  - reflexivity.
Defined.

(** C6, as the code has it.  [play_test] returns False without starting a
    thread when the test file is absent.  Inside the thread a file that is
    absent or that [wave.open] rejects, or an output device that cannot be
    opened, ends the thread silently: no signal of any kind is emitted and
    nothing is written to the device.  The sample width of the file is not
    checked: a readable file is written to the device whatever its width. *)
Theorem playback_failures_are_silent (env : environment) (w : world) (p : string) :
  test_file_path w = Some p ->
  (files w p = None -> play_test env w = (Return false, w)) /\
  (files w p = None \/
   (exists content e, files w p = Some content /\ Wave.initfp content = inl e) ->
   exists w',
     _play_test_thread env w = (Return tt, w') /\
     only_logged w w' [WaveOpen p "rb"]) /\
  (forall content wf e,
     files w p = Some content ->
     Wave.initfp content = inr wf ->
     open_error env false None = Some e ->
     exists w',
       _play_test_thread env w = (Return tt, w') /\
       only_logged w w' [WaveOpen p "rb"; DeviceOpen false None]) /\
  (forall content wf,
     files w p = Some content ->
     Wave.initfp content = inr wf ->
     open_error env false None = None ->
     (forall i, write_error env i = None) ->
     stop_error env = None ->
     close_error env = None ->
     exists blocks,
       concat blocks = Wave.data_chunk wf /\
       log (exec (_play_test_thread env) w) =
         log w ++ WaveOpen p "rb" :: DeviceOpen false None ::
         map StreamWrite blocks ++ [StreamStop; StreamClose]).
Proof.
  intros Hp. split; [|split; [|split]].
  - intros Hf. unfold play_test. rewrite bind_gets, bind_gets, Hp.
    unfold path_exists. rewrite Hf. reflexivity.
  - intros Hf. eexists. split; [exact (play_thread_open_fails env w p Hp Hf)|].
    unfold only_logged. cbn. repeat split.
  - intros content wf e Hf Hi Ho. eexists.
    split; [exact (play_thread_device_fails env w p content wf e Hp Hf Hi Ho)|].
    unfold only_logged. cbn. rewrite <- app_assoc. repeat split.
  - intros content wf Hf Hi Ho Hw Hs Hc.
    destruct (play_thread_plays env w p content wf Hp Hf Hi Ho Hw Hs Hc)
      as (blocks & Hcat & _ & L).
    exists blocks. split; assumption.
Qed.

(** The test file has been deleted: [play_test] gives up at once. *)
Lemma playback_failures_are_silent_deleted :
  play_test silent test_file_deleted = (Return false, test_file_deleted).
Proof.
  destruct (playback_failures_are_silent silent test_file_deleted test_recording
              eq_refl) as (H & _).
  apply H. reflexivity.
Defined.

(** C6, as the specification states it, fails twice.  With the test file
    deleted the playback attempt ends without any completion event.  With an
    8-bit file in its place nothing fails: the file is opened, no completion
    event is emitted and the samples are written to the output device. *)
Lemma playback_emits_no_failure_event :
  (outcome (play_test silent) test_file_deleted = Return false /\
   existsb is_completion (log (exec (play_test silent) test_file_deleted)) = false /\
   existsb is_completion (log (exec (_play_test_thread silent) test_file_deleted)) = false) /\
  (option_map Wave.getsampwidth
     (match Wave.initfp (Wave.header 1 1 8000 4 ++ eight_bit_samples) with
      | inr wf => Some wf
      | inl _ => None
      end) = Some 1 /\
   outcome (play_test silent) test_file_eight_bit = Return true /\
   log (exec (play_test silent) test_file_eight_bit) =
     [WaveOpen test_recording "rb"; DeviceOpen false None;
      StreamWrite eight_bit_samples; StreamStop; StreamClose]).
Proof. vm_compute. repeat split. Qed.

(** C7. Whatever the device and the file system do during a capture run, the
    thread function returns normally: an exception raised in the body of its
    [try] (device open, device read, file open among them) is turned into
    the last event of the run, [recording_complete(False, "Error: " + str(e))],
    and no completion event precedes it. *)
Theorem record_thread_reports_errors (env : environment) (device_index duration : Z)
    (output_path : string) (w : world) :
  let body := record_body env device_index duration output_path in
  let w' := exec (_record_thread env device_index duration output_path) w in
  outcome (_record_thread env device_index duration output_path) w = Return tt /\
  is_recording w' = false /\
  (exists evs,
     existsb is_completion evs = false /\
     log w' = log w ++ evs ++
       [match outcome body w with
        | Return _ => RecordingComplete true ("Saved to " ++ output_path)
        | Raise e => RecordingComplete false ("Error: " ++ e)
        end]) /\
  (forall e, open_error env true (Some device_index) = Some e ->
             outcome body w = Raise e) /\
  (forall e k,
     open_error env true (Some device_index) = None ->
     (k < Py.range (chunks_needed duration))%nat ->
     (forall j, (j <= k)%nat -> stop_requested env j = false) ->
     (forall j, (j < k)%nat -> healthy_read env (reads w + j)) ->
     read_result env (reads w + k) = inl e ->
     outcome body w = Raise e) /\
  (forall e,
     open_error env true (Some device_index) = None ->
     (forall j, healthy_read env j) ->
     stop_error env = None ->
     close_error env = None ->
     wave_open_error env output_path = Some e ->
     outcome body w = Raise e).
Proof.
  cbv zeta.
  destruct (record_thread_any env device_index duration output_path w)
    as (Hout & Hrec & _ & evs & C & _ & L).
  split; [exact Hout|]. split; [exact Hrec|].
  split; [exists evs; split; assumption|].
  split; [|split].
  - intros e Hopen. unfold outcome, record_body. rewrite !bind_modify.
    rewrite (bind_raise _ _ _ _ _ (p_open_raise env true _ _ e Hopen)).
    reflexivity.
  - intros e k Hopen Hk Hstop Hread Herr.
    destruct (record_body_read_error env device_index duration output_path
                w k e Hopen Hk Hstop Hread Herr) as (w1 & Hrun & _).
    unfold outcome. rewrite Hrun. reflexivity.
  - intros e Hopen Hread Hstop Hclose Hwave.
    destruct (record_body_save_refused env device_index duration output_path
                w e Hopen (fun j _ => Hread _) Hstop Hclose Hwave) as (w1 & Hrun & _).
    unfold outcome. rewrite Hrun. reflexivity.
Qed.

(** The microphone is unplugged during the third chunk. *)
Lemma record_thread_reports_errors_unplugged :
  let w' := exec (_record_thread unplugged 0 1 "output/OK/sample_1.wav") initial in
  outcome (_record_thread unplugged 0 1 "output/OK/sample_1.wav") initial = Return tt /\
  last (log w') StreamStop =
    RecordingComplete false "Error: [Errno -9988] Stream closed".
Proof.
  destruct (record_thread_reports_errors unplugged 0 1 "output/OK/sample_1.wav" initial)
    as (Hout & _ & (evs & _ & L) & _ & Hread & _).
  cbv zeta. split; [exact Hout|].
  rewrite L.
  rewrite (Hread "[Errno -9988] Stream closed"%string 2%nat);
    [ rewrite app_assoc; apply last_last
    | reflexivity
    | vm_compute; lia
    | intros j _; reflexivity
    | intros [|[|j]] Hj; [| |lia]; exists (repeat Byte.x00 2048); split; reflexivity
    | reflexivity ].
Defined.

(** C8, where the code falls short of it.  While a test recording is running
    the Record OK button is still enabled and [start_recording] tests
    [is_recording] only: the click starts a second capture thread.  Both
    sessions are then active, and each of them calls [p.open] on the device. *)
Theorem recording_starts_during_test :
  let hs := [MainWindow.ClickRecordTest; MainWindow.ClickRecord "OK"] in
  (exists s,
     MainWindow.run hs (MainWindow.started 0) = Some s /\
     MainWindow.is_testing (MainWindow.win s) = true /\
     MainWindow.is_recording (MainWindow.win s) = true /\
     MainWindow.running s =
       [MainWindow.TestRecordThread 0 3 ".test/test_recording.wav";
        MainWindow.RecordThread 0 5 "output/OK/sample_1.wav"]) /\
  (forall env w, exists rest,
     log (exec (_test_record_thread env 0 3 ".test/test_recording.wav") w) =
     log w ++ DeviceOpen true (Some 0) :: rest) /\
  (forall env w, exists rest,
     log (exec (_record_thread env 0 5 "output/OK/sample_1.wav") w) =
     log w ++ DeviceOpen true (Some 0) :: rest).
Proof.
  cbv zeta. split; [|split].
  - eexists. split; [reflexivity|]. repeat split.
  - intros env w. apply test_record_thread_opens_device.
  - intros env w. apply record_thread_opens_device.
Qed.

(** C9. A WAV file written by [_save_wav] from any sequence of chunks reads
    back with channel count 1, sample width 2 and rate 48000, and its data is
    byte for byte the concatenation of the chunks in their order; for chunks
    of whole frames that is also what [readframes(getnframes())] returns. *)
Theorem save_wav_round_trip (env : environment) (filename : string) (w : world) :
  wave_open_error env filename = None ->
  36 + Z.of_nat (length (concat (frames w))) < 2 ^ 32 ->
  let w' := exec (_save_wav env filename) w in
  outcome (_save_wav env filename) w = Return tt /\
  exists content wf,
    files w' filename = Some content /\
    Wave.initfp content = inr wf /\
    Wave.getnchannels wf = CHANNELS /\
    Wave.getframerate wf = RATE /\
    Wave.getsampwidth wf = SAMPLE_WIDTH /\
    Wave.data_chunk wf = concat (frames w) /\
    (Forall whole_frames (frames w) -> read_all wf = concat (frames w)).
Proof.
  intros Hopen Hfit w'.
  pose proof (save_wav_ok env filename w _ Hopen
                (write_recorder_format (concat (frames w)) Hfit)) as Hrun.
  unfold w', outcome, exec. rewrite Hrun. cbn [fst snd].
  split; [reflexivity|].
  eexists _, _. split.
  { cbn [files set_file]. rewrite String.eqb_refl. reflexivity. }
  split; [apply saved_file_reads_back; exact Hfit|].
  cbn [Wave.getnchannels Wave.getframerate Wave.getsampwidth Wave.data_chunk].
  repeat (split; [reflexivity|]).
  intros Hwhole. apply whole_frames_concat in Hwhole.
  unfold read_all, Wave.readframes.
  cbn [fst Wave.getnframes Wave.getnchannels Wave.getsampwidth Wave.data_chunk].
  apply firstn_all2. unfold whole_frames in Hwhole.
  set (n := Z.of_nat (length (concat (frames w)))) in *.
  assert (E : n / (CHANNELS * SAMPLE_WIDTH) * (CHANNELS * SAMPLE_WIDTH) = n).
  { pose proof (Z.div_mod n (CHANNELS * SAMPLE_WIDTH)) as D.
    unfold CHANNELS, SAMPLE_WIDTH in *. lia. }
  rewrite E. unfold n. lia.
Qed.

(** Two chunks of two samples each. *)
Lemma save_wav_round_trip_two_chunks :
  let w := set_frames [[Byte.x01; Byte.x00; Byte.xff; Byte.x7f];
                       [Byte.x00; Byte.x80; Byte.x10; Byte.x27]] initial in
  let w' := exec (_save_wav silent "output/OK/sample_1.wav") w in
  exists content wf,
    files w' "output/OK/sample_1.wav"%string = Some content /\
    Wave.initfp content = inr wf /\
    (Wave.getnchannels wf, Wave.getsampwidth wf, Wave.getframerate wf) = (1, 2, 48000) /\
    read_all wf = [Byte.x01; Byte.x00; Byte.xff; Byte.x7f;
                   Byte.x00; Byte.x80; Byte.x10; Byte.x27].
Proof.
  cbv zeta.
  destruct (save_wav_round_trip silent "output/OK/sample_1.wav"
              (set_frames [[Byte.x01; Byte.x00; Byte.xff; Byte.x7f];
                           [Byte.x00; Byte.x80; Byte.x10; Byte.x27]] initial))
    as (_ & content & wf & Hf & Hi & Hc & Hr & Hs & _ & Hall);
    [reflexivity | reflexivity | ].
  exists content, wf. split; [exact Hf|]. split; [exact Hi|]. split.
  - rewrite Hc, Hr, Hs. reflexivity.
  - apply Hall. repeat constructor.
Defined.

(** C10. A capture run that captures no chunk, because the chunk count
    computed from the duration is zero (or negative) or because cancellation is
    seen before the first read, still writes the WAV file: the 44-byte header
    for mono, 16 bit, 48000 Hz with an empty payload, and reports success. *)
Theorem empty_capture_writes_header (env : environment) (device_index duration : Z)
    (output_path : string) (w : world) :
  open_error env true (Some device_index) = None ->
  stop_error env = None ->
  close_error env = None ->
  wave_open_error env output_path = None ->
  chunks_needed duration <= 0 \/ stop_requested env 0 = true ->
  let w' := exec (_record_thread env device_index duration output_path) w in
  frames w' = [] /\
  files w' output_path = Some (Wave.header CHANNELS SAMPLE_WIDTH RATE 0) /\
  length (Wave.header CHANNELS SAMPLE_WIDTH RATE 0) = 44%nat /\
  Wave.initfp (Wave.header CHANNELS SAMPLE_WIDTH RATE 0) =
    inr {| Wave.getnchannels := 1;
           Wave.getsampwidth := 2;
           Wave.getframerate := 48000;
           Wave.getnframes := 0;
           Wave.data_chunk := [] |} /\
  log w' = log w ++ [DeviceOpen true (Some device_index); StreamStop; StreamClose;
                     WaveOpen output_path "wb";
                     RecordingComplete true ("Saved to " ++ output_path)].
Proof.
  intros Hopen Hstop Hclose Hwave Hzero w'.
  assert (Ek : chunks_captured env (Py.range (chunks_needed duration)) 0 = 0%nat).
  { destruct Hzero as [Hz|Hz].
    - unfold Py.range. replace (Z.to_nat (chunks_needed duration)) with 0%nat by lia.
      reflexivity.
    - destruct (Py.range (chunks_needed duration)); [reflexivity|].
      cbn [chunks_captured]. rewrite Hz. reflexivity. }
  destruct (record_thread_saved env device_index duration output_path w Hopen)
    as (_ & F & Fi & L & _); try assumption.
  { rewrite Ek. intros j Hj. lia. }
  { rewrite Ek. reflexivity. }
  fold w' in F, Fi, L. rewrite Ek in F, Fi, L.
  cbn in F, Fi, L. rewrite app_nil_r in Fi.
  split; [exact F|]. split; [exact Fi|]. split; [reflexivity|].
  split; [|exact L].
  exact (saved_file_reads_back [] eq_refl).
Qed.

(** Cancelled before the first chunk of a five-second recording. *)
Lemma empty_capture_writes_header_cancelled :
  let w' := exec (_record_thread (stopped_after 0) 0 5 "output/OK/sample_1.wav") initial in
  frames w' = [] /\
  option_map (@length byte) (files w' "output/OK/sample_1.wav"%string) = Some 44%nat /\
  last (log w') StreamStop = RecordingComplete true "Saved to output/OK/sample_1.wav".
Proof.
  destruct (empty_capture_writes_header (stopped_after 0) 0 5
              "output/OK/sample_1.wav" initial)
    as (F & Fi & Hl & _ & L);
    [reflexivity | reflexivity | reflexivity | reflexivity | right; reflexivity | ].
  cbv zeta. split; [exact F|]. split.
  - rewrite Fi. cbn [option_map]. rewrite Hl. reflexivity.
  - rewrite L. reflexivity.
Defined.

(** * Part V: further properties of the code *)

(** ** Device enumeration *)

(** X1. [get_device_list] returns exactly the host's devices that have input
    channels, each with its own host index, name and channel count, and in
    the order of the host's table (the indices increase strictly, so no
    device is listed twice). *)
Theorem get_device_list_lists_input_devices (host : list Devices.device_info) :
  (forall d, In d (Devices.get_device_list host) <->
     exists i info,
       nth_error host i = Some info /\
       0 < Devices.maxInputChannels info /\
       d = {| Devices.index := Z.of_nat i;
              Devices.name := Devices.info_name info;
              Devices.channels := Devices.maxInputChannels info |}) /\
  StronglySorted Z.lt (map Devices.index (Devices.get_device_list host)).
Proof.
  split.
  - intros d. apply in_get_device_list.
  - rewrite get_device_list_flat_map. apply indices_sorted.
Qed.

(** X2. On a host without any input-capable device [load_devices] leaves
    the combo box empty and shows "No input devices found!"; after that
    neither Record OK/NG nor Record Test starts a thread, whatever the file
    system does. *)
Theorem no_input_device_starts_nothing (host : list Devices.device_info)
    (win : MainWindow.window) (category : string)
    (mkdir_error : string -> option string) :
  (forall info, In info host -> Devices.maxInputChannels info <= 0) ->
  let loaded := Devices.load_devices host win in
  snd loaded = [] /\
  MainWindow.device_combo_data (fst loaded) = None /\
  MainWindow.status_bar (fst loaded) = "No input devices found!"%string /\
  (exists win',
     MainWindow.start_recording mkdir_error category (fst loaded) = inr (win', [])) /\
  snd (MainWindow.record_test (fst loaded)) = [].
Proof.
  intros H. cbv zeta. unfold Devices.load_devices. cbv zeta.
  rewrite (no_input_device host H). cbn.
  split; [reflexivity|]. split; [reflexivity|]. split; [reflexivity|]. split.
  - unfold MainWindow.start_recording. cbn.
    destruct (MainWindow.is_recording win); eexists; reflexivity.
  - unfold MainWindow.record_test. cbn.
    destruct (MainWindow.is_testing win || MainWindow.is_recording win); reflexivity.
Qed.

(** A host that only has an HDMI output. *)
Lemma no_input_device_starts_nothing_hdmi :
  let loaded :=
    Devices.load_devices
      [{| Devices.info_name := "HDMI"; Devices.maxInputChannels := 0 |}]
      (MainWindow.win (MainWindow.started 0)) in
  snd loaded = [] /\
  MainWindow.device_combo_data (fst loaded) = None /\
  MainWindow.status_bar (fst loaded) = "No input devices found!"%string /\
  (exists win',
     MainWindow.start_recording (fun _ => None) "OK" (fst loaded) = inr (win', [])) /\
  snd (MainWindow.record_test (fst loaded)) = [].
Proof.
  apply (no_input_device_starts_nothing
           [{| Devices.info_name := "HDMI"; Devices.maxInputChannels := 0 |}]
           (MainWindow.win (MainWindow.started 0)) "OK" (fun _ => None)).
  intros info [<-|[]]. cbn. lia.
Defined.

(** X3. [load_devices] selects the first input-capable device of the host,
    under its host index.  A dataset recording started from the idle window
    then runs on that device, for the duration of the spin box, to the path
    [pathlib] joins from ["output"], the category and the file name; with a
    plain category and a prefix without a slash that path is
    [output/<category>/<prefix>_<index>.wav].  When [mkdir] raises the
    exception leaves the slot and no thread is started. *)
Theorem first_input_device_is_recorded (before after : list Devices.device_info)
    (info : Devices.device_info) (win : MainWindow.window) (category : string)
    (mkdir_error : string -> option string) :
  (forall x, In x before -> Devices.maxInputChannels x <= 0) ->
  0 < Devices.maxInputChannels info ->
  MainWindow.is_recording win = false ->
  let loaded := Devices.load_devices (before ++ info :: after) win in
  let output_dir := Path.truediv (Path.of_string "output") category in
  let output_path := Path.str (Path.truediv output_dir (MainWindow.filename win)) in
  hd_error (snd loaded) =
    Some ((Devices.info_name info ++ " (" ++
           NilEmpty.string_of_int (Z.to_int (Devices.maxInputChannels info)) ++
           " ch)")%string,
          Z.of_nat (length before)) /\
  MainWindow.device_combo_data (fst loaded) = Some (Z.of_nat (length before)) /\
  MainWindow.status_bar (fst loaded) = MainWindow.status_bar win /\
  (mkdir_error (Path.str output_dir) = None ->
   exists win',
     MainWindow.start_recording mkdir_error category (fst loaded) =
       inr (win', [MainWindow.RecordThread (Z.of_nat (length before))
                     (MainWindow.duration_spin_value win) output_path]) /\
     MainWindow.is_recording win' = true) /\
  (forall e, mkdir_error (Path.str output_dir) = Some e ->
     MainWindow.start_recording mkdir_error category (fst loaded) = inl e) /\
  (plain category -> no_slash (MainWindow.prefix_input_text win) = true ->
   output_path = ("output/" ++ category ++ "/" ++ MainWindow.filename win)%string).
Proof.
  intros Hb Hi Hrec. cbv zeta. unfold Devices.load_devices. cbv zeta.
  destruct (first_input_device before after info Hb Hi) as [rest E].
  rewrite E. cbn [fst snd hd_error map Devices.combo_items].
  split; [reflexivity|]. split; [reflexivity|]. split; [reflexivity|].
  split; [|split].
  - intros Hm. unfold MainWindow.start_recording.
    cbn [Devices.set_device_combo_data MainWindow.is_recording
         MainWindow.device_combo_data MainWindow.duration_spin_value].
    rewrite Hrec. cbv zeta. rewrite Hm. eexists. split; reflexivity.
  - intros e Hm. unfold MainWindow.start_recording.
    cbn [Devices.set_device_combo_data MainWindow.is_recording
         MainWindow.device_combo_data MainWindow.duration_spin_value].
    rewrite Hrec. cbv zeta. rewrite Hm. reflexivity.
  - intros Hc Hp. apply output_path_plain; [exact Hc | apply filename_plain, Hp].
Qed.

(** An HDMI output followed by a microphone: the microphone, index 1. *)
Lemma first_input_device_is_recorded_microphone :
  let loaded :=
    Devices.load_devices
      ([{| Devices.info_name := "HDMI"; Devices.maxInputChannels := 0 |}] ++
       {| Devices.info_name := "USB microphone"; Devices.maxInputChannels := 2 |} :: [])
      (MainWindow.win (MainWindow.started 0)) in
  hd_error (snd loaded) = Some ("USB microphone (2 ch)"%string, 1) /\
  MainWindow.device_combo_data (fst loaded) = Some 1 /\
  exists win',
    MainWindow.start_recording (fun _ => None) "OK" (fst loaded) =
      inr (win', [MainWindow.RecordThread 1 5 "output/OK/sample_1.wav"]) /\
    MainWindow.is_recording win' = true.
Proof.
  destruct (first_input_device_is_recorded
              [{| Devices.info_name := "HDMI"; Devices.maxInputChannels := 0 |}] []
              {| Devices.info_name := "USB microphone"; Devices.maxInputChannels := 2 |}
              (MainWindow.win (MainWindow.started 0)) "OK" (fun _ => None))
    as (H1 & H2 & _ & H4 & _).
  - intros x [<-|[]]. cbn. lia.
  - cbn. lia.
  - reflexivity.
  - cbv zeta. split; [exact H1|]. split; [exact H2|]. exact (H4 eq_refl).
Defined.

(** A prefix that is an absolute path or holds slashes: the file does not go
    where the category says. *)
Lemma output_path_of_typed_prefix :
  let typed prefix :=
    Path.str (Path.truediv (Path.truediv (Path.of_string "output") "OK")
                (prefix ++ "_1.wav")) in
  typed "/tmp/x"%string = "/tmp/x_1.wav"%string /\
  typed "a//b"%string = "output/OK/a/b_1.wav"%string /\
  typed "../x"%string = "output/OK/../x_1.wav"%string.
Proof. repeat split. Qed.

(** ** The test recording *)

(** X4. A test recording of D seconds on a healthy device captures
    floor(48000 * D / 1024) chunks, whatever the foreground thread does with
    [stop_recording]: it saves them to its output file as a WAV file of
    chunks * 1024 * 2 payload bytes, signals
    [test_complete(True, "Test recording complete")] last, releases the
    stream and leaves [is_recording] alone. *)
Theorem test_recording_chunk_count (env : environment) (device_index duration : Z)
    (output_path : string) (w : world) :
  0 <= duration ->
  open_error env true (Some device_index) = None ->
  (forall j, healthy_read env j) ->
  stop_error env = None ->
  close_error env = None ->
  wave_open_error env output_path = None ->
  36 + RATE * duration / CHUNK * CHUNK * SAMPLE_WIDTH * CHANNELS < 2 ^ 32 ->
  let w' := exec (_test_record_thread env device_index duration output_path) w in
  let payload := concat (frames w') in
  Z.of_nat (length (frames w')) = RATE * duration / CHUNK /\
  Z.of_nat (length payload) = RATE * duration / CHUNK * CHUNK * SAMPLE_WIDTH * CHANNELS /\
  files w' output_path =
    Some (Wave.header CHANNELS SAMPLE_WIDTH RATE (Z.of_nat (length payload)) ++ payload) /\
  (exists evs,
     log w' = log w ++ evs ++ [WaveOpen output_path "wb";
                              TestComplete true "Test recording complete"] /\
     Z.of_nat (count_reads evs) = RATE * duration / CHUNK) /\
  is_testing w' = false /\
  is_recording w' = is_recording w /\
  open_streams w' = open_streams w.
Proof.
  intros HD Hopen Hread Hstop Hclose Hwave Hfit w' payload.
  assert (Hpos : 0 <= RATE * duration / CHUNK).
  { apply Z.div_pos; unfold RATE, CHUNK; lia. }
  assert (Hk : Z.of_nat (Py.range (chunks_needed duration)) = RATE * duration / CHUNK).
  { unfold Py.range. rewrite chunks_needed_floor by assumption. lia. }
  destruct (test_record_thread_saved env device_index duration output_path w
              Hopen (fun j _ => Hread _) Hstop Hclose Hwave)
    as (_ & F & Fi & L & O & T & A & _).
  { rewrite Hk. exact Hfit. }
  fold w' in F, Fi, L, O, T, A.
  set (k := Py.range (chunks_needed duration)) in *.
  assert (Hp : payload = concat (map (chunk env) (seq (reads w) k))).
  { unfold payload. rewrite F. reflexivity. }
  split; [rewrite F, length_map, length_seq; exact Hk|].
  split.
  { rewrite Hp, payload_length by (intros; apply Hread). rewrite Hk. reflexivity. }
  split; [rewrite Hp; exact Fi|].
  split.
  { exists (DeviceOpen true (Some device_index) :: loop_events env (reads w) k ++
            [StreamStop; StreamClose]).
    split.
    - rewrite L. cbn [app]. rewrite <- app_assoc. reflexivity.
    - change (DeviceOpen true (Some device_index) :: ?l)
        with ([DeviceOpen true (Some device_index)] ++ l).
      rewrite !count_reads_app, count_reads_loop_events.
      cbn [count_reads filter length app]. rewrite <- Hk. lia. }
  split; [exact T|]. split; [exact A | exact O].
Qed.

(** The window's three seconds in a silent room: 140 chunks, 286720 bytes. *)
Lemma test_recording_chunk_count_three_seconds :
  let w' := exec (_test_record_thread silent 0 3 test_recording) initial in
  Z.of_nat (length (frames w')) = 140 /\
  Z.of_nat (length (concat (frames w'))) = 286720 /\
  is_testing w' = false.
Proof.
  destruct (test_recording_chunk_count silent 0 3 test_recording initial)
    as (Hc & Hp & _ & _ & Ht & _);
    [lia | reflexivity | exact healthy_silent | reflexivity | reflexivity
    | reflexivity | reflexivity | ].
  cbv zeta. split; [exact Hc|]. split; [exact Hp | exact Ht].
Defined.

(** X5. Whatever the device and the file system do, [_test_record_thread]
    returns normally with [is_testing] cleared, and its last event is its one
    completion signal: [test_complete(True, "Test recording complete")] when
    the body of the [try] returns, [test_complete(False, "Test failed: " +
    str(e))] when it raises [e].  Before that signal the thread only calls the
    input stream of its device and [wave.open(output_path, 'wb')] and emits
    levels between 0 and 100. *)
Theorem test_record_thread_reports_errors (env : environment)
    (device_index duration : Z) (output_path : string) (w : world) :
  let thread := _test_record_thread env device_index duration output_path in
  outcome thread w = Return tt /\
  is_testing (exec thread w) = false /\
  exists evs,
    forallb (capture_event device_index output_path) evs = true /\
    log (exec thread w) = log w ++ evs ++
      [match outcome (test_record_body env device_index duration output_path) w with
       | Return _ => TestComplete true "Test recording complete"
       | Raise e => TestComplete false ("Test failed: " ++ e)
       end].
Proof. apply test_record_thread_any. Qed.

(** X6. Record Test followed by Play Test on healthy devices: [play_test]
    finds the file, returns [True], and the playback thread writes to the
    output device exactly the chunks that were captured, one [stream.write]
    per chunk and in the order of capture, then stops and closes its
    stream. *)
Theorem test_recording_plays_back (env : environment) (device_index duration : Z)
    (w : world) :
  0 <= duration ->
  open_error env true (Some device_index) = None ->
  open_error env false None = None ->
  (forall j, healthy_read env j) ->
  (forall i, write_error env i = None) ->
  stop_error env = None ->
  close_error env = None ->
  wave_open_error env test_recording = None ->
  36 + RATE * duration / CHUNK * CHUNK * SAMPLE_WIDTH * CHANNELS < 2 ^ 32 ->
  let w1 := exec (record_test env device_index duration) w in
  let w2 := exec (play_test env) w1 in
  outcome (play_test env) w1 = Return true /\
  log w2 = log w1 ++ WaveOpen test_recording "rb" :: DeviceOpen false None ::
           map StreamWrite (frames w1) ++ [StreamStop; StreamClose] /\
  open_streams w2 = open_streams w1.
Proof.
  intros HD Hin Hout Hread Hwrite Hstop Hclose Hwave Hfit w1 w2.
  assert (Hk : Z.of_nat (Py.range (chunks_needed duration)) = RATE * duration / CHUNK).
  { unfold Py.range. rewrite chunks_needed_floor by assumption.
    assert (0 <= RATE * duration / CHUNK)
      by (apply Z.div_pos; unfold RATE, CHUNK; lia).
    lia. }
  set (w0 := set_test_file_path (Some test_recording) w).
  assert (E1 : w1 = exec (_test_record_thread env device_index duration test_recording) w0)
    by reflexivity.
  destruct (test_record_thread_saved env device_index duration test_recording w0
              Hin (fun j _ => Hread _) Hstop Hclose Hwave)
    as (_ & F & Fi & _ & _ & _ & _ & P & _).
  { rewrite Hk. exact Hfit. }
  rewrite <- E1 in F, Fi, P.
  assert (P' : test_file_path w1 = Some test_recording) by (rewrite P; reflexivity).
  set (k := Py.range (chunks_needed duration)) in *.
  set (payload := concat (map (chunk env) (seq (reads w0) k))) in *.
  assert (Hlen : 36 + Z.of_nat (length payload) < 2 ^ 32).
  { unfold payload. rewrite payload_length by (intros; apply Hread).
    rewrite Hk. exact Hfit. }
  pose proof (saved_file_reads_back payload Hlen) as Hi.
  assert (Hchunks : Forall (fun c => Z.of_nat (length c) = CHUNK * (CHANNELS * SAMPLE_WIDTH))
                      (frames w1)).
  { rewrite F. apply Forall_forall. intros c Hc. apply in_map_iff in Hc.
    destruct Hc as (j & <- & _). rewrite (healthy_chunk_length env j (Hread j)).
    unfold CHUNK, CHANNELS, SAMPLE_WIDTH. lia. }
  destruct (play_thread_plays_chunks env Hwrite w1 test_recording _ _ (frames w1)
              P' Fi Hi) as (Ho & L & O); try assumption.
  { cbn [Wave.data_chunk]. rewrite F. reflexivity. }
  unfold w2, outcome, exec, play_test.
  rewrite bind_gets, bind_gets, P'. unfold path_exists. rewrite Fi. cbn [negb].
  unfold outcome, exec in Ho, L, O.
  destruct (_play_test_thread env w1) as [[[]|e] w3] eqn:E; cbn [fst snd] in *;
    [|discriminate].
  rewrite (bind_return _ _ _ _ _ E). cbn.
  split; [reflexivity|]. split; [exact L | exact O].
Qed.

(** Three seconds in a silent room, played back. *)
Lemma test_recording_plays_back_three_seconds :
  let w1 := exec (record_test silent 0 3) initial in
  let w2 := exec (play_test silent) w1 in
  outcome (play_test silent) w1 = Return true /\
  log w2 = log w1 ++ WaveOpen test_recording "rb" :: DeviceOpen false None ::
           map StreamWrite (frames w1) ++ [StreamStop; StreamClose] /\
  open_streams w2 = open_streams w1.
Proof.
  apply (test_recording_plays_back silent 0 3 initial);
    [lia | reflexivity | reflexivity | exact healthy_silent
    | intros i; reflexivity | reflexivity | reflexivity | reflexivity | reflexivity].
Defined.

(** ** What the threads leave alone *)

(** X7. Whatever the devices and the files do, [play_test] and its thread
    leave the recorder's flags, its frame list, the test file's path and
    every file as they were and read nothing from the input device; they only
    open a WAV file for reading, open the default output stream, write to it,
    stop it and close it, and emit no signal. *)
Theorem playback_leaves_recorder_alone (env : environment) (w : world) :
  let w' := exec (play_test env) w in
  is_recording w' = is_recording w /\
  is_testing w' = is_testing w /\
  frames w' = frames w /\
  test_file_path w' = test_file_path w /\
  files w' = files w /\
  reads w' = reads w /\
  exists evs, log w' = log w ++ evs /\ forallb playback_event evs = true.
Proof.
  cbv zeta. unfold exec.
  destruct (play_test_same_recorder env w) as (A & B & C & D & E & F).
  repeat (split; [assumption|]).
  exact (play_test_logs env w).
Qed.

(** X8. Whatever the device and the file system do, a dataset recording run
    only calls the input stream of its own device with reads of 1024 frames,
    emits levels between 0 and 100, opens its own output file for writing
    and signals [recording_complete]: it never writes to an output stream,
    never opens another file and never signals [test_complete]. *)
Theorem record_thread_events (env : environment) (device_index duration : Z)
    (output_path : string) (w : world) :
  exists evs,
    log (exec (_record_thread env device_index duration output_path) w) =
      log w ++ evs /\
    forallb (record_event device_index output_path) evs = true.
Proof. exact (record_thread_logs env device_index duration output_path w). Qed.

(** X9. A recording run, dataset or test, changes no file but its output
    file, and when [wave.open] refuses the output file (missing directory,
    no permission) it changes no file at all: a recording that is already
    there under that name stays as it is. *)
Theorem recording_keeps_other_files (env : environment) (device_index duration : Z)
    (output_path p : string) (w : world) :
  p <> output_path \/ wave_open_error env output_path <> None ->
  files (exec (_record_thread env device_index duration output_path) w) p = files w p /\
  files (exec (_test_record_thread env device_index duration output_path) w) p =
    files w p.
Proof.
  intros H. split.
  - exact (record_thread_keeps_file env output_path p H device_index duration w).
  - exact (test_record_thread_keeps_file env output_path p H device_index duration w).
Qed.

(** The first recording of a session is still there after the second. *)
Lemma recording_keeps_other_files_second_run :
  let w := set_file "output/OK/sample_1.wav" [Byte.x52] initial in
  let w' := exec (_record_thread silent 0 1 "output/OK/sample_2.wav") w in
  files w' "output/OK/sample_1.wav" = files w "output/OK/sample_1.wav" /\
  files w "output/OK/sample_1.wav" = Some [Byte.x52].
Proof.
  split; [|reflexivity].
  refine (proj1 (recording_keeps_other_files silent 0 1 "output/OK/sample_2.wav"
                   "output/OK/sample_1.wav"
                   (set_file "output/OK/sample_1.wav" [Byte.x52] initial) _)).
  left. discriminate.
Defined.

(** ** Chunk count and level *)

(** X10. The truncation in [chunks_needed] makes a capture of D seconds
    shorter than asked, by less than one chunk: the chunks_needed * 1024
    frames captured are at most 48000 * D and more than 48000 * D - 1024, and
    they are the full 48000 * D exactly when D is a multiple of 8; a longer
    duration never gives fewer chunks. *)
Theorem capture_shortfall (duration : Z) :
  0 <= duration ->
  let captured_frames := chunks_needed duration * CHUNK in
  RATE * duration - CHUNK < captured_frames <= RATE * duration /\
  (captured_frames = RATE * duration <-> duration mod 8 = 0) /\
  (forall longer, duration <= longer -> chunks_needed duration <= chunks_needed longer).
Proof.
  intros HD. cbv zeta. rewrite chunks_needed_floor by exact HD.
  unfold RATE, CHUNK.
  pose proof (Z.div_mod (48000 * duration) 1024 ltac:(lia)) as E.
  pose proof (Z.mod_pos_bound (48000 * duration) 1024 ltac:(lia)) as B.
  pose proof (Z.div_mod duration 8 ltac:(lia)) as E8.
  pose proof (Z.mod_pos_bound duration 8 ltac:(lia)) as B8.
  split; [lia|]. split.
  - split; intros H.
    + assert (M : (48000 * duration) mod 1024 = 0) by lia.
      apply Z.mod_divide in M; [|lia]. destruct M as [q Hq].
      assert (G : (duration * 375) mod 8 = 0).
      { apply Z.mod_divide; [lia|]. exists q. lia. }
      rewrite Z.mul_mod in G by lia. change (375 mod 8) with 7 in G.
      remember (duration mod 8) as r eqn:Er.
      assert (Hr : r = 0 \/ r = 1 \/ r = 2 \/ r = 3 \/ r = 4 \/ r = 5 \/ r = 6 \/ r = 7)
        by lia.
      destruct Hr as [->|[->|[->|[->|[->|[->|[->| ->]]]]]]];
        [reflexivity | discriminate G ..].
    + assert (Hq : exists q, duration = 8 * q) by (exists (duration / 8); lia).
      destruct Hq as [q ->].
      replace (48000 * (8 * q)) with (375 * q * 1024) by lia.
      rewrite Z.div_mul by lia. reflexivity.
  - intros longer Hl. rewrite chunks_needed_floor by lia.
    apply Z.div_le_mono; unfold RATE, CHUNK; lia.
Qed.

(** One second: 47104 of the 48000 frames. *)
Lemma capture_shortfall_one_second :
  chunks_needed 1 * CHUNK = 47104 /\ RATE * 1 - CHUNK < chunks_needed 1 * CHUNK.
Proof.
  split; [reflexivity|].
  apply (capture_shortfall 1). lia.
Defined.

(** X11. [np.frombuffer(data, dtype=np.int16)] raises exactly on a buffer
    with an odd number of bytes; otherwise it yields one sample for every
    two bytes, each within the range of a 16-bit integer. *)
Theorem frombuffer_whole_samples (data : list byte) :
  (frombuffer data = None <-> Nat.odd (length data) = true) /\
  (forall samples, frombuffer data = Some samples ->
     length data = (2 * length samples)%nat /\ Forall in_int16 samples).
Proof.
  split; [apply frombuffer_odd | apply frombuffer_samples].
Qed.

(** X12. On the samples of a buffer (fewer than 2^23 of them) the
    [min(100, level)] at the [emit] never cuts anything off: [int] already
    returns a level between 0 and 100.  The meter shows 100 exactly for a
    chunk whose samples are all -32768. *)
Theorem level_full_scale (data : list byte) (samples : list Z) :
  frombuffer data = Some samples ->
  samples <> [] ->
  Z.of_nat (length samples) < 2 ^ 23 ->
  (exists level,
     rms_percent (mean_square samples) = inr level /\
     compute_level samples = inr level /\ 0 <= level <= 100) /\
  (compute_level samples = inr 100 <-> Forall (eq (-32768)) samples).
Proof.
  intros H Ne Hn.
  pose proof (proj2 (frombuffer_samples data samples H)) as F.
  split.
  - pose proof (sum_squares_nonneg samples) as P.
    destruct (Z.eq_dec (sum_squares samples) 0) as [Z0|Z0].
    + exists 0. split; [|split; [apply compute_level_zero_sum, Z0 | lia]].
      unfold mean_square. rewrite Z0.
      assert (Hl : 0 < Z.of_nat (length samples) < 2 ^ 53).
      { destruct samples; [congruence | cbn [length] in *; lia]. }
      destruct (Binary64Facts.of_Z_exact _ Hl) as (M & e & E & _).
      apply (rms_percent_of_zero _ false).
      rewrite FloatAxioms.div_spec, E. reflexivity.
    + apply compute_level_percent; [exact F | exact Hn | lia].
  - rewrite (compute_level_full_scale samples F Hn). tauto.
Qed.

(** Two samples at the negative end of the scale read 100; at the positive
    end the same chunk reads 99. *)
Lemma level_full_scale_negative_end :
  compute_level [-32768; -32768] = inr 100 /\ compute_level [32767; 32767] = inr 99.
Proof.
  split; [|vm_compute; reflexivity].
  apply (level_full_scale [Byte.x00; Byte.x80; Byte.x00; Byte.x80] [-32768; -32768]).
  - reflexivity.
  - discriminate.
  - cbn. lia.
  - repeat constructor.
Defined.

(** ** The window *)

(** X13. In every state the window can reach, the Record OK and Record NG
    buttons and the duration, prefix and index fields are enabled exactly
    while no dataset recording runs.  So no click on Record OK or Record NG
    can arrive while a dataset recording runs, and while either kind of
    recording runs a click on Play Test changes nothing and starts no
    timer. *)
Theorem controls_track_recording (device_index : Z)
    (hs : list MainWindow.happening) (s : MainWindow.system) :
  MainWindow.run hs (MainWindow.started device_index) = Some s ->
  controls_follow_flags (MainWindow.win s) /\
  (MainWindow.is_recording (MainWindow.win s) = true ->
   forall category,
     MainWindow.step (MainWindow.ClickRecord category) s = None /\
     forall error,
       MainWindow.step (MainWindow.ClickRecordNoDir category error) s = None) /\
  (MainWindow.is_testing (MainWindow.win s) || MainWindow.is_recording (MainWindow.win s)
     = true ->
   forall available,
     MainWindow.play_test available (MainWindow.win s) = (MainWindow.win s, [])).
Proof.
  intros H.
  assert (I : controls_follow_flags (MainWindow.win s)).
  { apply (run_invariant (fun s => controls_follow_flags (MainWindow.win s))
             step_controls_follow_flags hs (MainWindow.started device_index) s);
      [|exact H].
    unfold controls_follow_flags. cbn. repeat split. }
  split; [exact I|]. split.
  - intros R category. destruct I as (Ok & Ng & _).
    cbn [MainWindow.step]. unfold MainWindow.click_enabled.
    rewrite Ok, Ng, R. cbn.
    destruct (String.eqb category "OK"); split; reflexivity.
  - intros F available. apply MainWindowFacts.play_test_rejected, F.
Qed.

(** After a click on Record OK. *)
Lemma controls_track_recording_after_click :
  exists s,
    MainWindow.run [MainWindow.ClickRecord "OK"] (MainWindow.started 0) = Some s /\
    MainWindow.is_recording (MainWindow.win s) = true /\
    MainWindow.record_ok_button_enabled (MainWindow.win s) = false /\
    MainWindow.step (MainWindow.ClickRecord "NG") s = None.
Proof.
  eexists. split; [reflexivity|]. split; [reflexivity|].
  match goal with |- context [MainWindow.step _ ?s] =>
    pose proof (controls_track_recording 0 [MainWindow.ClickRecord "OK"] s eq_refl)
      as [(Ok & _) [Hclick _]]
  end.
  split; [exact Ok | exact (proj1 (Hclick eq_refl "NG"%string))].
Defined.

(** Play Test is not one of these controls: a test recording started while
    the playback timer is pending finds the button enabled again when the
    timer fires. *)
Lemma play_test_enabled_during_test :
  exists s,
    MainWindow.run
      [MainWindow.ClickRecordTest; MainWindow.TestComplete true "Test recording complete";
       MainWindow.ClickPlayTest true; MainWindow.ClickRecordTest; MainWindow.Timeout]
      (MainWindow.started 0) = Some s /\
    MainWindow.is_testing (MainWindow.win s) = true /\
    MainWindow.test_play_button_enabled (MainWindow.win s) = true.
Proof. eexists. split; [reflexivity|]. split; reflexivity. Qed.

(** X14. In every state the window can reach, each of the window's flags
    tells whether a thread of its kind is running: [is_testing] is set
    exactly while one test recording thread runs and [is_recording] exactly
    while one dataset recording thread runs; there are never two of a
    kind. *)
Theorem flags_track_threads (device_index : Z)
    (hs : list MainWindow.happening) (s : MainWindow.system) :
  MainWindow.run hs (MainWindow.started device_index) = Some s ->
  MainWindow.count MainWindow.is_test_thread (MainWindow.running s) =
    (if MainWindow.is_testing (MainWindow.win s) then 1 else 0)%nat /\
  MainWindow.count MainWindow.is_record_thread (MainWindow.running s) =
    (if MainWindow.is_recording (MainWindow.win s) then 1 else 0)%nat.
Proof.
  intros H.
  apply (run_invariant MainWindow.flags_match MainWindowFacts.step_flags_match
           hs (MainWindow.started device_index) s); [|exact H].
  split; reflexivity.
Qed.

(** A test recording and a dataset recording side by side. *)
Lemma flags_track_threads_both :
  exists s,
    MainWindow.run [MainWindow.ClickRecordTest; MainWindow.ClickRecord "OK"]
      (MainWindow.started 0) = Some s /\
    MainWindow.count MainWindow.is_test_thread (MainWindow.running s) = 1%nat /\
    MainWindow.count MainWindow.is_record_thread (MainWindow.running s) = 1%nat.
Proof.
  eexists. split; [reflexivity|].
  exact (flags_track_threads 0
           [MainWindow.ClickRecordTest; MainWindow.ClickRecord "OK"] _ eq_refl).
Defined.

(** X15. A successful recording advances the index by one, so the next file
    gets a name of its own; a failed one keeps the index and the name.  For a
    given prefix the file name determines the index: two recordings share a
    name only if they share the index. *)
Theorem recording_index_names_files (win : MainWindow.window) (message : string) :
  let saved := MainWindow.on_recording_complete true message win in
  let failed := MainWindow.on_recording_complete false message win in
  MainWindow.current_index saved = MainWindow.current_index win + 1 /\
  MainWindow.filename saved <> MainWindow.filename win /\
  MainWindow.current_index failed = MainWindow.current_index win /\
  MainWindow.filename failed = MainWindow.filename win /\
  forall other,
    MainWindow.prefix_input_text other = MainWindow.prefix_input_text win ->
    MainWindow.filename other = MainWindow.filename win ->
    MainWindow.current_index other = MainWindow.current_index win.
Proof.
  cbv zeta. split; [reflexivity|]. split; [|split; [reflexivity|split; [reflexivity|]]].
  - intros E. apply filename_index in E; [|reflexivity]. cbn in E. lia.
  - intros other. apply filename_index.
Qed.

(** ** Sessions *)

(** X16. Two dataset recordings, one after the other, to different files:
    the second run starts from an empty frame list and holds the chunks read
    after those of the first, both files are on disk afterwards, and the
    first is as the first run wrote it. *)
Theorem consecutive_recordings_keep_apart (env : environment)
    (device_index first_duration second_duration : Z)
    (first_path second_path : string) (w : world) :
  let k1 := chunks_captured env (Py.range (chunks_needed first_duration)) 0 in
  let k2 := chunks_captured env (Py.range (chunks_needed second_duration)) 0 in
  first_path <> second_path ->
  open_error env true (Some device_index) = None ->
  (forall j, healthy_read env j) ->
  stop_error env = None ->
  close_error env = None ->
  wave_open_error env first_path = None ->
  wave_open_error env second_path = None ->
  36 + Z.of_nat k1 * CHUNK * SAMPLE_WIDTH * CHANNELS < 2 ^ 32 ->
  36 + Z.of_nat k2 * CHUNK * SAMPLE_WIDTH * CHANNELS < 2 ^ 32 ->
  let w1 := exec (_record_thread env device_index first_duration first_path) w in
  let w2 := exec (_record_thread env device_index second_duration second_path) w1 in
  let first_payload := concat (map (chunk env) (seq (reads w) k1)) in
  let second_payload := concat (map (chunk env) (seq (reads w + k1) k2)) in
  frames w2 = map (chunk env) (seq (reads w + k1) k2) /\
  files w2 first_path =
    Some (Wave.header CHANNELS SAMPLE_WIDTH RATE (Z.of_nat (length first_payload)) ++
          first_payload) /\
  files w2 second_path =
    Some (Wave.header CHANNELS SAMPLE_WIDTH RATE (Z.of_nat (length second_payload)) ++
          second_payload).
Proof.
  intros k1 k2 Hne Hopen Hread Hstop Hclose Hw1 Hw2 Hf1 Hf2 w1 w2 p1 p2.
  destruct (record_thread_saved env device_index first_duration first_path w
              Hopen (fun j _ => Hread _) Hstop Hclose Hw1 Hf1)
    as (_ & _ & Fi1 & _).
  pose proof (record_thread_reads env device_index first_duration first_path w
                Hopen (fun j _ => Hread _) Hstop Hclose) as R1.
  fold w1 in Fi1, R1. fold k1 in R1.
  destruct (record_thread_saved env device_index second_duration second_path w1
              Hopen (fun j _ => Hread _) Hstop Hclose Hw2 Hf2)
    as (_ & F2 & Fi2 & _).
  fold w2 in F2, Fi2. fold k2 in F2, Fi2. rewrite R1 in F2, Fi2.
  split; [exact F2|]. split; [|exact Fi2].
  transitivity (files w1 first_path); [|exact Fi1].
  exact (record_thread_keeps_file env second_path first_path (or_introl Hne)
           device_index second_duration w1).
Qed.

(** Two one-second recordings in a silent room. *)
Lemma consecutive_recordings_keep_apart_two_samples :
  let w1 := exec (_record_thread silent 0 1 "output/OK/sample_1.wav") initial in
  let w2 := exec (_record_thread silent 0 1 "output/OK/sample_2.wav") w1 in
  length (frames w2) = 46%nat /\
  (exists content, files w2 "output/OK/sample_1.wav"%string = Some content) /\
  (exists content, files w2 "output/OK/sample_2.wav"%string = Some content).
Proof.
  destruct (consecutive_recordings_keep_apart silent 0 1 1
              "output/OK/sample_1.wav" "output/OK/sample_2.wav" initial)
    as (F & F1 & F2);
    [ discriminate | reflexivity | exact healthy_silent | reflexivity | reflexivity
    | reflexivity | reflexivity | reflexivity | reflexivity | ].
  cbv zeta. split; [|split].
  - rewrite F, length_map, length_seq. reflexivity.
  - eexists. exact F1.
  - eexists. exact F2.
Defined.

(** ** The test script *)

(** X17. Test 6 of [test_app.py] passes for every duration whose payload
    fits a WAV file: the file it writes from
    int(sample_rate / chunk_size * duration) silent chunks reads back as 1
    channel, 2 bytes per sample and 48000 Hz.  The script counts its chunks as
    the recorder does. *)
Theorem wav_format_test_passes (duration : Z) :
  0 <= duration ->
  36 + RATE * duration / CHUNK * CHUNK * SAMPLE_WIDTH * CHANNELS < 2 ^ 32 ->
  TestApp.wav_format_test duration = inr true /\
  Z.of_nat (length (TestApp.frames 48000 1024 duration)) = chunks_needed duration.
Proof.
  intros HD Hfit.
  assert (Hpos : 0 <= RATE * duration / CHUNK).
  { apply Z.div_pos; unfold RATE, CHUNK; lia. }
  assert (Hn : Z.of_nat (length (TestApp.frames 48000 1024 duration)) =
               chunks_needed duration).
  { unfold TestApp.frames. cbv zeta. rewrite repeat_length.
    change (Py.int (Py.truediv 48000 1024 * inject_Z duration)%Q)
      with (chunks_needed duration).
    unfold Py.range. rewrite chunks_needed_floor by exact HD. lia. }
  split; [|exact Hn].
  set (payload := concat (TestApp.frames 48000 1024 duration)).
  assert (Hlen : Z.of_nat (length payload) =
                 RATE * duration / CHUNK * CHUNK * SAMPLE_WIDTH * CHANNELS).
  { unfold payload, TestApp.frames. cbv zeta.
    change (Py.int (Py.truediv 48000 1024 * inject_Z duration)%Q)
      with (chunks_needed duration).
    unfold Py.range. rewrite chunks_needed_floor by exact HD.
    generalize (Z.to_nat (RATE * duration / CHUNK)) (Z2Nat.id _ Hpos).
    intros n <-. clear.
    induction n as [|n IH]; [reflexivity|].
    cbn [repeat concat]. rewrite length_app, Nat2Z.inj_add, IH.
    unfold TestApp.silent_chunk. rewrite repeat_length.
    unfold CHUNK, SAMPLE_WIDTH, CHANNELS. lia. }
  unfold TestApp.wav_format_test. cbv zeta. fold payload.
  change (Wave.write 1 2 48000 payload)
    with (Wave.write CHANNELS SAMPLE_WIDTH RATE payload).
  rewrite write_recorder_format by (rewrite Hlen; exact Hfit).
  rewrite saved_file_reads_back by (rewrite Hlen; exact Hfit).
  reflexivity.
Qed.

(** The script's own run: one second, 46 chunks. *)
Lemma wav_format_test_passes_one_second :
  TestApp.wav_format_test 1 = inr true /\
  Z.of_nat (length (TestApp.frames 48000 1024 1)) = 46.
Proof.
  destruct (wav_format_test_passes 1) as [H1 H2]; [lia | reflexivity |].
  split; [exact H1 | rewrite H2; reflexivity].
Defined.
